(** * ModbusPoller: a shallow embedding of the polling/codec core

    The development follows the three source files of the core:
    - [utils/coders.py]  : [Decoder] and [Encoder], the 16 register formats;
    - [utils/modbus.py]  : [Poller], the request planner (the [registers]
      setter), the poll cycle (the [registers] getter), the adjustment
      pipeline ([_adjust], [_adjust_reverse]) and the write path;
    - [utils/workers.py] : [Worker] and [PollingWorker], the polling loop.

    Python values are embedded as follows: [int] is [Z]; [float] is the
    primitive binary64 [float], whose one [nan] stands for every NaN (the
    sign and the payload of a NaN are not represented); [complex] is a pair
    of floats; [str] is [string], read as a string of characters with code
    points below 256, the character [c] having the code point [ord c]
    (strings with other characters are outside the model); a call either
    returns or raises ([outcome]); a [dict] that is iterated in insertion
    order is an association list with Python's assignment ([dict_set]); the
    settings dictionary, which is shared with the caller, lives in a store
    of dictionaries addressed by references. *)

From Stdlib Require Import ZArith Lia Bool Ascii String PrimFloat SpecFloat FloatOps
  FloatAxioms.
From Stdlib Require Uint63.
From stdpp Require Import gmap strings list.

Open Scope Z_scope.

(** ** Calls that return or raise *)

Inductive exn : Type :=
| ValueError (origin detail : string)
| KeyError (key : string)
| TypeError
| IndexError
| ZeroDivisionError
| OverflowError
| StructError            (* struct.error *)
| AttributeError
| UnboundLocalError
| ConnectionException    (* pymodbus.exceptions.ConnectionException *)
| ModbusException.       (* any other pymodbus.exceptions.ModbusException *)

Inductive outcome (A : Type) : Type :=
| Return (a : A)
| Raise (e : exn).
Arguments Return {A} a.
Arguments Raise {A} e.

#[global] Instance outcome_ret : MRet outcome := fun A a => Return a.
#[global] Instance outcome_bind : MBind outcome := fun A B k m =>
  match m with
  | Return a => k a
  | Raise e => Raise e
  end.

#[global] Instance outcome_fmap : FMap outcome := fun A B f m =>
  match m with
  | Return a => Return (f a)
  | Raise e => Raise e
  end.

(** ** Python values *)

Inductive pyval : Type :=
| PyNone
| PyInt (n : Z)
| PyFloat (f : float)
| PyComplex (re im : float)
| PyStr (s : string).

(** ** Dictionaries in insertion order

    [d[k] = v] replaces the value of an existing key in place and appends a
    new key at the end. *)

Section Dict.
Context {K V : Type} `{EqDecision K}.

Fixpoint dict_get (d : list (K * V)) (k : K) : option V :=
  match d with
  | [] => None
  | (k', v) :: d' => if decide (k' = k) then Some v else dict_get d' k
  end.

Fixpoint dict_set (d : list (K * V)) (k : K) (v : V) : list (K * V) :=
  match d with
  | [] => [(k, v)]
  | (k', v') :: d' =>
      if decide (k' = k) then (k, v) :: d' else (k', v') :: dict_set d' k v
  end.

Definition dict_keys (d : list (K * V)) : list K := map fst d.
Definition dict_values (d : list (K * V)) : list V := map snd d.
End Dict.

(** [max(keys)] of a non-empty dictionary with integer keys. *)
Definition max_key (ks : list Z) : option Z :=
  match ks with
  | [] => None
  | k :: ks' => Some (fold_left Z.max ks' k)
  end.

(** ** Characters and digits *)

Definition chars (s : string) : list ascii := list_ascii_of_string s.
Definition text (cs : list ascii) : string := string_of_list_ascii cs.

Definition ord (c : ascii) : Z := Z.of_nat (nat_of_ascii c).
Definition char_of (n : Z) : ascii := ascii_of_nat (Z.to_nat n).

Definition is_digit (c : ascii) : bool := (48 <=? ord c) && (ord c <=? 57).
Definition is_bit (c : ascii) : bool := (ord c =? 48) || (ord c =? 49).

Definition digit_val (c : ascii) : Z := ord c - 48.

(** The value of a hexadecimal digit, if it is one ([0-9a-fA-F]). *)
Definition hex_val (c : ascii) : option Z :=
  let n := ord c in
  if (48 <=? n) && (n <=? 57) then Some (n - 48)
  else if (97 <=? n) && (n <=? 102) then Some (n - 87)
  else if (65 <=? n) && (n <=? 70) then Some (n - 55)
  else None.

Definition is_hex (c : ascii) : bool :=
  match hex_val c with Some _ => true | None => false end.

Definition digit_char (d : Z) : ascii :=
  if d <? 10 then char_of (48 + d) else char_of (87 + d).

(** Most significant digit first; [base] is 2, 10 or 16. *)
Fixpoint digits_fuel (fuel : nat) (base n : Z) (acc : list Z) : list Z :=
  match fuel with
  | O => acc
  | S fuel' =>
      if n <? base then n :: acc
      else digits_fuel fuel' base (n / base) (n mod base :: acc)
  end.

Definition digits (base n : Z) : list Z :=
  digits_fuel (S (Z.to_nat (Z.log2 n))) base n [].

Definition numeral (base n : Z) : list ascii := map digit_char (digits base n).

(** The number read from a list of digit values, most significant first. *)
Definition of_digits (base : Z) (ds : list Z) : Z :=
  fold_left (fun acc d => acc * base + d) ds 0.

(** [str.isdigit]: below 256 the decimal digits and the superscripts 2, 3
    and 1 (0xB2, 0xB3, 0xB9) are digits; [int] refuses the superscripts. *)
Definition is_superscript (c : ascii) : bool :=
  (ord c =? 178) || (ord c =? 179) || (ord c =? 185).

Definition isdigit (s : string) : bool :=
  match chars s with
  | [] => false
  | cs => forallb (fun c => is_digit c || is_superscript c) cs
  end.

(** ** Python's [float]

    A Python float is a binary64 number: [+], [-], [*] are the primitive
    operations, [/] raises on a zero divisor, and comparisons with an [int]
    are exact. *)

Definition float_div (x y : float) : outcome float :=
  if is_zero y then Raise ZeroDivisionError else Return (x / y)%float.

(** A number of the adjustment pipeline: a [float], or the [complex] that
    [**] returns for a negative base and an exponent that is not whole. *)
Inductive numeric : Type :=
| Real (x : float)
| Complex (re im : float).

(** [x ** y] goes through the platform's [pow], and the arithmetic of a
    [complex] with a [float] differs between versions of the interpreter:
    both are left abstract.  [complex_arith op (re, im) y] is
    [complex(re, im) op y] for [op] one of [+], [-], [*], [/] and [**]. *)
Class LibM := {
  float_pow : float -> float -> outcome numeric;
  complex_arith : string -> float * float -> float -> outcome (float * float)
}.

(** [float(n)] for an [int]: the nearest binary64 number. *)
Definition float_of_int (n : Z) : outcome float :=
  let f := SF2Prim (binary_normalize prec emax n 0 false) in
  if is_infinity f then Raise OverflowError else Return f.

(** [int(x)] for a float: truncation towards zero. *)
Definition int_of_float (x : float) : outcome Z :=
  match Prim2SF x with
  | S754_nan => Raise (ValueError "int" "cannot convert float NaN to integer")
  | S754_infinity _ => Raise OverflowError
  | S754_zero _ => Return 0
  | S754_finite s m e =>
      let a := if 0 <=? e then Zpos m * 2 ^ e else Zpos m / 2 ^ (- e) in
      Return (if s then - a else a)
  end.

(** [x == n] for a float [x] and an int [n]. *)
Definition float_eq_int (x : float) (n : Z) : bool :=
  match Prim2SF x with
  | S754_zero _ => n =? 0
  | S754_finite s m e =>
      let m' := if s then Zneg m else Zpos m in
      if 0 <=? e then m' * 2 ^ e =? n else m' =? n * 2 ^ (- e)
  | _ => false
  end.

(** [a * 2^e] rounded to the nearest integer, ties to even. *)
Definition round_half_even (a e : Z) : Z :=
  if 0 <=? e then a * 2 ^ e
  else
    let d := 2 ^ (- e) in
    let q := a / d in
    let r := a mod d in
    match 2 * r ?= d with
    | Lt => q
    | Gt => q + 1
    | Eq => if Z.even q then q else q + 1
    end.

(** The two digits after the point, for a count [n] of hundredths. *)
Definition two_decimals (n : Z) : list ascii :=
  [digit_char (n mod 100 / 10); digit_char (n mod 10)].

Definition fixed_2 (negative : bool) (n : Z) : string :=
  text ((if negative then ["-"%char] else [])
        ++ numeral 10 (n / 100) ++ "."%char :: two_decimals n).

(** [f"{x:.2f}"]. *)
Definition format_2f (x : float) : string :=
  match Prim2SF x with
  | S754_nan => "nan"
  | S754_infinity s => if s then "-inf" else "inf"
  | S754_zero s => fixed_2 s 0
  | S754_finite s m e => fixed_2 s (round_half_even (Zpos m * 100) e)
  end.

(** [f"{z:.2f}"] for a complex: both parts with two decimals, the
    imaginary part always with its sign, and a final [j]. *)
Definition signed_2f (x : float) : list ascii :=
  match chars (format_2f x) with
  | c :: cs => if ord c =? 45 then c :: cs else "+"%char :: c :: cs
  | [] => []
  end.

Definition format_complex_2f (re im : float) : string :=
  text (chars (format_2f re) ++ signed_2f im ++ ["j"%char]).

Definition format_num (v : numeric) : string :=
  match v with
  | Real x => format_2f x
  | Complex re im => format_complex_2f re im
  end.

(** [v == n] for a number and an int: a complex equals an int when its
    imaginary part is zero and its real part equals the int. *)
Definition num_eq_int (v : numeric) (n : Z) : bool :=
  match v with
  | Real x => float_eq_int x n
  | Complex re im => is_zero im && float_eq_int re n
  end.

(** [float(s)] for a string: surrounding white space is dropped, an
    underscore may separate two digits, and what remains is a signed decimal
    numeral with an optional fraction and exponent, or [inf], [infinity] or
    [nan] in any case; a signed [nan] reads as the one [nan].  [None] stands
    for [ValueError].

    [float] and [int] turn the white space outside ASCII (below 256: 0x85
    and 0xA0) into a blank and then strip the white space of ASCII, 0x09 to
    0x0D and 0x20; the separators 0x1C to 0x1F are not stripped. *)

Definition is_space (c : ascii) : bool :=
  let n := ord c in
  ((9 <=? n) && (n <=? 13)) || (n =? 32) || (n =? 133) || (n =? 160).

Fixpoint lstrip (cs : list ascii) : list ascii :=
  match cs with
  | c :: cs' => if is_space c then lstrip cs' else cs
  | [] => []
  end.

Definition strip (cs : list ascii) : list ascii :=
  rev (lstrip (rev (lstrip cs))).

Definition is_underscore (c : ascii) : bool := ord c =? 95.

(** Every underscore stands between two digits. *)
Fixpoint underscores_ok (prev_digit : bool) (cs : list ascii) : bool :=
  match cs with
  | [] => true
  | c :: cs' =>
      if is_underscore c then
        prev_digit && match cs' with c' :: _ => is_digit c' | [] => false end
        && underscores_ok false cs'
      else underscores_ok (is_digit c) cs'
  end.

Definition lower (c : ascii) : ascii :=
  let n := ord c in if (65 <=? n) && (n <=? 90) then char_of (n + 32) else c.

Fixpoint span (p : ascii -> bool) (cs : list ascii) : list ascii * list ascii :=
  match cs with
  | c :: cs' => if p c then let '(a, b) := span p cs' in (c :: a, b) else ([], cs)
  | [] => ([], [])
  end.

Definition take_sign (cs : list ascii) : bool * list ascii :=
  match cs with
  | c :: cs' =>
      if ord c =? 45 then (true, cs')
      else if ord c =? 43 then (false, cs') else (false, cs)
  | [] => (false, [])
  end.

(** The binary64 number nearest to [n * 10^scale], for [n >= 0]. *)
Definition float_of_decimal (negative : bool) (n scale : Z) : float :=
  match n with
  | Zpos p =>
      if 0 <=? scale then
        SF2Prim (binary_normalize prec emax
                   ((if negative then Zneg p else Zpos p) * 10 ^ scale) 0 false)
      else
        match 10 ^ (- scale) with
        | Zpos d =>
            SF2Prim (SFdiv prec emax (S754_finite negative p 0) (S754_finite false d 0))
        | _ => nan
        end
  | _ => if negative then neg_zero else zero
  end.

(** The exponent part: empty, or [e] or [E], an optional sign and digits. *)
Definition exponent_part (cs : list ascii) : option Z :=
  match cs with
  | [] => Some 0
  | c :: cs' =>
      if ord (lower c) =? 101 then
        let '(neg, ds) := take_sign cs' in
        match ds with
        | [] => None
        | _ =>
            if forallb is_digit ds then
              let x := of_digits 10 (map digit_val ds) in
              Some (if neg then - x else x)
            else None
        end
      else None
  end.

Definition float_of_str (s : string) : option float :=
  let cs := strip (chars s) in
  if negb (underscores_ok false cs) then None
  else
    let '(neg, body) := take_sign (filter (fun c => negb (is_underscore c)) cs) in
    let word := text (map lower body) in
    if (word =? "inf")%string || (word =? "infinity")%string then
      Some (if neg then neg_infinity else infinity)
    else if (word =? "nan")%string then Some nan
    else
      let '(ip, rest) := span is_digit body in
      let '(fp, rest') :=
        match rest with
        | c :: r => if ord c =? 46 then span is_digit r else ([], rest)
        | [] => ([], [])
        end in
      match ip ++ fp with
      | [] => None
      | ds =>
          match exponent_part rest' with
          | Some x =>
              Some (float_of_decimal neg (of_digits 10 (map digit_val ds))
                      (x - Z.of_nat (length fp)))
          | None => None
          end
      end.

(** ** [struct]: integers and IEEE numbers as bytes

    A byte string is a list of integers in [0, 255]. *)

Inductive Endian : Type := Big | Little.   (* pymodbus.constants.Endian *)

#[global] Instance Endian_eq_dec : EqDecision Endian.
Proof. solve_decision. Defined.

Definition byte_at (v i : Z) : Z := Z.land (Z.shiftr v (8 * i)) 255.

(** The [n] low bytes of [v], most significant first. *)
Fixpoint be_bytes (n : nat) (v : Z) : list Z :=
  match n with
  | O => []
  | S n' => byte_at v (Z.of_nat n') :: be_bytes n' v
  end.

Definition of_be_bytes (bs : list Z) : Z := of_digits 256 bs.

Definition ordered (order : Endian) (bs : list Z) : list Z :=
  match order with Big => bs | Little => rev bs end.

(** [pack(order + "H", v)] and [pack(order + "h", v)]. *)
Definition pack_H (order : Endian) (v : Z) : outcome (list Z) :=
  if (0 <=? v) && (v <=? 65535) then Return (ordered order (be_bytes 2 v))
  else Raise StructError.

Definition pack_h (order : Endian) (v : Z) : outcome (list Z) :=
  if (-32768 <=? v) && (v <=? 32767) then Return (ordered order (be_bytes 2 v))
  else Raise StructError.

(** [pack("!i", v)]. *)
Definition pack_i (v : Z) : outcome (list Z) :=
  if (-2147483648 <=? v) && (v <=? 2147483647) then Return (be_bytes 4 v)
  else Raise StructError.

(** [unpack(order + "H", bs)[0]]. *)
Definition unpack_H (order : Endian) (bs : list Z) : outcome Z :=
  match bs with
  | [_; _] => Return (of_be_bytes (ordered order bs))
  | _ => Raise StructError
  end.

(** [unpack("!i", bs)[0]]. *)
Definition unpack_i (bs : list Z) : outcome Z :=
  match bs with
  | [_; _; _; _] =>
      let u := of_be_bytes bs in
      Return (if u <? 2147483648 then u else u - 4294967296)
  | _ => Raise StructError
  end.

(** The IEEE-754 interchange encoding with [mbits] fraction bits and [ebits]
    exponent bits, of a number that is canonical in that format.  The one
    [nan] is given the bits of the positive quiet NaN without payload; a NaN
    with a sign or a payload, such as [float("-nan")], is packed by [struct]
    with its own bits, which the model does not tell apart. *)
Definition ieee_bits (mbits ebits : Z) (x : spec_float) : Z :=
  let top := 2 ^ ebits - 1 in
  let bias := 2 ^ (ebits - 1) - 1 in
  let field (s : bool) (E frac : Z) :=
    (if s then 2 ^ (ebits + mbits) else 0) + E * 2 ^ mbits + frac in
  match x with
  | S754_zero s => field s 0 0
  | S754_infinity s => field s top 0
  | S754_nan => field false top (2 ^ (mbits - 1))
  | S754_finite s m e =>
      if Zpos m <? 2 ^ mbits then field s 0 (Zpos m)
      else field s (e + bias + mbits) (Zpos m - 2 ^ mbits)
  end.

Definition ieee_value (mbits ebits : Z) (b : Z) : spec_float :=
  let top := 2 ^ ebits - 1 in
  let bias := 2 ^ (ebits - 1) - 1 in
  let s := Z.testbit b (ebits + mbits) in
  let E := (b / 2 ^ mbits) mod 2 ^ ebits in
  let frac := b mod 2 ^ mbits in
  if E =? 0 then
    match frac with
    | Zpos m => S754_finite s m (1 - bias - mbits)
    | _ => S754_zero s
    end
  else if E =? top then
    if frac =? 0 then S754_infinity s else S754_nan
  else
    match frac + 2 ^ mbits with
    | Zpos m => S754_finite s m (E - bias - mbits)
    | _ => S754_nan
    end.

(** [pack("!d", x)] and [unpack("!d", bs)[0]]. *)
Definition pack_d (x : float) : list Z :=
  be_bytes 8 (ieee_bits 52 11 (Prim2SF x)).

Definition unpack_d (bs : list Z) : outcome float :=
  match bs with
  | [_; _; _; _; _; _; _; _] => Return (SF2Prim (ieee_value 52 11 (of_be_bytes bs)))
  | _ => Raise StructError
  end.

(** [pack("!f", x)]: [x] is rounded to binary32 first; a finite [x] that
    rounds to an infinity is refused. *)
Definition pack_f (x : float) : outcome (list Z) :=
  match Prim2SF x with
  | S754_finite s m e =>
      match binary_round 24 128 s m e with
      | S754_infinity _ => Raise OverflowError
      | r => Return (be_bytes 4 (ieee_bits 23 8 r))
      end
  | sf => Return (be_bytes 4 (ieee_bits 23 8 sf))
  end.

Definition unpack_f (bs : list Z) : outcome float :=
  match bs with
  | [_; _; _; _] => Return (SF2Prim (ieee_value 23 8 (of_be_bytes bs)))
  | _ => Raise StructError
  end.

(** ** [int(v)] and [float(v)] on values *)

(** [int(s)] for a string: white space around, a sign, decimal digits. *)
Definition int_of_str (s : string) : outcome Z :=
  let cs := strip (chars s) in
  let '(neg, ds) := take_sign (filter (fun c => negb (is_underscore c)) cs) in
  match ds with
  | [] => Raise (ValueError "int" "invalid literal")
  | _ =>
      if underscores_ok false cs && forallb is_digit ds then
        let n := of_digits 10 (map digit_val ds) in
        Return (if neg then - n else n)
      else Raise (ValueError "int" "invalid literal")
  end.

Definition py_int (v : pyval) : outcome Z :=
  match v with
  | PyInt n => Return n
  | PyFloat x => int_of_float x
  | PyStr s => int_of_str s
  | PyNone | PyComplex _ _ => Raise TypeError
  end.

Definition py_float (v : pyval) : outcome float :=
  match v with
  | PyInt n => float_of_int n
  | PyFloat x => Return x
  | PyStr s =>
      match float_of_str s with
      | Some x => Return x
      | None => Raise (ValueError "float" "could not convert string to float")
      end
  | PyNone | PyComplex _ _ => Raise TypeError
  end.

(** The value that a number of the pipeline is. *)
Definition num_value (v : numeric) : pyval :=
  match v with
  | Real x => PyFloat x
  | Complex re im => PyComplex re im
  end.

(** The truth value of a value, as [if v] tests it. *)
Definition truth (v : pyval) : bool :=
  match v with
  | PyNone => false
  | PyInt n => negb (n =? 0)
  | PyFloat x => negb (is_zero x)
  | PyComplex re im => negb (is_zero re && is_zero im)
  | PyStr s => negb (s =? EmptyString)%string
  end.

(** [lo <= v <= hi] for integer bounds that binary64 represents exactly. *)
Definition in_range (lo hi : Z) (v : pyval) : outcome bool :=
  match v with
  | PyInt n => Return ((lo <=? n) && (n <=? hi))
  | PyFloat x =>
      lo' ← float_of_int lo; hi' ← float_of_int hi;
      Return ((lo' <=? x)%float && (x <=? hi')%float)
  | _ => Raise TypeError
  end.

(** ** [pymodbus.payload] *)

Fixpoint pairs (bs : list Z) : list (list Z) :=
  match bs with
  | a :: b :: bs' => [a; b] :: pairs bs'
  | [a] => [[a; 0]]
  | [] => []
  end.

(** Modelled from the spec: pymodbus's [BinaryPayloadBuilder] is a library
    outside src/.  A value is packed big-endian, cut into 16-bit words, the
    words are reversed for little word order and each word has its two bytes
    swapped for little byte order; [to_registers] reads the payload back as
    big-endian words. *)
Module BinaryPayloadBuilder.
Definition _pack_words (byteorder wordorder : Endian) (wc : nat)
    (packed : list Z) : outcome (list Z) :=
  if negb (length packed =? 2 * wc)%nat then Raise StructError
  else
    words ← mapM (unpack_H Big) (pairs packed);
    chunks ← mapM (pack_H byteorder) (ordered wordorder words);
    mret (concat chunks).

Definition add_16bit_int (byteorder : Endian) (v : Z) := pack_h byteorder v.
Definition add_16bit_uint (byteorder : Endian) (v : Z) := pack_H byteorder v.

Definition add_32bit_int (byteorder wordorder : Endian) (v : Z) :=
  p ← pack_i v; _pack_words byteorder wordorder 2 p.

Definition add_32bit_float (byteorder wordorder : Endian) (x : float) :=
  p ← pack_f x; _pack_words byteorder wordorder 2 p.

Definition add_64bit_float (byteorder wordorder : Endian) (x : float) :=
  _pack_words byteorder wordorder 4 (pack_d x).

Definition to_registers (payload : list Z) : outcome (list Z) :=
  mapM (unpack_H Big) (pairs payload).
End BinaryPayloadBuilder.

(** Modelled from the spec: pymodbus's [BinaryPayloadDecoder] is a library
    outside src/.  The registers are laid out as big-endian words and the
    word and byte permutation of the format is applied before the value is
    unpacked big-endian. *)
Module BinaryPayloadDecoder.
Definition fromRegisters (registers : list Z) : outcome (list Z) :=
  chunks ← mapM (pack_H Big) registers; mret (concat chunks).

Definition _unpack_words (byteorder wordorder : Endian) (wc : nat)
    (handle : list Z) : outcome (list Z) :=
  if negb (length handle =? 2 * wc)%nat then Raise StructError
  else
    words ← mapM (unpack_H Big) (pairs handle);
    chunks ← mapM (pack_H byteorder) (ordered wordorder words);
    mret (concat chunks).

Definition decode_32bit_int (byteorder wordorder : Endian) (payload : list Z) :=
  h ← _unpack_words byteorder wordorder 2 (take 4 payload); unpack_i h.

Definition decode_32bit_float (byteorder wordorder : Endian) (payload : list Z) :=
  h ← _unpack_words byteorder wordorder 2 (take 4 payload); unpack_f h.

Definition decode_64bit_float (byteorder wordorder : Endian) (payload : list Z) :=
  h ← _unpack_words byteorder wordorder 4 (take 8 payload); unpack_d h.
End BinaryPayloadDecoder.

(** ** utils/coders.py *)

(** [hex(n)]. *)
Definition hex (n : Z) : string :=
  if n <? 0 then text (chars "-0x" ++ numeral 16 (- n))
  else text (chars "0x" ++ numeral 16 n).

(** [format(n, '016b')]: binary digits, zero-padded to 16 characters. *)
Definition format_016b (n : Z) : list ascii :=
  let pad (w : nat) (ds : list ascii) := repeat "0"%char (w - length ds) ++ ds in
  if n <? 0 then "-"%char :: pad 15%nat (numeral 2 (- n))
  else pad 16%nat (numeral 2 n).

(** [s[i:j]] for [0 <= i <= j]. *)
Definition slice {A : Type} (l : list A) (i j : Z) : list A :=
  take (Z.to_nat (j - i)) (drop (Z.to_nat i) l).

(** [sep.join(parts)]. *)
Fixpoint join (sep : list ascii) (parts : list (list ascii)) : list ascii :=
  match parts with
  | [] => []
  | [p] => p
  | p :: ps => p ++ sep ++ join sep ps
  end.

Module Decoder.
Import BinaryPayloadDecoder.

Definition item0 (value : list Z) : outcome Z :=
  match value with v :: _ => Return v | [] => Raise IndexError end.

Definition signed (value : list Z) : outcome pyval :=
  v ← item0 value; Return (PyInt (if v >? 32767 then v - 65536 else v)).

Definition unsigned (value : list Z) : outcome pyval :=
  v ← item0 value; Return (PyInt v).

Definition hex_ascii (value : list Z) : outcome pyval :=
  v ← item0 value; Return (PyStr (hex v)).

Definition binary (value : list Z) : outcome pyval :=
  v ← item0 value;
  let digits := format_016b v in
  Return (PyStr (text (join [" "%char]
    (map (fun x => slice digits (4 * x) (4 * (x + 1))) [0; 1; 2; 3])))).

Definition long (byteorder wordorder : Endian) (value : list Z) : outcome pyval :=
  p ← fromRegisters value; n ← decode_32bit_int byteorder wordorder p; Return (PyInt n).

Definition float32 (byteorder wordorder : Endian) (value : list Z) : outcome pyval :=
  p ← fromRegisters value; x ← decode_32bit_float byteorder wordorder p; Return (PyFloat x).

Definition double (byteorder wordorder : Endian) (value : list Z) : outcome pyval :=
  p ← fromRegisters value; x ← decode_64bit_float byteorder wordorder p; Return (PyFloat x).

Definition long_ab_cd := long Big Big.
Definition long_cd_ab := long Big Little.
Definition long_ba_dc := long Little Big.
Definition long_dc_ba := long Little Little.
Definition float_ab_cd := float32 Big Big.
Definition float_cd_ab := float32 Big Little.
Definition float_ba_dc := float32 Little Big.
Definition float_dc_ba := float32 Little Little.
Definition double_ab_cd_ef_gh := double Big Big.
Definition double_gh_ef_cd_ab := double Big Little.
Definition double_ba_dc_fe_hg := double Little Big.
Definition double_hg_fe_dc_ba := double Little Little.
End Decoder.

(** [re.match] of [^0x[0-9a-fA-F]{1,4}$] and of
    [^[01]{4} [01]{4} [01]{4} [01]{4}$]; [$] also matches before a final
    newline. *)
Definition at_end (cs : list ascii) : bool :=
  match cs with
  | [] => true
  | [c] => ord c =? 10
  | _ => false
  end.

Definition _hex_ascii_pattern (s : string) : bool :=
  match chars s with
  | z :: x :: cs =>
      let '(ds, rest) := span is_hex cs in
      (ord z =? 48) && (ord x =? 120)
      && (1 <=? length ds)%nat && (length ds <=? 4)%nat && at_end rest
  | _ => false
  end.

Fixpoint groups (n : nat) (cs : list ascii) : bool :=
  match cs with
  | a :: b :: c :: d :: rest =>
      is_bit a && is_bit b && is_bit c && is_bit d &&
      match n with
      | O => at_end rest
      | S n' =>
          match rest with
          | sp :: rest' => (ord sp =? 32) && groups n' rest'
          | [] => false
          end
      end
  | _ => false
  end.

Definition _binary_pattern (s : string) : bool := groups 3 (chars s).

(** [int(s, 16)] and [int(s, 2)] on a string that matched: a prefix [0x]
    and a final newline do not count. *)
Definition int_base (base : Z) (cs : list ascii) : Z :=
  of_digits base (omap hex_val cs).

Module Encoder.
Import BinaryPayloadBuilder.

Definition _16bit_int (value : pyval) (byteorder : Endian) : outcome (list Z) :=
  n ← py_int value; p ← add_16bit_int byteorder n; to_registers p.

Definition _16bit_uint (value : pyval) (byteorder : Endian) : outcome (list Z) :=
  n ← py_int value; p ← add_16bit_uint byteorder n; to_registers p.

Definition _32bit_int (value : pyval) (byteorder wordorder : Endian) : outcome (list Z) :=
  n ← py_int value; p ← add_32bit_int byteorder wordorder n; to_registers p.

Definition _32bit_float (value : pyval) (byteorder wordorder : Endian) : outcome (list Z) :=
  x ← py_float value; p ← add_32bit_float byteorder wordorder x; to_registers p.

Definition _64bit_float (value : pyval) (byteorder wordorder : Endian) : outcome (list Z) :=
  x ← py_float value; p ← add_64bit_float byteorder wordorder x; to_registers p.

(** The encoders return the registers, or [None] when the value is refused. *)
Definition signed (value : pyval) : outcome (option (list Z)) :=
  ok ← in_range (-32768) 32767 value;
  if ok : bool then Some <$> _16bit_int value Big else Return None.

Definition unsigned (value : pyval) : outcome (option (list Z)) :=
  ok ← in_range 0 65535 value;
  if ok : bool then Some <$> _16bit_uint value Big else Return None.

Definition hex_ascii (value : pyval) : outcome (option (list Z)) :=
  match value with
  | PyStr s =>
      if _hex_ascii_pattern s
      then Some <$> _16bit_uint (PyInt (int_base 16 (drop 2 (chars s)))) Big
      else Return None
  | _ => Raise TypeError
  end.

Definition binary (value : pyval) : outcome (option (list Z)) :=
  match value with
  | PyStr s =>
      if _binary_pattern s
      then Some <$> _16bit_uint (PyInt (int_base 2 (chars s))) Big
      else Return None
  | _ => Raise TypeError
  end.

Definition long (byteorder wordorder : Endian) (value : pyval) :=
  Some <$> _32bit_int value byteorder wordorder.
Definition float32 (byteorder wordorder : Endian) (value : pyval) :=
  Some <$> _32bit_float value byteorder wordorder.
Definition double (byteorder wordorder : Endian) (value : pyval) :=
  Some <$> _64bit_float value byteorder wordorder.

Definition long_ab_cd := long Big Big.
Definition long_cd_ab := long Big Little.
Definition long_ba_dc := long Little Big.
Definition long_dc_ba := long Little Little.
Definition float_ab_cd := float32 Big Big.
Definition float_cd_ab := float32 Big Little.
Definition float_ba_dc := float32 Little Big.
Definition float_dc_ba := float32 Little Little.
Definition double_ab_cd_ef_gh := double Big Big.
Definition double_gh_ef_cd_ab := double Big Little.
Definition double_ba_dc_fe_hg := double Little Big.
Definition double_hg_fe_dc_ba := double Little Little.
End Encoder.

(** ** The world outside the Poller

    The settings dictionary is supplied by the caller and stored by
    reference, so dictionaries live in a store.  The connection is a script
    of replies, each with the time the transaction takes; every wire
    transaction, sleep and emitted signal is appended to a trace. *)

Definition loc := positive.

Inductive wire_op : Type :=
| Read (func address count : Z) (slave : pyval)
| WriteCoil (address : Z) (bit : bool) (slave : pyval)
| WriteRegisters (address : Z) (values : list Z) (slave : pyval).

Inductive reply : Type :=
| Response (data : list Z)      (* a response that is not an error *)
| ErrorResponse                 (* [response.isError()] *)
| Fails (e : exn).              (* the call raises *)

(** One row of a poll result. *)
Record Row := {
  row_device : string;
  row_id : string;
  row_address : Z;
  row_name : string;
  row_code : string;
  row_format : string;
  row_value : pyval;
  row_response : option (list Z);
  row_timestamp : Z;
  row_changed : bool;
  row_fn : Z;
  row_guid : string
}.

Inductive event : Type :=
| Wire (op : wire_op)
| Msleep (ms : Z)
| EmitResult (guid : string) (registers : option (list Row))
| EmitFinished (guid : string).

Record world := {
  dicts : gmap loc (gmap string pyval);
  clock : Z;                           (* milliseconds *)
  incoming : list (reply * Z);         (* the replies to come, and their delays *)
  trace : list event
}.

Definition io (A : Type) : Type := world -> world * outcome A.

#[global] Instance io_ret : MRet io := fun A a w => (w, Return a).
#[global] Instance io_bind : MBind io := fun A B k m w =>
  match m w with
  | (w', Return a) => k a w'
  | (w', Raise e) => (w', Raise e)
  end.

Definition raise {A : Type} (e : exn) : io A := fun w => (w, Raise e).
Definition lift {A : Type} (m : outcome A) : io A := fun w => (w, m).

Definition log (e : event) (w : world) : world :=
  {| dicts := dicts w; clock := clock w; incoming := incoming w;
     trace := trace w ++ [e] |}.

(** One wire transaction: the next scripted reply, after its delay.  When the
    script is exhausted the peer is gone. *)
Definition transact (op : wire_op) : io reply := fun w =>
  match incoming w with
  | (r, delay) :: rest =>
      ({| dicts := dicts w; clock := clock w + delay; incoming := rest;
          trace := trace w ++ [Wire op] |}, Return r)
  | [] => (log (Wire op) w, Return (Fails ConnectionException))
  end.

(** Reading the world. *)
Definition ask {A : Type} (f : world -> A) : io A := fun w => (w, Return (f w)).

(** [datetime.now()]. *)
Definition now : io Z := ask clock.

(** [QThread.msleep(ms)]; the argument is an unsigned long. *)
Definition msleep (ms : Z) : io unit := fun w =>
  if ms <? 0 then (w, Raise OverflowError)
  else ({| dicts := dicts w; clock := clock w + ms; incoming := incoming w;
           trace := trace w ++ [Msleep ms] |}, Return tt).

Definition emit (e : event) : io unit := fun w => (log e w, Return tt).

(** [d[k] = v] and [d.get(k)] on the dictionary at a reference. *)
Definition store_set (l : loc) (k : string) (v : pyval) : io unit := fun w =>
  ({| dicts := <[l := <[k := v]> (default ∅ (dicts w !! l))]> (dicts w);
      clock := clock w; incoming := incoming w; trace := trace w |}, Return tt).

Definition store_get (l : loc) (k : string) : io pyval :=
  ask (fun w => default PyNone (default ∅ (dicts w !! l) !! k)).

(** ** utils/modbus.py *)

(** One adjustment is a dictionary; the model keeps its items. *)
Definition adjustment := list (string * string).

(** A register of the configuration.  [reg_address] is the number that
    [int(register['address'])] reads. *)
Record Register := {
  reg_device : string;
  reg_guid : string;
  reg_address : Z;
  reg_id : string;
  reg_code : string;
  reg_name : string;
  reg_format : string;
  reg_adjustments : list adjustment
}.

Record MapEntry := {
  entry_id : string;
  entry_address : Z;
  entry_length : Z;
  entry_content : Register
}.

(** A request (a batch).  [req_map] is keyed by the offset in the response. *)
Record Request := {
  req_address : Z;
  req_quantity : Z;
  req_map : list (Z * MapEntry)
}.

Inductive client : Type :=
| ModbusTcpClient (ip : pyval)
| ModbusSerialClient (port baudrate bytesize parity stopbits : pyval).

(** [_requests] maps a function code to its requests; the requests of one
    function are keyed 0, 1, 2, ... in order, and the model keeps the list of
    their values. *)
Record Poller := {
  _settings : loc;
  _connection : option client;
  _requests : list (Z * list Request)
}.

Definition reg_len : list (string * Z) :=
  [("Signed", 1); ("Unsigned", 1); ("Hex - ASCII", 1); ("Binary", 1);
   ("Long AB CD", 2); ("Long CD AB", 2); ("Long BA DC", 2); ("Long DC BA", 2);
   ("Float AB CD", 2); ("Float CD AB", 2); ("Float BA DC", 2); ("Float DC BA", 2);
   ("Double AB CD EF GH", 4); ("Double GH EF CD AB", 4);
   ("Double BA DC FE HG", 4); ("Double HG FE DC BA", 4)]%string.

(** [d[k]] on a dictionary with string keys. *)
Definition item {V : Type} (d : list (string * V)) (k : string) : outcome V :=
  match dict_get d k with
  | Some v => Return v
  | None => Raise (KeyError k)
  end.

Fixpoint foldM {A B : Type} (f : A -> B -> outcome A) (a : A) (l : list B) : outcome A :=
  match l with
  | [] => Return a
  | b :: l' => a' ← f a b; foldM f a' l'
  end.

Module Poller.

Definition __init__ (settings : loc) : io Poller :=
  _ ← store_set settings "scan_rate" (PyInt 1000);
  mret {| _settings := settings; _connection := None; _requests := [] |}.

Definition scan_rate (self : Poller) : io pyval :=
  store_get (_settings self) "scan_rate".

Definition scan_rate_setter (self : Poller) (value : pyval) : io unit :=
  store_set (_settings self) "scan_rate" value.

Definition _get (self : Poller) (name : string) : io pyval :=
  store_get (_settings self) name.

(** *** The [registers] setter: the request planner *)

Definition entry (len : Z) (register : Register) : MapEntry :=
  {| entry_id := reg_id register; entry_address := reg_address register;
     entry_length := len; entry_content := register |}.

(** One turn of the loop over the registers of a function. *)
Definition add_register (requests : list Request) (register : Register)
    : outcome (list Request) :=
  match last requests with
  | Some request =>
      match max_key (dict_keys (req_map request)) with
      | Some prev_map_index =>
          match dict_get (req_map request) prev_map_index with
          | Some prev_map_data =>
              let prev_data_addr := entry_address prev_map_data in
              let prev_data_len := entry_length prev_map_data in
              if reg_address register =? prev_data_addr + prev_data_len then
                len ← item reg_len (reg_format register);
                let map_index := prev_map_index + prev_data_len in
                Return (removelast requests ++
                  [{| req_address := req_address request;
                      req_quantity := req_quantity request + len;
                      req_map := dict_set (req_map request) map_index
                                   (entry len register) |}])
              else
                len ← item reg_len (reg_format register);
                Return (requests ++
                  [{| req_address := reg_address register;
                      req_quantity := len;
                      req_map := [(0, entry len register)] |}])
          | None => Raise (KeyError "map")
          end
      | None => Raise (ValueError "max" "empty sequence")
      end
  | None =>
      len ← item reg_len (reg_format register);
      Return [{| req_address := reg_address register;
                 req_quantity := len;
                 req_map := [(0, entry len register)] |}]
  end.

(** The loop over the registers of one function, from [requests = {}]. *)
Definition plan (registers : list Register) : outcome (list Request) :=
  foldM add_register [] registers.

(** The loop over the function codes: the Poller as the loop leaves it,
    and whether it ended or raised.  [self._requests[fn]] is assigned when
    the registers of [fn] are planned, so that a function code that raises
    leaves the requests of the codes before it replaced. *)
Fixpoint registers_setter_loop (self : Poller) (data : list (Z * list Register))
    : Poller * outcome unit :=
  match data with
  | [] => (self, Return tt)
  | (fn, registers) :: data' =>
      match plan registers with
      | Return requests =>
          registers_setter_loop
            {| _settings := _settings self; _connection := _connection self;
               _requests := dict_set (_requests self) fn requests |} data'
      | Raise e => (self, Raise e)
      end
  end.

(** The setter as a call that returns: the Poller after it. *)
Definition registers_setter (self : Poller) (data : list (Z * list Register))
    : outcome Poller :=
  let '(self', r) := registers_setter_loop self data in
  _ ← r; Return self'.

(** *** The adjustment pipeline *)

Section Adjust.
Context `{LibM}.

(** [v + x], [v - x], [v * x], [v / x] and [v ** x] for a number [v] of the
    pipeline and a float [x]. *)
Definition complex_result (r : outcome (float * float)) : outcome numeric :=
  (fun c => Complex c.1 c.2) <$> r.

Definition num_add (v : numeric) (x : float) : outcome numeric :=
  match v with
  | Real r => Return (Real (r + x)%float)
  | Complex re im => complex_result (complex_arith "+" (re, im) x)
  end.

Definition num_sub (v : numeric) (x : float) : outcome numeric :=
  match v with
  | Real r => Return (Real (r - x)%float)
  | Complex re im => complex_result (complex_arith "-" (re, im) x)
  end.

Definition num_mul (v : numeric) (x : float) : outcome numeric :=
  match v with
  | Real r => Return (Real (r * x)%float)
  | Complex re im => complex_result (complex_arith "*" (re, im) x)
  end.

Definition num_div (v : numeric) (x : float) : outcome numeric :=
  match v with
  | Real r => Real <$> float_div r x
  | Complex re im => complex_result (complex_arith "/" (re, im) x)
  end.

Definition num_pow (v : numeric) (x : float) : outcome numeric :=
  match v with
  | Real r => float_pow r x
  | Complex re im => complex_result (complex_arith "**" (re, im) x)
  end.

(** One operator of one adjustment: the running value, or the label
    that is returned at once. *)
Definition adjust_step (result : numeric) (operator operand : string)
    : outcome (numeric + string) :=
  if isdigit operator then
    n ← int_of_str operator;
    if num_eq_int result n
    then Return (inr operand) else Return (inl result)
  else if (operator =? "+")%string then
    x ← py_float (PyStr operand); inl <$> num_add result x
  else if (operator =? "-")%string then
    x ← py_float (PyStr operand); inl <$> num_sub result x
  else if (operator =? "*")%string then
    x ← py_float (PyStr operand); inl <$> num_mul result x
  else if (operator =? "/")%string then
    x ← py_float (PyStr operand); inl <$> num_div result x
  else if (operator =? "^")%string then
    x ← py_float (PyStr operand); inl <$> num_pow result x
  else Return (inl result).

Fixpoint adjust_items (result : numeric) (items : adjustment)
    : outcome (numeric + string) :=
  match items with
  | [] => Return (inl result)
  | (operator, operand) :: items' =>
      r ← adjust_step result operator operand;
      match r with
      | inl result' => adjust_items result' items'
      | inr label => Return (inr label)
      end
  end.

Fixpoint adjust_loop (result : numeric) (adjustments : list adjustment)
    : outcome (numeric + string) :=
  match adjustments with
  | [] => Return (inl result)
  | a :: adjustments' =>
      r ← adjust_items result a;
      match r with
      | inl result' => adjust_loop result' adjustments'
      | inr label => Return (inr label)
      end
  end.

Definition _adjust (value : pyval) (adjustments : list adjustment) : outcome pyval :=
  match value with
  | PyNone => Return PyNone
  | PyStr s => Return (PyStr s)
  | _ =>
      result ← py_float value;
      r ← adjust_loop (Real result) adjustments;
      match r with
      | inl result' => Return (PyStr (format_num result'))
      | inr label => Return (PyStr label)
      end
  end.

Definition reverse_step (value : numeric) (operator operand : string)
    : outcome numeric :=
  if (operator =? "+")%string then
    x ← py_float (PyStr operand); num_sub value x
  else if (operator =? "-")%string then
    x ← py_float (PyStr operand); num_add value x
  else if (operator =? "*")%string then
    x ← py_float (PyStr operand); num_div value x
  else if (operator =? "/")%string then
    x ← py_float (PyStr operand); num_mul value x
  else if (operator =? "^")%string then
    x ← py_float (PyStr operand); y ← float_div 1 x; num_pow value y
  else Return value.

Definition reverse_items (value : numeric) (items : adjustment) : outcome numeric :=
  foldM (fun v '(operator, operand) => reverse_step v operator operand) value items.

Definition _adjust_reverse (value : float) (adjustments : list adjustment)
    : outcome numeric :=
  foldM reverse_items (Real value) (rev adjustments).

(** *** Decoding and encoding one value *)

Definition decoders : list (string * (list Z -> outcome pyval)) :=
  [("Signed", Decoder.signed); ("Unsigned", Decoder.unsigned);
   ("Hex - ASCII", Decoder.hex_ascii); ("Binary", Decoder.binary);
   ("Long AB CD", Decoder.long_ab_cd); ("Long CD AB", Decoder.long_cd_ab);
   ("Long BA DC", Decoder.long_ba_dc); ("Long DC BA", Decoder.long_dc_ba);
   ("Float AB CD", Decoder.float_ab_cd); ("Float CD AB", Decoder.float_cd_ab);
   ("Float BA DC", Decoder.float_ba_dc); ("Float DC BA", Decoder.float_dc_ba);
   ("Double AB CD EF GH", Decoder.double_ab_cd_ef_gh);
   ("Double GH EF CD AB", Decoder.double_gh_ef_cd_ab);
   ("Double BA DC FE HG", Decoder.double_ba_dc_fe_hg);
   ("Double HG FE DC BA", Decoder.double_hg_fe_dc_ba)]%string.

Definition encoders : list (string * (pyval -> outcome (option (list Z)))) :=
  [("Signed", Encoder.signed); ("Unsigned", Encoder.unsigned);
   ("Hex - ASCII", Encoder.hex_ascii); ("Binary", Encoder.binary);
   ("Long AB CD", Encoder.long_ab_cd); ("Long CD AB", Encoder.long_cd_ab);
   ("Long BA DC", Encoder.long_ba_dc); ("Long DC BA", Encoder.long_dc_ba);
   ("Float AB CD", Encoder.float_ab_cd); ("Float CD AB", Encoder.float_cd_ab);
   ("Float BA DC", Encoder.float_ba_dc); ("Float DC BA", Encoder.float_dc_ba);
   ("Double AB CD EF GH", Encoder.double_ab_cd_ef_gh);
   ("Double GH EF CD AB", Encoder.double_gh_ef_cd_ab);
   ("Double BA DC FE HG", Encoder.double_ba_dc_fe_hg);
   ("Double HG FE DC BA", Encoder.double_hg_fe_dc_ba)]%string.

Definition decode_value (raw_value : list Z) (data_format : string)
    (adjustments : list adjustment) : outcome pyval :=
  match raw_value with
  | _ :: _ =>
      match dict_get decoders data_format with
      | Some decoder => v ← decoder raw_value; _adjust v adjustments
      | None => Raise (ValueError "Error@Poller.decode_value."
                         ("data_format " ++ data_format ++ " not found in format_dict."))
      end
  | [] => Raise (ValueError "Error@Poller.decode_value." "raw_value [] incorrect.")
  end.

(** [utils.isNumerical]: [float(value)] succeeds; only [ValueError] is
    caught. *)
Definition isNumerical (value : pyval) : outcome bool :=
  match py_float value with
  | Return _ => Return true
  | Raise (ValueError _ _) => Return false
  | Raise e => Raise e
  end.

Definition encode_value (value : pyval) (data_format : string)
    (adjustments : list adjustment) : outcome (option (list Z)) :=
  match dict_get encoders data_format with
  | Some encoder =>
      if negb (bool_decide (data_format ∈ ["Hex - ASCII"; "Binary"]%string)) then
        ok ← isNumerical value;
        if ok : bool then
          x ← py_float value;
          v ← _adjust_reverse x adjustments;
          encoder (num_value v)
        else Return None
      else encoder value
  | None => Raise (ValueError "Error@Poller.encode_value."
                     ("data_format " ++ data_format ++ " not found in format_dict."))
  end.

(** *** The wire *)

Definition _get_connection (self : Poller) : io (option client) :=
  protocol ← _get self "protocol";
  match protocol with
  | PyStr "TCP" =>
      ip ← _get self "ip";
      if truth ip then mret (Some (ModbusTcpClient ip)) else mret None
  | PyStr "RTU" =>
      port ← _get self "port";
      baudrate ← _get self "baud";
      bytesize ← _get self "bytesize";
      parity ← _get self "parity";
      stopbits ← _get self "stopbits";
      mret (Some (ModbusSerialClient port baudrate
        (if truth bytesize then bytesize else PyInt 8)
        (if truth parity then parity else PyStr "N")
        (match stopbits with PyNone => PyInt 1 | b => b end)))
  | _ => mret None
  end.

Definition connect (self : Poller) : io Poller :=
  c ← _get_connection self;
  match c with
  | Some _ =>
      mret {| _settings := _settings self; _connection := c;
              _requests := _requests self |}
  | None => raise AttributeError
  end.

Definition disconnect (self : Poller) : io unit := mret tt.

Definition slave_id (self : Poller) : io pyval :=
  s ← _get self "slave_id";
  mret (match s with PyNone => PyInt 1 | _ => s end).

Definition _poll (self : Poller) (func reg_address reg_qnty : Z)
    : io (option (list Z)) :=
  slave ← slave_id self;
  if bool_decide (func ∈ [1; 2; 3; 4]) then
    match _connection self with
    | None => raise AttributeError
    | Some _ =>
        r ← transact (Read func reg_address reg_qnty slave);
        match r with
        | Fails ConnectionException => mret None
        | Fails e => raise e
        | ErrorResponse => mret None
        | Response data =>
            if bool_decide (func ∈ [1; 2])
            then mret (Some (slice data 0 reg_qnty))
            else mret (Some data)
        end
    end
  else mret None.

Definition writeSingleCoil (self : Poller) (address : Z) (value : bool)
    : io reply :=
  slave ← slave_id self;
  match _connection self with
  | None => raise AttributeError
  | Some _ =>
      r ← transact (WriteCoil address value slave);
      match r with Fails e => raise e | _ => mret r end
  end.

Definition writeRegisters (self : Poller) (address : Z) (value : list Z)
    : io reply :=
  slave ← slave_id self;
  match _connection self with
  | None => raise AttributeError
  | Some _ =>
      r ← transact (WriteRegisters address value slave);
      match r with Fails e => raise e | _ => mret r end
  end.

(** *** The [registers] getter: one poll cycle *)

(** The rows so far, and whether [response] and [content] are bound. *)
Definition cycle_state : Type := list Row * bool * bool.

Definition truthy (response : option (list Z)) : bool :=
  match response with Some (_ :: _) => true | _ => false end.

Fixpoint each {A B : Type} (f : A -> B -> io A) (a : A) (l : list B) : io A :=
  match l with
  | [] => mret a
  | b :: l' => a' ← f a b; each f a' l'
  end.

Definition read_entry (fn : Z) (response : option (list Z))
    (st : cycle_state) (kv : Z * MapEntry) : io cycle_state :=
  let '(result, bound_response, _) := st in
  let '(pos, register) := kv in
  let content := entry_content register in
  length ← lift (item reg_len (reg_format content));
  let raw_value :=
    if truthy response then slice (default [] response) pos (pos + length)
    else [] in
  value ← lift (decode_value raw_value (reg_format content)
                  (reg_adjustments content));
  t ← now;
  mret (result ++
          [{| row_device := reg_device content; row_id := reg_id content;
              row_address := reg_address content;
              row_name := reg_name content; row_code := reg_code content;
              row_format := reg_format content; row_value := value;
              row_response := response; row_timestamp := t;
              row_changed := true; row_fn := fn;
              row_guid := reg_guid content |}],
        bound_response, true).

Definition read_request (self : Poller) (fn : Z) (st : cycle_state)
    (request : Request) : io cycle_state :=
  let '(result, _, bound_content) := st in
  response ← _poll self fn (req_address request) (req_quantity request);
  each (read_entry fn response) (result, true, bound_content) (req_map request).

Definition read_function (self : Poller) (st : cycle_state)
    (kv : Z * list Request) : io cycle_state :=
  let '(fn, requests) := kv in each (read_request self fn) st requests.

(** The body of the [try]: the loops, then [del response; del content]. *)
Definition registers_body (self : Poller) : io (list Row) :=
  st ← each (read_function self) ([], false, false) (_requests self);
  let '(result, bound_response, bound_content) := st in
  if negb bound_response then raise UnboundLocalError
  else if negb bound_content then raise UnboundLocalError
  else mret result.

(** [except ModbusException]: the getter returns [None]. *)
Definition registers (self : Poller) : io (option (list Row)) := fun w =>
  match registers_body self w with
  | (w', Return result) => (w', Return (Some result))
  | (w', Raise ModbusException) | (w', Raise ConnectionException) =>
      (w', Return None)
  | (w', Raise e) => (w', Raise e)
  end.
End Adjust.
End Poller.

(** ** utils/workers.py *)

(** [polling] is the callable that tells whether polling goes on; it reads
    state owned by the caller. *)
Record Worker := {
  sleep : Z;
  guid : string;
  _poller : option Poller;
  _exec_time : Z;
  polling : world -> bool
}.

Definition with_exec_time (self : Worker) (t : Z) : Worker :=
  {| sleep := sleep self; guid := guid self; _poller := _poller self;
     _exec_time := t; polling := polling self |}.

Definition with_poller (self : Worker) (p : Poller) : Worker :=
  {| sleep := sleep self; guid := guid self; _poller := Some p;
     _exec_time := _exec_time self; polling := polling self |}.

Module Worker.
Definition run (self : Worker) : io Worker :=
  let self := if _exec_time self >? sleep self then with_exec_time self 0 else self in
  _ ← msleep (sleep self - _exec_time self);
  mret (with_exec_time self 0).
End Worker.

Module PollingWorker.
Section Run.
Context `{LibM}.

Definition poller (self : Worker) : io Poller :=
  match _poller self with
  | Some p => mret p
  | None => raise AttributeError
  end.

Definition writeSingleCoil (self : Worker) (address : Z) (value : bool) : io unit :=
  p ← poller self; _ ← Poller.writeSingleCoil p address value; mret tt.

Definition writeRegisters (self : Worker) (address : Z) (data_format : string)
    (adj : list adjustment) (value : string) : io unit :=
  p ← poller self;
  encoded_value ← lift (Poller.encode_value (PyStr value) data_format adj);
  match encoded_value with
  | Some registers => _ ← Poller.writeRegisters p address registers; mret tt
  | None => mret tt
  end.

(** One turn of [while True]: the worker, and whether the loop goes on. *)
Definition cycle (self : Worker) : io (Worker * bool) :=
  started_at ← now;
  p ← poller self;
  registers ← Poller.registers p;
  _ ← emit (EmitResult (guid self) registers);
  t ← now;
  self ← Worker.run (with_exec_time self (t - started_at));
  go_on ← ask (polling self);
  mret (self, go_on).

(** The loop, for at most [fuel] turns: [true] when it was left. *)
Fixpoint loop (fuel : nat) (self : Worker) : io (Worker * bool) :=
  match fuel with
  | O => mret (self, false)
  | S fuel' =>
      '(self, go_on) ← cycle self;
      if go_on : bool then loop fuel' self else mret (self, true)
  end.

Definition run (fuel : nat) (self : Worker) : io bool :=
  p ← poller self;
  p ← Poller.connect p;
  '(self, ended) ← loop fuel (with_poller self p);
  if ended : bool then
    _ ← Poller.disconnect p;
    _ ← emit (EmitFinished (guid self));
    mret true
  else mret false.
End Run.
End PollingWorker.

(** ** The planner as the specification words it

    A register joins the current batch when its address is the batch's start
    address plus the batch's word count; its offset is the word count before
    the extension.  Otherwise it opens a new batch. *)

Definition spec_add_register (batches : list Request) (register : Register)
    : outcome (list Request) :=
  len ← item reg_len (reg_format register);
  match last batches with
  | Some current =>
      if reg_address register =? req_address current + req_quantity current then
        Return (removelast batches ++
          [{| req_address := req_address current;
              req_quantity := req_quantity current + len;
              req_map := req_map current ++
                           [(req_quantity current, Poller.entry len register)] |}])
      else
        Return (batches ++
          [{| req_address := reg_address register; req_quantity := len;
              req_map := [(0, Poller.entry len register)] |}])
  | None =>
      Return [{| req_address := reg_address register; req_quantity := len;
                 req_map := [(0, Poller.entry len register)] |}]
  end.

Definition spec_plan (registers : list Register) : outcome (list Request) :=
  foldM spec_add_register [] registers.

(** The start address and word count of each batch. *)
Definition summary (requests : list Request) : list (Z * Z) :=
  map (fun r => (req_address r, req_quantity r)) requests.

(** The members of a batch, and their total length. *)
Definition members (r : Request) : list MapEntry := dict_values (req_map r).

Definition total_length (es : list MapEntry) : Z :=
  foldr (fun e acc => entry_length e + acc) 0 es.

(** The offset ranges of the entries at two different positions of a map are
    disjoint. *)
Definition disjoint_offsets (m : list (Z * MapEntry)) : Prop :=
  forall (i j : nat) (o o' : Z) (e e' : MapEntry),
    m !! i = Some (o, e) -> m !! j = Some (o', e') -> i <> j ->
    o + entry_length e <= o' \/ o' + entry_length e' <= o.

(** ** Encoding, then decoding *)

Definition codec_round_trip (data_format : string) (v : pyval) : outcome (option pyval) :=
  encoder ← item Poller.encoders data_format;
  decoder ← item Poller.decoders data_format;
  registers ← encoder v;
  match registers with
  | Some rs => Some <$> decoder rs
  | None => Return None
  end.

(** ** Callers of a Poller

    The calls a caller can make on a Poller it has constructed; a caller that
    meets an exception goes on with the Poller as the call has left it. *)

Inductive call : Type :=
| Call_scan_rate
| Call_scan_rate_setter (value : pyval)
| Call_get (name : string)
| Call_registers
| Call_registers_setter (data : list (Z * list Register))
| Call_decode_value (raw_value : list Z) (data_format : string) (adjustments : list adjustment)
| Call_encode_value (value : pyval) (data_format : string) (adjustments : list adjustment)
| Call_connect
| Call_poll (func reg_address reg_qnty : Z)
| Call_writeSingleCoil (address : Z) (value : bool)
| Call_writeRegisters (address : Z) (value : list Z)
| Call_disconnect.

Section Calls.
Context `{LibM}.

Definition perform (c : call) (self : Poller) : io Poller :=
  match c with
  | Call_scan_rate => _ ← Poller.scan_rate self; mret self
  | Call_scan_rate_setter value => _ ← Poller.scan_rate_setter self value; mret self
  | Call_get name => _ ← Poller._get self name; mret self
  | Call_registers => _ ← Poller.registers self; mret self
  | Call_registers_setter data => lift (Poller.registers_setter self data)
  | Call_decode_value raw_value data_format adjustments =>
      _ ← lift (Poller.decode_value raw_value data_format adjustments); mret self
  | Call_encode_value value data_format adjustments =>
      _ ← lift (Poller.encode_value value data_format adjustments); mret self
  | Call_connect => Poller.connect self
  | Call_poll func reg_address reg_qnty =>
      _ ← Poller._poll self func reg_address reg_qnty; mret self
  | Call_writeSingleCoil address value =>
      _ ← Poller.writeSingleCoil self address value; mret self
  | Call_writeRegisters address value =>
      _ ← Poller.writeRegisters self address value; mret self
  | Call_disconnect => _ ← Poller.disconnect self; mret self
  end.

(** The Poller after a call that raised: the setter has replaced the
    requests of the function codes before the one that raised, and
    [connect] has stored the connection that is missing. *)
Definition interrupted (c : call) (self : Poller) : Poller :=
  match c with
  | Call_registers_setter data => (Poller.registers_setter_loop self data).1
  | Call_connect =>
      {| _settings := _settings self; _connection := None;
         _requests := _requests self |}
  | _ => self
  end.

Fixpoint perform_all (cs : list call) (self : Poller) (w : world) : world * Poller :=
  match cs with
  | [] => (w, self)
  | c :: cs' =>
      match perform c self w with
      | (w', Return self') => perform_all cs' self' w'
      | (w', Raise _) => perform_all cs' (interrupted c self) w'
      end
  end.
End Calls.

(** The settings dictionary at a reference. *)
Definition settings_at (l : loc) (w : world) : gmap string pyval :=
  default ∅ (dicts w !! l).

(** The sleeps and the wire transactions of a trace. *)
Definition sleeps (t : list event) : list Z :=
  omap (fun e => match e with Msleep ms => Some ms | _ => None end) t.

Definition wire_ops (t : list event) : list wire_op :=
  omap (fun e => match e with Wire op => Some op | _ => None end) t.

Definition results (t : list event) : list (option (list Row)) :=
  omap (fun e => match e with EmitResult _ r => Some r | _ => None end) t.

(** ** The adjustment pipeline, step by step *)

(** One step per adjustment, as the configuration writes them. *)
Definition steps (items : list (string * string)) : list adjustment :=
  map (fun i => [i]) items.

(** *** The pipeline as the specification words it

    Arithmetic steps accumulate in floating point, and the inverse walks the
    steps in reverse order with the algebraically inverse operator: [+] and
    [-] undo each other, [*] and [/] undo each other, and a power is undone
    by the power with the reciprocal exponent. *)

Definition arithmetic : list string := ["+"; "-"; "*"; "/"; "^"]%string.

Definition inverse_operator (operator : string) : string :=
  if (operator =? "+")%string then "-"
  else if (operator =? "-")%string then "+"
  else if (operator =? "*")%string then "/"
  else if (operator =? "/")%string then "*"
  else operator.

Section Undone.
Context `{LibM}.

(** [x operator a] in floating point. *)
Definition arith (operator : string) (x a : float) : outcome numeric :=
  if (operator =? "+")%string then Return (Real (x + a)%float)
  else if (operator =? "-")%string then Return (Real (x - a)%float)
  else if (operator =? "*")%string then Return (Real (x * a)%float)
  else if (operator =? "/")%string then Real <$> float_div x a
  else if (operator =? "^")%string then float_pow x a
  else Return (Real x).

(** The inverse of the step [operator operand] at [y]. *)
Definition spec_reverse_step (y : float) (operator operand : string)
    : outcome numeric :=
  a ← py_float (PyStr operand);
  if (operator =? "^")%string then b ← float_div 1 a; arith "^" y b
  else arith (inverse_operator operator) y a.

(** Walking forward from [x], every step is arithmetic and gives a float,
    from which the inverse step gives back [x]: the step loses nothing to
    rounding, and neither it nor its inverse raises. *)
Fixpoint undone (x : float) (items : list (string * string)) : Prop :=
  match items with
  | [] => True
  | (operator, operand) :: items' =>
      operator ∈ arithmetic /\
      exists a y : float,
        py_float (PyStr operand) = Return a /\
        arith operator x a = Return (Real y) /\
        spec_reverse_step y operator operand = Return (Real x) /\
        undone y items'
  end.
End Undone.

(** The closed examples contain no [^] step and no complex number: their
    [pow] is never called. *)
Definition no_pow : LibM :=
  {| float_pow := fun _ _ => Raise OverflowError;
     complex_arith := fun _ _ _ => Raise OverflowError |}.

(** The one-character string of the superscript two, U+00B2: [str.isdigit]
    accepts it and [int] refuses it. *)
Definition superscript_two : string := String (char_of 178) EmptyString.

(** A platform on which [(-8.0) ** 0.5] is the complex number that CPython
    computes, 1.7319121124709868e-16+2.8284271247461903j. *)
Definition root_of_minus_eight : LibM :=
  {| float_pow := fun x y =>
       if ((x =? -8) && (y =? 0.5))%float
       then Return (Complex 0x1.8f5a0be038ed7p-53 0x1.6a09e667f3bcdp+1)
       else Raise OverflowError;
     complex_arith := fun _ _ _ => Raise OverflowError |}.

(** A string with exactly two decimal digits after the point. *)
Definition two_decimal_digits (s : string) : Prop :=
  exists (whole : list ascii) (d1 d2 : ascii),
    s = text (whole ++ ["."%char; d1; d2]) /\
    is_digit d1 = true /\ is_digit d2 = true /\
    forallb (fun c => negb (ord c =? 46)) whole = true.

(** ** The shape of a planned batch

    Offsets start at 0, every entry begins where the one before it ends and
    sits at the batch's start address plus its offset, lengths are positive,
    and the quantity is where the last entry ends. *)

Inductive chained (start : Z) : Z -> list (Z * MapEntry) -> Prop :=
| chained_first (e : MapEntry) :
    0 < entry_length e -> entry_address e = start ->
    chained start (entry_length e) [(0, e)]
| chained_next (q : Z) (m : list (Z * MapEntry)) (e : MapEntry) :
    chained start q m -> 0 < entry_length e -> entry_address e = start + q ->
    chained start (q + entry_length e) (m ++ [(q, e)]).

Definition well_formed (r : Request) : Prop :=
  chained (req_address r) (req_quantity r) (req_map r).

(** The registers behind the entries of a list of batches, in order. *)
Definition contents (requests : list Request) : list Register :=
  concat (map (fun r => map entry_content (members r)) requests).

Definition known (register : Register) : Prop :=
  is_Some (dict_get reg_len (reg_format register)).

(** ** Frames on the world *)

(** A computation that leaves every dictionary as it was. *)
Definition keeps_dicts {A : Type} (m : io A) : Prop :=
  forall w : world, dicts (m w).1 = dicts w.

(** The sleep of [Worker.run] for an interval [T] and a measured time [E]. *)
Definition sleep_for (T E : Z) : Z := if E >? T then T else T - E.

(** ** Data of the examples *)

Definition register_at (address : Z) (data_format : string)
    (adjustments : list adjustment) : Register :=
  {| reg_device := "device 1"; reg_guid := "d3d8ab61"; reg_address := address;
     reg_id := "20f9f032"; reg_code := "Code1"; reg_name := "Name 1";
     reg_format := data_format; reg_adjustments := adjustments |}.

(** A TCP device whose settings dictionary is at reference 1. *)
Definition tcp_settings : gmap string pyval :=
  {[ "protocol" := PyStr "TCP"; "ip" := PyStr "192.168.1.1" ]}.

Definition world_with (script : list (reply * Z)) : world :=
  {| dicts := {[ 1%positive := tcp_settings ]}; clock := 0;
     incoming := script; trace := [] |}.

Definition connected (requests : list (Z * list Request)) : Poller :=
  {| _settings := 1%positive;
     _connection := Some (ModbusTcpClient (PyStr "192.168.1.1"));
     _requests := requests |}.

(** Two holding registers that are not adjacent: two batches. *)
Definition two_batches : list (Z * list Request) :=
  match Poller.plan [register_at 0 "Signed" []; register_at 5 "Signed" []] with
  | Return requests => [(3, requests)]
  | Raise _ => []
  end.

Definition worker_of (p : Poller) (T E : Z) : Worker :=
  {| sleep := T; guid := "d3d8ab61"; _poller := Some p; _exec_time := E;
     polling := fun _ => true |}.

(** One holding register: one batch. *)
Definition one_batch : list (Z * list Request) :=
  match Poller.plan [register_at 0 "Signed" []] with
  | Return requests => [(3, requests)]
  | Raise _ => []
  end.

(** A worker polling two batches, and a connection on which the first
    transaction succeeds and the second fails. *)
Definition second_fails (failure : reply) : world :=
  world_with [(Response [7], 20); (failure, 30)].

(** The number of registers a Poller is configured with. *)
Definition register_count (self : Poller) : nat :=
  sum_list (map (fun kv => sum_list (map (fun r => length (req_map r)) kv.2))
                (_requests self)).

(** The rows of a cycle state. *)
Definition rows (st : Poller.cycle_state) : list Row := st.1.1.

(** A decoded value that is a number. *)
Definition is_number (v : pyval) : bool :=
  match v with PyInt _ | PyFloat _ => true | _ => false end.

(** ** Forward, then reverse

    [invert_number] reverses the number the forward walk reaches;
    [invert_apply] goes through the string that [_adjust] returns, read back
    by [float] as on the write path. *)

Section Invert.
Context `{LibM}.

Definition invert_number (x : float) (adjustments : list adjustment)
    : outcome numeric :=
  r ← Poller.adjust_loop (Real x) adjustments;
  match r with
  | inl v => y ← py_float (num_value v); Poller._adjust_reverse y adjustments
  | inr label => Raise (ValueError "float" label)
  end.

Definition invert_apply (x : float) (adjustments : list adjustment)
    : outcome numeric :=
  s ← Poller._adjust (PyFloat x) adjustments;
  z ← py_float s;
  Poller._adjust_reverse z adjustments.
End Invert.

(** [float(s)] for a numeral of the examples. *)
Definition number (s : string) : float := default nan (float_of_str s).

(** ** The formats by width *)

Definition long_formats : list string :=
  ["Long AB CD"; "Long CD AB"; "Long BA DC"; "Long DC BA"]%string.

Definition float_formats : list string :=
  ["Float AB CD"; "Float CD AB"; "Float BA DC"; "Float DC BA"]%string.

Definition double_formats : list string :=
  ["Double AB CD EF GH"; "Double GH EF CD AB"; "Double BA DC FE HG";
   "Double HG FE DC BA"]%string.

(** [unpack("!f", pack("!f", x))[0]]: [x] rounded to a binary32 number. *)
Definition binary32 (x : float) : outcome float := p ← pack_f x; unpack_f p.

(** [x] is a binary32 number: an infinity, a NaN, a zero, or a finite
    number whose binary64 mantissa is a mantissa of binary32 followed by [k]
    zeros. *)
Definition is_binary32 (x : float) : Prop :=
  match Prim2SF x with
  | S754_finite s m e =>
      exists m' k : positive,
        m = Pos.iter xO m' k /\ bounded 24 128 m' (e + Z.pos k) = true
  | _ => True
  end.

Definition is_byte (b : Z) : Prop := 0 <= b < 256.

(** The Binary text of sixteen bits, most significant first. *)
Definition bit_char (b : bool) : ascii := if b then "1"%char else "0"%char.

Definition binary_text (bits : list bool) : string :=
  text (join [" "%char]
          (map (fun x => map bit_char (slice bits (4 * x) (4 * (x + 1)))) [0; 1; 2; 3])).

(** ** The settings dictionary *)

(** From [w] to [w'], nothing but the key [scan_rate] of the dictionary at
    [l] has changed. *)
Definition only_scan_rate (l : loc) (w w' : world) : Prop :=
  delete "scan_rate"%string (settings_at l w') = delete "scan_rate"%string (settings_at l w) /\
  delete l (dicts w') = delete l (dicts w).

(** ** What the planner files

    The placement of an entry in its batch, and registers that one batch
    reads. *)

(** An entry as the setter files it: under the offset of its register from
    the start of the batch, with the register's identifier and address and
    the length of its format, inside the words the batch asks for. *)
Definition placed (r : Request) (kv : Z * MapEntry) : Prop :=
  kv.1 = reg_address (entry_content kv.2) - req_address r /\
  0 <= kv.1 /\ kv.1 + entry_length kv.2 <= req_quantity r /\
  item reg_len (reg_format (entry_content kv.2)) = Return (entry_length kv.2) /\
  entry_id kv.2 = reg_id (entry_content kv.2) /\
  entry_address kv.2 = reg_address (entry_content kv.2).

(** The total length of registers of known formats. *)
Definition width (registers : list Register) : Z :=
  foldr (fun r acc => default 0 (dict_get reg_len (reg_format r)) + acc) 0 registers.

(** Registers that follow one another from [address] on without a gap. *)
Fixpoint adjacent (address : Z) (registers : list Register) : Prop :=
  match registers with
  | [] => True
  | r :: rs =>
      reg_address r = address /\
      exists len : Z, dict_get reg_len (reg_format r) = Some len /\
                      adjacent (address + len) rs
  end.

(** Registers in ascending order, each ending where the next one starts or
    before it; [ascending_from bound] also has the first one at [bound] or
    behind it. *)
Fixpoint ascending_from (bound : Z) (registers : list Register) : Prop :=
  match registers with
  | [] => True
  | r :: rs =>
      bound <= reg_address r /\
      ascending_from (reg_address r + width [r]) rs
  end.

Definition ascending (registers : list Register) : Prop :=
  match registers with
  | [] => True
  | r :: rs => ascending_from (reg_address r + width [r]) rs
  end.

(** Every batch ends where each batch behind it starts, or before it. *)
Fixpoint in_order (requests : list Request) : Prop :=
  match requests with
  | [] => True
  | r :: rest =>
      Forall (fun r' => req_address r + req_quantity r <= req_address r') rest /\
      in_order rest
  end.

(** The words of an entry of a batch lie before the words of every entry of
    a later batch. *)
Definition apart (requests : list Request) : Prop :=
  forall (i j : nat) (r r' : Request) (o o' : Z) (e e' : MapEntry),
    requests !! i = Some r -> requests !! j = Some r' -> (i < j)%nat ->
    (o, e) ∈ req_map r -> (o', e') ∈ req_map r' ->
    req_address r + o + entry_length e <= req_address r' + o'.

(** What the setter writes into an entry. *)
Definition filed (kv : Z * MapEntry) : Prop :=
  item reg_len (reg_format (entry_content kv.2)) = Return (entry_length kv.2) /\
  entry_id kv.2 = reg_id (entry_content kv.2) /\
  entry_address kv.2 = reg_address (entry_content kv.2).

(** ** What a cycle reads and returns *)

(** What a row says about the register it belongs to. *)
Definition heading : Type :=
  Z * string * string * string * Z * string * string * string.

Definition row_heading (r : Row) : heading :=
  (row_fn r, row_guid r, row_device r, row_id r, row_address r, row_name r,
   row_code r, row_format r).

Definition register_heading (fn : Z) (c : Register) : heading :=
  (fn, reg_guid c, reg_device c, reg_id c, reg_address c, reg_name c,
   reg_code c, reg_format c).

(** The headings of the configured registers, in the order of the loops. *)
Definition request_headings (fn : Z) (r : Request) : list heading :=
  map (fun kv => register_heading fn (entry_content kv.2)) (req_map r).

Definition headings (self : Poller) : list heading :=
  concat (map (fun kv => concat (map (request_headings kv.1) kv.2)) (_requests self)).

(** The reads of one cycle: one for each batch of a function code 1 to 4. *)
Definition function_reads (slave : pyval) (kv : Z * list Request) : list wire_op :=
  if bool_decide (kv.1 ∈ [1; 2; 3; 4])
  then map (fun r => Read kv.1 (req_address r) (req_quantity r) slave) kv.2
  else [].

Definition cycle_reads (slave : pyval) (self : Poller) : list wire_op :=
  concat (map (function_reads slave) (_requests self)).

(** From [w] to [w'] the dictionaries are kept and the wire has seen [ops]. *)
Definition wired (ops : list wire_op) (w w' : world) : Prop :=
  dicts w' = dicts w /\ wire_ops (trace w') = wire_ops (trace w) ++ ops.

(** ** Decoding, then encoding *)

(** Decoding registers, then encoding the value again. *)
Definition registers_round_trip (data_format : string) (rs : list Z)
    : outcome (option (list Z)) :=
  decoder ← item Poller.decoders data_format;
  encoder ← item Poller.encoders data_format;
  v ← decoder rs;
  encoder v.

Definition is_word (w : Z) : Prop := 0 <= w <= 65535.

Definition integer_formats : list string :=
  ["Signed"; "Unsigned"; "Hex - ASCII"; "Binary";
   "Long AB CD"; "Long CD AB"; "Long BA DC"; "Long DC BA"]%string.

(** ** Integers as text and as binary64 numbers *)

(** [str(n)] for an [int]. *)
Definition str_int (n : Z) : list ascii :=
  if n <? 0 then "-"%char :: numeral 10 (- n) else numeral 10 n.

(** The integer with two zero decimals, as [f"{n:.2f}"] writes it. *)
Definition with_two_zeros (n : Z) : string := text (str_int n ++ chars ".00").

(** The binary64 number that is the integer [n], below 2^52 in magnitude:
    the mantissa is shifted to 53 bits. *)
Definition is_integer (n : Z) (x : spec_float) : Prop :=
  match n with
  | 0 => x = S754_zero false
  | Zpos p | Zneg p =>
      exists k : positive,
        Z.pos k = 53 - Z.pos (Pos.size p) /\
        x = S754_finite (n <? 0) (Pos.iter xO p k) (Z.neg k)
  end.

(** A character of a plain numeral: no white space and no underscore. *)
Definition plain (c : ascii) : Prop := is_space c = false /\ is_underscore c = false.

(** The formats whose value is an integer that is shown as a number. *)
Definition number_formats : list string :=
  ["Signed"; "Unsigned"; "Long AB CD"; "Long CD AB"; "Long BA DC"; "Long DC BA"]%string.

(** * Properties *)

Lemma reg_len_positive (f : string) (len : Z) :
  item reg_len f = Return len -> 0 < len.
Proof.
  unfold item, reg_len; simpl.
  repeat (case_decide; [intros [= <-]; lia|]).
  discriminate.
Qed.

Lemma known_item (register : Register) :
  known register ->
  exists len, item reg_len (reg_format register) = Return len /\ 0 < len.
Proof.
  intros [len Hlen]. exists len.
  assert (Hitem : item reg_len (reg_format register) = Return len)
    by (unfold item; rewrite Hlen; reflexivity).
  split; [assumption | eapply reg_len_positive; eassumption].
Qed.

(** ** Dictionaries *)

Lemma dict_get_fresh {V : Type} (m : list (Z * V)) (k : Z) (v : V) :
  k ∉ dict_keys m -> dict_get (m ++ [(k, v)]) k = Some v.
Proof.
  induction m as [|[k' v'] m IH]; simpl; intros Hk.
  - case_decide; congruence.
  - apply not_elem_of_cons in Hk as [Hne Hk].
    case_decide; [congruence | auto].
Qed.

Lemma dict_set_fresh {V : Type} (m : list (Z * V)) (k : Z) (v : V) :
  k ∉ dict_keys m -> dict_set m k v = m ++ [(k, v)].
Proof.
  induction m as [|[k' v'] m IH]; simpl; intros Hk; [reflexivity|].
  apply not_elem_of_cons in Hk as [Hne Hk].
  case_decide; [congruence | by rewrite IH].
Qed.

Lemma fold_max_bound (ks : list Z) (k b : Z) :
  k <= b -> Forall (fun x => x <= b) ks -> fold_left Z.max ks k <= b.
Proof.
  revert k. induction ks as [|x ks IH]; simpl; intros k Hk Hks; [assumption|].
  inversion Hks; subst. apply IH; [lia | assumption].
Qed.

Lemma fold_max_last (ks : list Z) (k o : Z) :
  k <= o -> Forall (fun x => x <= o) ks -> fold_left Z.max (ks ++ [o]) k = o.
Proof.
  intros Hk Hks. rewrite fold_left_app. simpl.
  pose proof (fold_max_bound ks k o Hk Hks). lia.
Qed.

Lemma max_key_last (ks : list Z) (o : Z) :
  Forall (fun x => x < o) ks -> max_key (ks ++ [o]) = Some o.
Proof.
  destruct ks as [|k ks]; simpl; intros Hks; [reflexivity|].
  inversion Hks; subst. f_equal. apply fold_max_last; [lia|].
  eapply Forall_impl; [eassumption | simpl; intros; lia].
Qed.

(** ** Chained maps *)

Lemma chained_positive (start q : Z) (m : list (Z * MapEntry)) :
  chained start q m -> 0 < q.
Proof. induction 1; lia. Qed.

Lemma chained_keys (start q : Z) (m : list (Z * MapEntry)) :
  chained start q m -> Forall (fun k => 0 <= k < q) (dict_keys m).
Proof.
  induction 1 as [e Hlen Haddr | q m e Hm IH Hlen Haddr].
  - repeat constructor; simpl; lia.
  - unfold dict_keys in *. rewrite map_app. apply Forall_app. split.
    + eapply Forall_impl; [exact IH | simpl; intros; lia].
    + pose proof (chained_positive _ _ _ Hm).
      repeat constructor; simpl; lia.
Qed.

Lemma chained_fresh (start q : Z) (m : list (Z * MapEntry)) :
  chained start q m -> q ∉ dict_keys m.
Proof.
  intros Hm Hin. apply chained_keys in Hm.
  rewrite Forall_forall in Hm. specialize (Hm _ Hin). lia.
Qed.

Lemma chained_total (start q : Z) (m : list (Z * MapEntry)) :
  chained start q m -> total_length (dict_values m) = q.
Proof.
  induction 1 as [e Hlen Haddr | q m e Hm IH Hlen Haddr]; simpl; [lia|].
  unfold dict_values, total_length in *. rewrite map_app, foldr_app. simpl.
  rewrite <- IH. clear. induction (map snd m) as [|x l IHl]; simpl; lia.
Qed.

Lemma chained_sorted (start q : Z) (m : list (Z * MapEntry)) :
  chained start q m ->
  forall (i j : nat) (o o' : Z) (e e' : MapEntry),
    m !! i = Some (o, e) -> m !! j = Some (o', e') -> (i < j)%nat ->
    o + entry_length e <= o'.
Proof.
  induction 1 as [e0 Hlen Haddr | q m e0 Hm IH Hlen Haddr];
    intros i j o o' e e' Hi Hj Hij.
  - destruct i as [|i], j as [|j]; simpl in *; try lia; try discriminate.
  - assert (Hends : forall (i : nat) o e, m !! i = Some (o, e) -> o + entry_length e <= q).
    { clear -Hm. induction Hm as [e0 ? ? | q m e0 Hm IH ? ?]; intros i o e Hi.
      - destruct i as [|[|i]]; simpl in Hi; try discriminate. injection Hi as <- <-. lia.
      - destruct (decide (i < length m)%nat) as [Hlt|Hge].
        + rewrite lookup_app_l in Hi by assumption. specialize (IH _ _ _ Hi). lia.
        + rewrite lookup_app_r in Hi by lia.
          destruct (i - length m)%nat as [|k]; simpl in Hi; [|destruct k; discriminate].
          injection Hi as <- <-. lia. }
    destruct (decide (j < length m)%nat) as [Hlt|Hge].
    + rewrite lookup_app_l in Hi by lia. rewrite lookup_app_l in Hj by assumption.
      eapply IH; eassumption.
    + rewrite lookup_app_r in Hj by lia.
      destruct (j - length m)%nat as [|k] eqn:Hk; simpl in Hj; [|destruct k; discriminate].
      injection Hj as <- <-.
      assert (i < length m)%nat by lia.
      rewrite lookup_app_l in Hi by assumption. eapply Hends; eassumption.
Qed.

Lemma chained_disjoint (start q : Z) (m : list (Z * MapEntry)) :
  chained start q m -> disjoint_offsets m.
Proof.
  intros Hm i j o o' e e' Hi Hj Hij.
  destruct (decide (i < j)%nat).
  - left. eapply chained_sorted; eassumption.
  - right. eapply chained_sorted; [eassumption | exact Hj | exact Hi | lia].
Qed.

Lemma chained_end (start q : Z) (m : list (Z * MapEntry)) :
  chained start q m ->
  exists (o : Z) (e : MapEntry),
    max_key (dict_keys m) = Some o /\ dict_get m o = Some e /\
    entry_address e = start + o /\ o + entry_length e = q.
Proof.
  destruct 1 as [e Hlen Haddr | q m e Hm Hlen Haddr].
  - exists 0, e. simpl. repeat (split; [reflexivity || lia|]). lia.
  - exists q, e. split; [|split; [|split]]; [| |assumption|reflexivity].
    + unfold dict_keys. rewrite map_app. simpl. apply max_key_last.
      eapply Forall_impl; [apply (chained_keys _ _ _ Hm) | simpl; intros; lia].
    + apply dict_get_fresh. eapply chained_fresh; eassumption.
Qed.

Lemma chained_nodup (start q : Z) (m : list (Z * MapEntry)) :
  chained start q m -> NoDup (dict_keys m).
Proof.
  induction 1 as [e Hlen Haddr | q m e Hm IH Hlen Haddr].
  - simpl. apply NoDup_singleton.
  - unfold dict_keys in *. rewrite map_app. simpl. apply NoDup_app.
    split; [assumption|]. split; [|apply NoDup_singleton].
    intros k Hk Hk'. apply list_elem_of_singleton in Hk'. subst k.
    eapply chained_fresh; eassumption.
Qed.

Lemma chained_within (start q : Z) (m : list (Z * MapEntry)) :
  chained start q m ->
  Forall (fun kv => entry_address kv.2 = start + kv.1 /\ 0 <= kv.1 /\
                    kv.1 + entry_length kv.2 <= q) m.
Proof.
  induction 1 as [e Hlen Haddr | q m e Hm IH Hlen Haddr].
  - repeat constructor; simpl; lia.
  - pose proof (chained_positive _ _ _ Hm). apply Forall_app. split.
    + eapply Forall_impl; [exact IH|]. simpl. intros kv (? & ? & ?).
      repeat split; lia.
    + repeat constructor; simpl; lia.
Qed.

(** ** The planner *)

Lemma last_removelast {A : Type} (l : list A) (x : A) :
  last l = Some x -> removelast l ++ [x] = l.
Proof.
  intros Hl. apply last_Some in Hl as [l' ->].
  by rewrite removelast_last.
Qed.

Lemma well_formed_last (requests : list Request) (request : Request) :
  Forall well_formed requests -> last requests = Some request ->
  well_formed request.
Proof.
  intros Hwf Hl. apply last_Some in Hl as [l' ->].
  apply Forall_app in Hwf as [_ Hwf]. by inversion Hwf.
Qed.

(** On the batches it builds, the source's test on the last map entry is the
    specification's test on the batch, and the new key is the word count. *)
Lemma add_register_spec (requests : list Request) (register : Register) :
  Forall well_formed requests ->
  Poller.add_register requests register = spec_add_register requests register.
Proof.
  intros Hwf. unfold Poller.add_register, spec_add_register.
  destruct (last requests) as [request|] eqn:Hl.
  - pose proof (well_formed_last _ _ Hwf Hl) as Hr.
    destruct (chained_end _ _ _ Hr) as (o & e & Hmax & Hget & Haddr & Hend).
    rewrite Hmax, Hget.
    replace (entry_address e + entry_length e)
      with (req_address request + req_quantity request) by lia.
    destruct (item reg_len (reg_format register)) as [len|err]; simpl;
      [|by destruct (_ =? _)].
    destruct (_ =? _); [|reflexivity].
    rewrite Hend, dict_set_fresh; [reflexivity|].
    eapply chained_fresh; exact Hr.
  - by destruct (item reg_len (reg_format register)).
Qed.

Lemma contents_snoc (requests : list Request) (r : Request) :
  contents (requests ++ [r]) = contents requests ++ map entry_content (members r).
Proof.
  unfold contents. by rewrite map_app, concat_app; simpl; rewrite app_nil_r.
Qed.

Lemma members_snoc (r : Request) (q : Z) (e : MapEntry) (start quantity : Z) :
  members {| req_address := start; req_quantity := quantity;
             req_map := req_map r ++ [(q, e)] |} = members r ++ [e].
Proof. unfold members, dict_values; simpl. by rewrite map_app. Qed.

(** A step keeps the batches well formed and files the register last. *)
Lemma spec_add_register_keeps (requests requests' : list Request) (register : Register) :
  Forall well_formed requests ->
  spec_add_register requests register = Return requests' ->
  Forall well_formed requests' /\
  contents requests' = contents requests ++ [register].
Proof.
  intros Hwf. unfold spec_add_register.
  destruct (item reg_len (reg_format register)) as [len|err] eqn:Hlen;
    simpl; [|discriminate].
  apply reg_len_positive in Hlen.
  assert (Hnew : well_formed
            {| req_address := reg_address register; req_quantity := len;
               req_map := [(0, Poller.entry len register)] |}).
  { unfold well_formed; simpl.
    apply (chained_first _ (Poller.entry len register)); simpl; [lia|reflexivity]. }
  destruct (last requests) as [current|] eqn:Hl.
  - pose proof (well_formed_last _ _ Hwf Hl) as Hc.
    destruct (_ =? _) eqn:Haddr; intros [= <-].
    + apply Z.eqb_eq in Haddr.
      rewrite <- (last_removelast _ _ Hl) in Hwf |- *.
      apply Forall_app in Hwf as [Hinit _].
      rewrite removelast_last. split.
      * apply Forall_app. split; [assumption|]. repeat constructor.
        unfold well_formed; simpl.
        apply (chained_next _ _ _ (Poller.entry len register)); simpl;
          [exact Hc | lia | exact Haddr].
      * rewrite !contents_snoc, members_snoc, map_app, <- app_assoc.
        reflexivity.
    + split.
      * apply Forall_app. split; [assumption | by repeat constructor].
      * rewrite contents_snoc. reflexivity.
  - intros [= <-]. split; [by repeat constructor|].
    destruct requests as [|r rs]; [reflexivity|].
    exfalso. clear -Hl. revert r Hl.
    induction rs as [|r' rs IH]; intros r Hl; [discriminate|]. exact (IH r' Hl).
Qed.

Lemma plan_from (acc : list Request) (registers : list Register) :
  Forall well_formed acc ->
  foldM Poller.add_register acc registers = foldM spec_add_register acc registers.
Proof.
  revert acc. induction registers as [|register registers IH]; intros acc Hwf;
    simpl; [reflexivity|].
  rewrite add_register_spec by assumption.
  destruct (spec_add_register acc register) as [acc'|err] eqn:Hstep;
    simpl; [|reflexivity].
  apply IH. by apply (spec_add_register_keeps acc acc' register).
Qed.

Lemma spec_plan_from (acc : list Request) (registers : list Register) :
  Forall well_formed acc -> Forall known registers ->
  exists requests,
    foldM spec_add_register acc registers = Return requests /\
    Forall well_formed requests /\
    contents requests = contents acc ++ registers.
Proof.
  revert acc. induction registers as [|register registers IH]; intros acc Hwf Hk.
  - exists acc. simpl. by rewrite app_nil_r.
  - inversion Hk as [|? ? Hreg Hrest]; subst.
    assert (exists acc', spec_add_register acc register = Return acc') as [acc' Hstep].
    { destruct (known_item _ Hreg) as (len & Hlen & _).
      unfold spec_add_register. rewrite Hlen. simpl.
      destruct (last acc); [destruct (_ =? _)|]; eauto. }
    destruct (spec_add_register_keeps _ _ _ Hwf Hstep) as [Hwf' Hc'].
    destruct (IH acc' Hwf' Hrest) as (requests & Hrun & Hwfr & Hcr).
    exists requests. simpl. rewrite Hstep. simpl.
    split; [assumption | split; [assumption|]].
    rewrite Hcr, Hc', <- app_assoc. reflexivity.
Qed.

Lemma plan_spec_plan (registers : list Register) :
  Poller.plan registers = spec_plan registers.
Proof. apply plan_from. constructor. Qed.

(** C3: the source's planner is the planner of the specification: a register
    joins the current batch iff it is the first one or its address is the
    batch's start address plus its word count, its offset being the word
    count before the extension, and otherwise opens a new batch.  Registers of
    length 1 at addresses 0, 1, 2 give the one batch (start 0, count 3); at
    addresses 0, 1, 3 they give the batches (0, 2) and (3, 1). *)
Theorem C3_planner_follows_spec :
  (forall registers : list Register, Poller.plan registers = spec_plan registers) /\
  (forall r0 r1 r2 : Register,
      map reg_address [r0; r1; r2] = [0; 1; 2] ->
      Forall (fun r => item reg_len (reg_format r) = Return 1) [r0; r1; r2] ->
      summary <$> Poller.plan [r0; r1; r2] = Return [(0, 3)]) /\
  (forall r0 r1 r2 : Register,
      map reg_address [r0; r1; r2] = [0; 1; 3] ->
      Forall (fun r => item reg_len (reg_format r) = Return 1) [r0; r1; r2] ->
      summary <$> Poller.plan [r0; r1; r2] = Return [(0, 2); (3, 1)]).
Proof.
  split; [exact plan_spec_plan|].
  split; intros r0 r1 r2 [= A0 A1 A2] Hlen; rewrite plan_spec_plan;
    inversion Hlen as [|? ? L0 Hlen1]; subst;
    inversion Hlen1 as [|? ? L1 Hlen2]; subst;
    inversion Hlen2 as [|? ? L2 _]; subst;
    unfold spec_plan; simpl; unfold spec_add_register;
    rewrite L0; simpl; rewrite L1, A0, A1; simpl;
    rewrite L2, A2; reflexivity.
Qed.

(** ** Batches in order *)

Lemma in_order_snoc (requests : list Request) (x : Request) :
  in_order requests ->
  Forall (fun r => req_address r + req_quantity r <= req_address x) requests ->
  in_order (requests ++ [x]).
Proof.
  induction requests as [|r rest IH]; simpl.
  - intros _ _. by split.
  - intros [Hr Hrest] Hx. apply Forall_cons in Hx as [Hrx Hx]. split.
    + apply Forall_app. split; [assumption | by repeat constructor].
    + by apply IH.
Qed.

Lemma in_order_init (requests : list Request) (x : Request) :
  in_order (requests ++ [x]) ->
  in_order requests /\
  Forall (fun r => req_address r + req_quantity r <= req_address x) requests.
Proof.
  induction requests as [|r rest IH]; simpl.
  - intros _. by split.
  - intros [Hr Hrest]. apply Forall_app in Hr as [Hr Hx].
    destruct (IH Hrest) as [Hin Hall]. split; [by split|].
    constructor; [by inversion Hx | assumption].
Qed.

Lemma in_order_lookup (requests : list Request) (i j : nat) (r r' : Request) :
  in_order requests ->
  requests !! i = Some r -> requests !! j = Some r' -> (i < j)%nat ->
  req_address r + req_quantity r <= req_address r'.
Proof.
  revert i j. induction requests as [|r0 rest IH]; intros i j Hin Hi Hj Hij.
  - discriminate.
  - destruct Hin as [Hr0 Hrest]. destruct j as [|j]; [lia|].
    destruct i as [|i]; simpl in Hi, Hj.
    + injection Hi as <-. rewrite Forall_forall in Hr0. apply Hr0.
      eapply list_elem_of_lookup_2. exact Hj.
    + apply (IH i j); [assumption..|lia].
Qed.

(** A step on batches in order that end at [bound] or before it, for a
    register at [bound] or behind it. *)
Lemma spec_add_register_in_order (requests requests' : list Request)
    (register : Register) (bound : Z) :
  in_order requests ->
  Forall (fun r => req_address r + req_quantity r <= bound) requests ->
  bound <= reg_address register ->
  spec_add_register requests register = Return requests' ->
  in_order requests' /\
  Forall (fun r => req_address r + req_quantity r
                   <= reg_address register + width [register]) requests'.
Proof.
  intros Hin Hends Hbound. unfold spec_add_register.
  destruct (item reg_len (reg_format register)) as [len|err] eqn:Hlen;
    cbn [mbind outcome_bind]; [|discriminate].
  pose proof (reg_len_positive _ _ Hlen) as Hpos.
  assert (Hwidth : width [register] = len).
  { unfold item in Hlen. cbn [width foldr].
    destruct (dict_get reg_len (reg_format register)); [|discriminate].
    injection Hlen as ->. simpl. lia. }
  rewrite Hwidth.
  assert (Hold : Forall (fun r => req_address r + req_quantity r
                                  <= reg_address register + len) requests)
    by (eapply Forall_impl; [exact Hends | simpl; intros; lia]).
  assert (Hbefore : Forall (fun r => req_address r + req_quantity r
                                     <= reg_address register) requests)
    by (eapply Forall_impl; [exact Hends | simpl; intros; lia]).
  destruct (last requests) as [current|] eqn:Hl.
  - destruct (_ =? _) eqn:Haddr; intros [= <-].
    + apply Z.eqb_eq in Haddr.
      rewrite <- (last_removelast _ _ Hl) in Hin, Hold.
      apply in_order_init in Hin as [Hin Hinit].
      apply Forall_app in Hold as [Hold _]. split.
      * by apply in_order_snoc.
      * apply Forall_app. split; [assumption|]. repeat constructor. simpl. lia.
    + split.
      * by apply in_order_snoc.
      * apply Forall_app. split; [assumption|]. repeat constructor. simpl. lia.
  - intros [= <-]. split; [by repeat constructor|].
    repeat constructor. simpl. lia.
Qed.

Lemma spec_plan_in_order (registers : list Register)
    (acc requests : list Request) (bound : Z) :
  in_order acc ->
  Forall (fun r => req_address r + req_quantity r <= bound) acc ->
  ascending_from bound registers ->
  foldM spec_add_register acc registers = Return requests ->
  in_order requests.
Proof.
  revert acc bound.
  induction registers as [|register registers IH]; intros acc bound Hin Hends Hasc.
  - by intros [= <-].
  - destruct Hasc as [Hbound Hasc]. cbn [foldM].
    destruct (spec_add_register acc register) as [acc'|err] eqn:Hstep;
      simpl; [|discriminate].
    destruct (spec_add_register_in_order _ _ _ _ Hin Hends Hbound Hstep)
      as [Hin' Hends'].
    by apply (IH acc' _ Hin' Hends' Hasc).
Qed.

Lemma in_order_apart (requests : list Request) :
  Forall well_formed requests -> in_order requests -> apart requests.
Proof.
  intros Hwf Hin i j r r' o o' e e' Hi Hj Hij He He'.
  pose proof (in_order_lookup _ _ _ _ _ Hin Hi Hj Hij) as Hrr.
  rewrite Forall_forall in Hwf.
  pose proof (chained_within _ _ _ (Hwf r (list_elem_of_lookup_2 _ _ _ Hi))) as Hr.
  pose proof (chained_within _ _ _ (Hwf r' (list_elem_of_lookup_2 _ _ _ Hj))) as Hr'.
  rewrite Forall_forall in Hr, Hr'.
  destruct (Hr _ He) as (_ & _ & Hend). destruct (Hr' _ He') as (_ & Hstart & _).
  simpl in Hend, Hstart. lia.
Qed.


(** C3, witness: three registers of one word each, of three formats. *)
Lemma C3_planner_follows_spec_witness :
  summary <$> Poller.plan [register_at 0 "Signed" []; register_at 1 "Unsigned" [];
                           register_at 2 "Binary" []] = Return [(0, 3)] /\
  summary <$> Poller.plan [register_at 0 "Signed" []; register_at 1 "Unsigned" [];
                           register_at 3 "Binary" []] = Return [(0, 2); (3, 1)].
Proof.
  destruct C3_planner_follows_spec as (_ & Hone & Htwo).
  split; [apply Hone | apply Htwo]; try reflexivity; repeat constructor.
Defined.



(** ** The polling loop *)

Lemma msleep_spec (ms : Z) (w : world) :
  0 <= ms ->
  msleep ms w =
    ({| dicts := dicts w; clock := clock w + ms; incoming := incoming w;
        trace := trace w ++ [Msleep ms] |}, Return tt).
Proof. intros Hms. unfold msleep. destruct (ms <? 0) eqn:Hneg; [lia|reflexivity]. Qed.

Lemma Worker_run_spec (self : Worker) (w : world) :
  0 <= sleep self ->
  Worker.run self w =
    ({| dicts := dicts w;
        clock := clock w + sleep_for (sleep self) (_exec_time self);
        incoming := incoming w;
        trace := trace w ++ [Msleep (sleep_for (sleep self) (_exec_time self))] |},
     Return (with_exec_time self 0)).
Proof.
  intros HT. unfold Worker.run, sleep_for.
  destruct (_exec_time self >? sleep self) eqn:HE; simpl;
    unfold mbind, io_bind; rewrite msleep_spec by lia; simpl.
  - by rewrite Z.sub_0_r.
  - reflexivity.
Qed.

Lemma sleeps_snoc (t : list event) (e : event) :
  sleeps (t ++ [e]) = sleeps t ++ match e with Msleep ms => [ms] | _ => [] end.
Proof. unfold sleeps. rewrite omap_app. simpl. by destruct e. Qed.

Section Loop.
Context `{LibM}.

(** C2 (amended): in every cycle whose poll returns, with a measured time E
    and an interval T >= 0, the loop sleeps T - E when E <= T, so that the
    next cycle starts T after this one, and it sleeps the whole interval T
    when E > T, so that the next cycle starts E + T after this one. *)
Theorem C2_sleep_by_guard (self : Worker) (p : Poller) (w w1 : world)
    (registers : option (list Row)) :
  0 <= sleep self -> _poller self = Some p ->
  Poller.registers p w = (w1, Return registers) ->
  exists w2 : world,
    PollingWorker.cycle self w = (w2, Return (with_exec_time self 0, polling self w2)) /\
    sleeps (trace w2) =
      sleeps (trace w1) ++ [sleep_for (sleep self) (clock w1 - clock w)] /\
    clock w2 - clock w =
      if clock w1 - clock w >? sleep self
      then (clock w1 - clock w) + sleep self else sleep self.
Proof.
  intros HT Hp Hregs.
  unfold PollingWorker.cycle, PollingWorker.poller. rewrite Hp.
  unfold mbind, io_bind, now, ask, emit; simpl. rewrite Hregs; simpl.
  rewrite Worker_run_spec by assumption. simpl.
  eexists. split; [reflexivity|]. simpl. split.
  - by rewrite !sleeps_snoc, app_nil_r.
  - unfold sleep_for. destruct (_ >? _); lia.
Qed.
End Loop.

(** C2, witness: an interval of 1000 ms and a poll that takes 200 ms. *)
Lemma C2_sleep_by_guard_witness :
  exists w2 : world,
    @PollingWorker.cycle no_pow (worker_of (connected one_batch) 1000 0)
        (world_with [(Response [7], 200)])
      = (w2, Return (with_exec_time (worker_of (connected one_batch) 1000 0) 0, true)) /\
    sleeps (trace w2) = [] ++ [sleep_for 1000 (200 - 0)] /\
    clock w2 - 0 = if 200 - 0 >? 1000 then (200 - 0) + 1000 else 1000.
Proof.
  apply (@C2_sleep_by_guard no_pow (worker_of (connected one_batch) 1000 0)
           (connected one_batch) (world_with [(Response [7], 200)])
           (@Poller.registers no_pow (connected one_batch)
              (world_with [(Response [7], 200)])).1
           (Some [{| row_device := "device 1"; row_id := "20f9f032";
                     row_address := 0; row_name := "Name 1"; row_code := "Code1";
                     row_format := "Signed"; row_value := PyStr "7.00";
                     row_response := Some [7]; row_timestamp := 200;
                     row_changed := true; row_fn := 3; row_guid := "d3d8ab61" |}]));
    [simpl; lia | reflexivity | vm_compute; reflexivity].
Defined.

(** C2, counterexample: with an interval of 1000 ms, a worker whose cycle
    took 1200 ms sleeps 1000 ms, where max(0, 1000 - 1200) is 0; in a whole
    cycle, a poll of 1200 ms is followed by a sleep of 1000 ms and the next
    cycle starts at 2200 ms. *)
Lemma C2_counterexample :
  sleeps (trace (Worker.run (worker_of (connected []) 1000 1200) (world_with [])).1)
    = [1000] /\
  Z.max 0 (1000 - 1200) = 0 /\
  (let w2 := (@PollingWorker.cycle no_pow (worker_of (connected one_batch) 1000 0)
                (world_with [(Response [7], 1200)])).1 in
   (sleeps (trace w2), clock w2)) = ([1000], 2200).
Proof. vm_compute. repeat split. Qed.

(** ** What a computation does to the dictionaries *)

Lemma keeps_mret {A : Type} (a : A) : keeps_dicts (mret a : io A).
Proof. by intros w. Qed.

Lemma keeps_raise {A : Type} (e : exn) : keeps_dicts (raise e : io A).
Proof. by intros w. Qed.

Lemma keeps_lift {A : Type} (m : outcome A) : keeps_dicts (lift m).
Proof. by intros w. Qed.

Lemma keeps_ask {A : Type} (f : world -> A) : keeps_dicts (ask f).
Proof. by intros w. Qed.

Lemma keeps_emit (e : event) : keeps_dicts (emit e).
Proof. by intros w. Qed.

Lemma keeps_transact (op : wire_op) : keeps_dicts (transact op).
Proof. intros w. unfold transact. by destruct (incoming w) as [|[r d] rest]. Qed.

Lemma keeps_msleep (ms : Z) : keeps_dicts (msleep ms).
Proof. intros w. unfold msleep. by destruct (ms <? 0). Qed.

Lemma keeps_bind {A B : Type} (m : io A) (k : A -> io B) :
  keeps_dicts m -> (forall a, keeps_dicts (k a)) -> keeps_dicts (m ≫= k).
Proof.
  intros Hm Hk w. unfold mbind, io_bind. specialize (Hm w).
  destruct (m w) as [w' [a|e]]; simpl in *; [|assumption].
  by rewrite Hk.
Qed.

Create HintDb keeps.

#[local] Hint Resolve keeps_mret keeps_raise keeps_lift keeps_ask keeps_emit
  keeps_transact keeps_msleep : keeps.

Ltac keeps :=
  repeat first
    [ progress intros
    | apply keeps_bind
    | solve [eauto with keeps]
    | match goal with
      | |- keeps_dicts (match ?x with _ => _ end) => destruct x
      | |- keeps_dicts (if ?b then _ else _) => destruct b
      | |- keeps_dicts (let '(_, _) := ?x in _) => destruct x
      end ].

Lemma keeps_each {A B : Type} (f : A -> B -> io A) (a : A) (l : list B) :
  (forall a b, keeps_dicts (f a b)) -> keeps_dicts (Poller.each f a l).
Proof.
  intros Hf. revert a. induction l as [|b l IH]; intros a; simpl; keeps.
Qed.

Lemma keeps_store_get (l : loc) (k : string) : keeps_dicts (store_get l k).
Proof. unfold store_get. keeps. Qed.

#[local] Hint Resolve keeps_store_get keeps_each : keeps.

Section PollerFrame.
Context `{LibM}.

Lemma keeps_get (self : Poller) (name : string) : keeps_dicts (Poller._get self name).
Proof. unfold Poller._get. keeps. Qed.

Lemma keeps_scan_rate (self : Poller) : keeps_dicts (Poller.scan_rate self).
Proof. unfold Poller.scan_rate. keeps. Qed.

Hint Resolve keeps_get keeps_scan_rate : keeps.

Lemma keeps_slave_id (self : Poller) : keeps_dicts (Poller.slave_id self).
Proof. unfold Poller.slave_id. keeps. Qed.

Hint Resolve keeps_slave_id : keeps.

Lemma keeps_poll (self : Poller) (func reg_address reg_qnty : Z) :
  keeps_dicts (Poller._poll self func reg_address reg_qnty).
Proof. unfold Poller._poll. keeps. Qed.

Lemma keeps_writeSingleCoil (self : Poller) (address : Z) (value : bool) :
  keeps_dicts (Poller.writeSingleCoil self address value).
Proof. unfold Poller.writeSingleCoil. keeps. Qed.

Lemma keeps_writeRegisters (self : Poller) (address : Z) (value : list Z) :
  keeps_dicts (Poller.writeRegisters self address value).
Proof. unfold Poller.writeRegisters. keeps. Qed.

Lemma keeps_get_connection (self : Poller) : keeps_dicts (Poller._get_connection self).
Proof. unfold Poller._get_connection. keeps. Qed.

Hint Resolve keeps_poll keeps_get_connection : keeps.

Lemma keeps_connect (self : Poller) : keeps_dicts (Poller.connect self).
Proof. unfold Poller.connect. keeps. Qed.

Lemma keeps_read_entry (fn : Z) (response : option (list Z))
    (st : Poller.cycle_state) (kv : Z * MapEntry) :
  keeps_dicts (Poller.read_entry fn response st kv).
Proof. unfold Poller.read_entry, now. destruct st as [[? ?] ?], kv. keeps. Qed.

Hint Resolve keeps_read_entry : keeps.

Lemma keeps_read_request (self : Poller) (fn : Z) (st : Poller.cycle_state)
    (request : Request) :
  keeps_dicts (Poller.read_request self fn st request).
Proof. unfold Poller.read_request. destruct st as [[? ?] ?]. keeps. Qed.

Hint Resolve keeps_read_request : keeps.

Lemma keeps_read_function (self : Poller) (st : Poller.cycle_state)
    (kv : Z * list Request) :
  keeps_dicts (Poller.read_function self st kv).
Proof. unfold Poller.read_function. destruct kv. keeps. Qed.

Hint Resolve keeps_read_function : keeps.

Lemma keeps_registers_body (self : Poller) : keeps_dicts (Poller.registers_body self).
Proof. unfold Poller.registers_body. keeps. Qed.

Lemma keeps_registers (self : Poller) : keeps_dicts (Poller.registers self).
Proof.
  intros w. unfold Poller.registers.
  pose proof (keeps_registers_body self w) as Hb.
  destruct (Poller.registers_body self w) as [w' [rows|e]]; [exact Hb|].
  by destruct e.
Qed.
End PollerFrame.

(** ** The settings dictionary *)

Lemma only_scan_rate_refl (l : loc) (w : world) : only_scan_rate l w w.
Proof. by split. Qed.

Lemma only_scan_rate_trans (l : loc) (w1 w2 w3 : world) :
  only_scan_rate l w1 w2 -> only_scan_rate l w2 w3 -> only_scan_rate l w1 w3.
Proof. intros [A1 B1] [A2 B2]. split; congruence. Qed.

Lemma only_scan_rate_keeps {A : Type} (m : io A) (l : loc) (w : world) :
  keeps_dicts m -> only_scan_rate l w (m w).1.
Proof. intros Hm. unfold only_scan_rate, settings_at. by rewrite Hm. Qed.

Lemma store_set_scan_rate (l : loc) (v : pyval) (w : world) :
  only_scan_rate l w (store_set l "scan_rate" v w).1 /\
  settings_at l (store_set l "scan_rate" v w).1 !! "scan_rate"%string = Some v.
Proof.
  unfold only_scan_rate, settings_at, store_set; simpl.
  rewrite lookup_insert_eq; simpl.
  rewrite delete_insert_eq, lookup_insert_eq. repeat split.
  apply map_eq. intros l'. destruct (decide (l = l')) as [->|Hne].
  - by rewrite !lookup_delete_eq.
  - by rewrite !lookup_delete_ne, lookup_insert_ne.
Qed.

Lemma registers_setter_loop_settings (data : list (Z * list Register)) (self : Poller) :
  _settings (Poller.registers_setter_loop self data).1 = _settings self.
Proof.
  revert self. induction data as [|[fn registers] data IH]; intros self; simpl.
  - reflexivity.
  - destruct (Poller.plan registers) as [requests|e]; simpl; [|reflexivity].
    by rewrite IH.
Qed.

Lemma registers_setter_settings (data : list (Z * list Register)) (self self' : Poller) :
  Poller.registers_setter self data = Return self' -> _settings self' = _settings self.
Proof.
  unfold Poller.registers_setter.
  pose proof (registers_setter_loop_settings data self) as Hl.
  destruct (Poller.registers_setter_loop self data) as [p [[]|e]]; simpl in *;
    [|discriminate].
  by intros [= <-].
Qed.

Section Frame.
Context `{LibM}.

Lemma perform_only_scan_rate (c : call) (self : Poller) (w : world) :
  only_scan_rate (_settings self) w (perform c self w).1 /\
  forall self', (perform c self w).2 = Return self' -> _settings self' = _settings self.
Proof.
  assert (Hsame : forall (m : io unit),
    ((m ≫= fun _ => mret self : io Poller) w).1 = (m w).1 /\
    forall self', ((m ≫= fun _ => mret self : io Poller) w).2 = Return self' ->
                  self' = self).
  { intros m. unfold mbind, io_bind. destruct (m w) as [w' [[]|e]]; simpl; split;
      try reflexivity; intros self'; [by intros [= <-] | discriminate]. }
  assert (Hany : forall (A : Type) (m : io A),
    keeps_dicts m ->
    only_scan_rate (_settings self) w ((m ≫= fun _ => mret self : io Poller) w).1 /\
    forall self', ((m ≫= fun _ => mret self : io Poller) w).2 = Return self' ->
                  _settings self' = _settings self).
  { intros A m Hm. split.
    - apply only_scan_rate_keeps. apply keeps_bind; [assumption|]. intros; apply keeps_mret.
    - unfold mbind, io_bind. destruct (m w) as [w' [a|e]]; simpl; intros self';
        [by intros [= <-] | discriminate]. }
  destruct c; cbv [perform].
  - apply Hany, keeps_scan_rate.
  - destruct (Hsame (Poller.scan_rate_setter self value)) as [-> Hs]. split.
    + apply store_set_scan_rate.
    + intros self' Hr. by rewrite (Hs _ Hr).
  - apply Hany, keeps_get.
  - apply Hany, keeps_registers.
  - split; [apply only_scan_rate_refl|]. unfold lift; simpl.
    intros self'. apply registers_setter_settings.
  - apply Hany, keeps_lift.
  - apply Hany, keeps_lift.
  - split; [apply only_scan_rate_keeps, keeps_connect|].
    unfold Poller.connect, mbind, io_bind.
    destruct (Poller._get_connection self w) as [w' [[c|]|e]]; simpl;
      intros self'; try discriminate. by intros [= <-].
  - apply Hany, keeps_poll.
  - apply Hany, keeps_writeSingleCoil.
  - apply Hany, keeps_writeRegisters.
  - apply Hany. unfold Poller.disconnect. apply keeps_mret.
Qed.

Lemma interrupted_settings (c : call) (self : Poller) :
  _settings (interrupted c self) = _settings self.
Proof.
  destruct c; try reflexivity. apply registers_setter_loop_settings.
Qed.

Lemma perform_all_only_scan_rate (cs : list call) (self : Poller) (w : world) :
  only_scan_rate (_settings self) w (perform_all cs self w).1.
Proof.
  revert self w. induction cs as [|c cs IH]; intros self w; simpl.
  - apply only_scan_rate_refl.
  - destruct (perform_only_scan_rate c self w) as [Hw Hs].
    destruct (perform c self w) as [w' [self'|e]]; simpl in *.
    + eapply only_scan_rate_trans; [exact Hw|].
      rewrite <- (Hs self' eq_refl). apply IH.
    + eapply only_scan_rate_trans; [exact Hw|].
      rewrite <- (interrupted_settings c self). apply IH.
Qed.

(** C9 (amended): constructing a Poller on a settings dictionary sets its
    key [scan_rate] to 1000, and neither the construction nor any sequence
    of calls on the Poller changes any other key of that dictionary, or any
    other dictionary. *)
Theorem C9_only_scan_rate_changes (settings : loc) (w : world) (cs : list call) :
  exists (self : Poller) (w1 : world),
    Poller.__init__ settings w = (w1, Return self) /\
    settings_at settings w1 !! "scan_rate"%string = Some (PyInt 1000) /\
    delete "scan_rate"%string (settings_at settings (perform_all cs self w1).1)
      = delete "scan_rate"%string (settings_at settings w) /\
    delete settings (dicts (perform_all cs self w1).1) = delete settings (dicts w).
Proof.
  destruct (store_set_scan_rate settings (PyInt 1000) w) as [Hinit Hrate].
  eexists _, _. split; [reflexivity|]. split; [exact Hrate|].
  exact (only_scan_rate_trans _ _ _ _ Hinit
           (perform_all_only_scan_rate cs
              {| _settings := settings; _connection := None; _requests := [] |} _)).
Qed.
End Frame.

(** C9, counterexample: the caller's dictionary has no key [scan_rate]
    before the Poller is constructed on it and maps it to 1000 afterwards;
    the setter then writes the caller's dictionary again. *)
Lemma C9_counterexample :
  settings_at 1%positive (world_with []) !! "scan_rate"%string = None /\
  settings_at 1%positive (Poller.__init__ 1%positive (world_with [])).1
    !! "scan_rate"%string = Some (PyInt 1000) /\
  settings_at 1%positive
    (Poller.scan_rate_setter (connected []) (PyInt 250) (world_with [])).1
    !! "scan_rate"%string = Some (PyInt 250).
Proof. vm_compute. repeat split. Qed.

(** ** Strings and the adjustment pipeline *)

Section Strings.
Context `{LibM}.

(** C10: a decoded value that is a string comes out of the adjustment
    pipeline unchanged whatever the adjustments are; so do the values of
    the Hex - ASCII and Binary formats through [decode_value]. *)
Theorem C10_strings_pass_through :
  (forall (s : string) (adjustments : list adjustment),
      Poller._adjust (PyStr s) adjustments = Return (PyStr s)) /\
  (forall (v : Z) (raw : list Z) (adjustments : list adjustment),
      Poller.decode_value (v :: raw) "Hex - ASCII" adjustments
        = Decoder.hex_ascii (v :: raw) /\
      Poller.decode_value (v :: raw) "Binary" adjustments
        = Decoder.binary (v :: raw)).
Proof. split; [reflexivity|]. intros v raw adjustments. split; reflexivity. Qed.
End Strings.

(** ** The write path *)

Lemma signed_bounds : float_of_int (-32768) = Return (-32768)%float /\
                      float_of_int 32767 = Return 32767%float.
Proof. split; reflexivity. Qed.

Lemma unsigned_bounds : float_of_int 0 = Return 0%float /\
                        float_of_int 65535 = Return 65535%float.
Proof. split; reflexivity. Qed.

Lemma signed_refuses_float (x : float) :
  ((-32768 <=? x) && (x <=? 32767))%float = false ->
  Encoder.signed (PyFloat x) = Return None.
Proof.
  intros Hx. unfold Encoder.signed, in_range.
  destruct signed_bounds as [-> ->]. simpl. by rewrite Hx.
Qed.

Lemma unsigned_refuses_float (x : float) :
  ((0 <=? x) && (x <=? 65535))%float = false ->
  Encoder.unsigned (PyFloat x) = Return None.
Proof.
  intros Hx. unfold Encoder.unsigned, in_range.
  destruct unsigned_bounds as [-> ->]. simpl. by rewrite Hx.
Qed.

Lemma signed_refuses_int (n : Z) :
  n < -32768 \/ 32767 < n -> Encoder.signed (PyInt n) = Return None.
Proof.
  intros Hn. unfold Encoder.signed, in_range; simpl.
  destruct ((-32768 <=? n) && (n <=? 32767)) eqn:Hin; [lia|reflexivity].
Qed.

Lemma unsigned_refuses_int (n : Z) :
  n < 0 \/ 65535 < n -> Encoder.unsigned (PyInt n) = Return None.
Proof.
  intros Hn. unfold Encoder.unsigned, in_range; simpl.
  destruct ((0 <=? n) && (n <=? 65535)) eqn:Hin; [lia|reflexivity].
Qed.

Lemma not_string_format (data_format : string) :
  (data_format =? "Hex - ASCII")%string = false ->
  (data_format =? "Binary")%string = false ->
  data_format ∉ ["Hex - ASCII"; "Binary"]%string.
Proof.
  intros Hhex Hbin Hin.
  apply elem_of_cons in Hin as [->|Hin]; [discriminate|].
  apply elem_of_cons in Hin as [->|Hin]; [discriminate|].
  by apply elem_of_nil in Hin.
Qed.

Section Write.
Context `{LibM}.

(** A value that [float] refuses is refused by [encode_value] for every
    format but the two string formats. *)
Lemma encode_value_not_numeric (value data_format : string)
    (adjustments : list adjustment)
    (encoder : pyval -> outcome (option (list Z))) :
  dict_get Poller.encoders data_format = Some encoder ->
  data_format ∉ ["Hex - ASCII"; "Binary"]%string ->
  float_of_str value = None ->
  Poller.encode_value (PyStr value) data_format adjustments = Return None.
Proof.
  intros Henc Hfmt Hval. unfold Poller.encode_value. rewrite Henc.
  rewrite bool_decide_eq_false_2 by assumption. simpl.
  unfold Poller.isNumerical, py_float. by rewrite Hval.
Qed.

Lemma encode_value_numeric (value data_format : string)
    (adjustments : list adjustment)
    (encoder : pyval -> outcome (option (list Z))) (x : float) (v : numeric) :
  dict_get Poller.encoders data_format = Some encoder ->
  data_format ∉ ["Hex - ASCII"; "Binary"]%string ->
  float_of_str value = Some x ->
  Poller._adjust_reverse x adjustments = Return v ->
  Poller.encode_value (PyStr value) data_format adjustments = encoder (num_value v).
Proof.
  intros Henc Hfmt Hval Hrev. unfold Poller.encode_value. rewrite Henc.
  rewrite bool_decide_eq_false_2 by assumption. simpl.
  unfold Poller.isNumerical, py_float. rewrite Hval. simpl. by rewrite Hrev.
Qed.

(** No registers, no wire transaction. *)
Lemma writeRegisters_refused (self : Worker) (p : Poller) (address : Z)
    (data_format : string) (adj : list adjustment) (value : string) (w : world) :
  _poller self = Some p ->
  Poller.encode_value (PyStr value) data_format adj = Return None ->
  PollingWorker.writeRegisters self address data_format adj value w = (w, Return tt).
Proof.
  intros Hp Henc. unfold PollingWorker.writeRegisters, PollingWorker.poller.
  rewrite Hp, Henc. reflexivity.
Qed.

Lemma writeRegisters_raises (self : Worker) (p : Poller) (address : Z)
    (data_format : string) (adj : list adjustment) (value : string) (w : world)
    (e : exn) :
  _poller self = Some p ->
  Poller.encode_value (PyStr value) data_format adj = Raise e ->
  PollingWorker.writeRegisters self address data_format adj value w = (w, Raise e).
Proof.
  intros Hp Henc. unfold PollingWorker.writeRegisters, PollingWorker.poller.
  rewrite Hp, Henc. reflexivity.
Qed.

End Write.



(** ** The poll cycle *)

Section Cycle.
Context `{LibM}.

Lemma each_length {B : Type} (f : Poller.cycle_state -> B -> io Poller.cycle_state)
    (size : B -> nat) (l : list B) :
  (forall st b w w' st', f st b w = (w', Return st') ->
                         length (rows st') = (length (rows st) + size b)%nat) ->
  forall st w w' st',
    Poller.each f st l w = (w', Return st') ->
    length (rows st') = (length (rows st) + sum_list (map size l))%nat.
Proof.
  intros Hf. induction l as [|b l IH]; intros st w w' st'; simpl.
  - intros [= <- <-]. lia.
  - unfold mbind, io_bind. destruct (f st b w) as [w1 [st1|e]] eqn:Hstep;
      [|discriminate].
    intros Hrest. rewrite (IH _ _ _ _ Hrest), (Hf _ _ _ _ _ Hstep). lia.
Qed.

Lemma read_entry_length (fn : Z) (response : option (list Z))
    (st : Poller.cycle_state) (kv : Z * MapEntry) (w w' : world)
    (st' : Poller.cycle_state) :
  Poller.read_entry fn response st kv w = (w', Return st') ->
  length (rows st') = (length (rows st) + 1)%nat.
Proof.
  unfold Poller.read_entry. destruct st as [[result br] bc], kv as [pos register].
  unfold mbind, io_bind, lift, now, ask; simpl.
  destruct (item reg_len _) as [len|e]; simpl; [|discriminate].
  destruct (Poller.decode_value _ _ _) as [v|e]; simpl; [|discriminate].
  intros [= <- <-]. unfold rows; simpl. by rewrite length_app.
Qed.

Lemma read_request_length (self : Poller) (fn : Z) (st : Poller.cycle_state)
    (request : Request) (w w' : world) (st' : Poller.cycle_state) :
  Poller.read_request self fn st request w = (w', Return st') ->
  length (rows st') = (length (rows st) + length (req_map request))%nat.
Proof.
  unfold Poller.read_request. destruct st as [[result br] bc].
  unfold mbind, io_bind.
  destruct (Poller._poll _ _ _ _ w) as [w1 [response|e]]; [|discriminate].
  intros Hmap.
  rewrite (each_length _ (fun _ => 1%nat) _ (read_entry_length fn response)
             _ _ _ _ Hmap).
  unfold rows; simpl. f_equal. clear. induction (req_map request); simpl; lia.
Qed.

Lemma read_function_length (self : Poller) (st : Poller.cycle_state)
    (kv : Z * list Request) (w w' : world) (st' : Poller.cycle_state) :
  Poller.read_function self st kv w = (w', Return st') ->
  length (rows st') =
    (length (rows st) + sum_list (map (fun r => length (req_map r)) kv.2))%nat.
Proof.
  unfold Poller.read_function. destruct kv as [fn requests]. simpl.
  apply each_length. apply read_request_length.
Qed.

(** The getter never returns a short list: when it returns rows at all,
    there is one for every configured register. *)
Lemma registers_complete (self : Poller) (w w' : world) (result : list Row) :
  Poller.registers self w = (w', Return (Some result)) ->
  length result = register_count self.
Proof.
  unfold Poller.registers, Poller.registers_body, mbind, io_bind.
  destruct (Poller.each _ _ _ w) as [w1 [[[rs br] bc]|e]] eqn:Hloop; simpl.
  - pose proof (each_length _ _ _ (read_function_length self) _ _ _ _ Hloop) as Hlen.
    unfold rows in Hlen; simpl in Hlen.
    destruct br, bc; simpl; try discriminate. by intros [= <- <-].
  - by destruct e.
Qed.
End Cycle.

(** C1: two batches, of which the first is read and the second is not (the
    connection fails, the device answers with an error, or the response is
    empty): the getter raises [ValueError] instead of returning the row of
    the first batch, and the worker's loop ends with that exception after two
    wire reads, with no result emitted and no further cycle. *)
Theorem C1_failed_batch_raises :
  Forall (fun failure =>
    (@Poller.registers no_pow (connected two_batches) (second_fails failure)).2
      = Raise (ValueError "Error@Poller.decode_value." "raw_value [] incorrect.") /\
    (let '(w, r) := @PollingWorker.run no_pow 3
                      (worker_of (connected two_batches) 1000 0)
                      (second_fails failure) in
     (r, results (trace w), sleeps (trace w), wire_ops (trace w)))
      = (Raise (ValueError "Error@Poller.decode_value." "raw_value [] incorrect."),
         [], [], [Read 3 0 1 (PyInt 1); Read 3 5 1 (PyInt 1)]))
    [Fails ConnectionException; ErrorResponse; Response []].
Proof. repeat constructor. Qed.

(** ** Two decimal digits *)

Lemma is_digit_digit_char (d : Z) : 0 <= d <= 9 -> is_digit (digit_char d) = true.
Proof.
  intros Hd.
  assert (d = 0 \/ d = 1 \/ d = 2 \/ d = 3 \/ d = 4 \/ d = 5 \/ d = 6 \/ d = 7
          \/ d = 8 \/ d = 9) as Hcases by lia.
  repeat (destruct Hcases as [->|Hcases]; [reflexivity|]). by subst.
Qed.

Lemma digits_fuel_range (fuel : nat) (base n : Z) (acc : list Z) :
  1 < base -> 0 <= n ->
  Forall (fun d => 0 <= d < base) acc ->
  Forall (fun d => 0 <= d < base) (digits_fuel fuel base n acc).
Proof.
  intros Hbase. revert n acc. induction fuel as [|fuel IH]; intros n acc Hn Hacc;
    simpl; [assumption|].
  destruct (n <? base) eqn:Hlt.
  - constructor; [lia | assumption].
  - apply IH.
    + apply Z.div_pos; lia.
    + constructor; [|assumption]. apply Z.mod_pos_bound. lia.
Qed.

Lemma numeral_10_digits (n : Z) :
  0 <= n -> Forall (fun c => is_digit c = true) (numeral 10 n).
Proof.
  intros Hn. unfold numeral, digits. apply Forall_fmap.
  eapply Forall_impl; [apply digits_fuel_range; [lia | assumption | constructor]|].
  simpl. intros d Hd. apply is_digit_digit_char. lia.
Qed.

Lemma digit_not_point (c : ascii) : is_digit c = true -> negb (ord c =? 46) = true.
Proof. unfold is_digit. intros Hc. destruct (ord c =? 46) eqn:E; [lia|reflexivity]. Qed.

Lemma round_half_even_nonneg (a e : Z) : 0 <= a -> 0 <= round_half_even a e.
Proof.
  intros Ha. unfold round_half_even. destruct (0 <=? e) eqn:He.
  - apply Z.mul_nonneg_nonneg; [assumption|]. apply Z.pow_nonneg. lia.
  - assert (0 < 2 ^ (- e)) by (apply Z.pow_pos_nonneg; lia).
    assert (0 <= a / 2 ^ (- e)) by (apply Z.div_pos; lia).
    destruct (_ ?= _); [destruct (Z.even _)| |]; lia.
Qed.

Lemma fixed_2_two_decimals (negative : bool) (n : Z) :
  0 <= n -> two_decimal_digits (fixed_2 negative n).
Proof.
  intros Hn. unfold fixed_2, two_decimals.
  exists ((if negative then ["-"%char] else []) ++ numeral 10 (n / 100)),
    (digit_char (n mod 100 / 10)), (digit_char (n mod 10)).
  split; [by rewrite <- app_assoc|].
  split; [|split].
  - apply is_digit_digit_char.
    pose proof (Z.mod_pos_bound n 100 ltac:(lia)).
    split; [apply Z.div_pos; lia|].
    apply Z.lt_succ_r. apply Z.div_lt_upper_bound; lia.
  - apply is_digit_digit_char. pose proof (Z.mod_pos_bound n 10 ltac:(lia)). lia.
  - rewrite forallb_app. apply andb_true_intro. split; [by destruct negative|].
    apply forallb_forall. intros c Hc. apply digit_not_point.
    pose proof (numeral_10_digits (n / 100) ltac:(apply Z.div_pos; lia)) as Hd.
    rewrite List.Forall_forall in Hd. by apply Hd.
Qed.

Lemma Prim2SF_finite (x : float) :
  is_finite x = true ->
  match Prim2SF x with
  | S754_zero _ | S754_finite _ _ _ => True
  | _ => False
  end.
Proof.
  unfold is_finite, Prim2SF.
  destruct (is_nan x); [discriminate|]. simpl.
  destruct (is_zero x); [done|].
  destruct (is_infinity x); [discriminate|]. intros _.
  destruct (Z.frexp x) as [r e].
  destruct (shr_fexp _ _ _ _ _) as [s e']. by destruct (shr_m s).
Qed.

Lemma format_2f_two_decimals (x : float) :
  is_finite x = true -> two_decimal_digits (format_2f x).
Proof.
  intros Hx. apply Prim2SF_finite in Hx. unfold format_2f.
  destruct (Prim2SF x) as [s|s| |s m e]; try contradiction.
  - by apply fixed_2_two_decimals.
  - apply fixed_2_two_decimals, round_half_even_nonneg. lia.
Qed.

(** ** The forward pipeline *)

Lemma foldM_app {A B : Type} (f : A -> B -> outcome A) (a : A) (l1 l2 : list B) :
  foldM f a (l1 ++ l2) = foldM f a l1 ≫= fun a' => foldM f a' l2.
Proof.
  revert a. induction l1 as [|b l1 IH]; intros a; simpl; [reflexivity|].
  destruct (f a b) as [a'|e]; simpl; [apply IH | reflexivity].
Qed.

Section Forward.
Context `{LibM}.

Lemma adjust_items_app (x : numeric) (a b : adjustment) :
  Poller.adjust_items x (a ++ b) =
    Poller.adjust_items x a ≫= fun r =>
      match r with
      | inl x' => Poller.adjust_items x' b
      | inr label => Return (inr label)
      end.
Proof.
  revert x. induction a as [|[operator operand] a IH]; intros x; simpl.
  - reflexivity.
  - destruct (Poller.adjust_step x operator operand) as [[x'|label]|e]; simpl;
      [apply IH | reflexivity | reflexivity].
Qed.

(** The two nested loops walk the items of all adjustments in order. *)
Lemma adjust_loop_concat (x : numeric) (adjustments : list adjustment) :
  Poller.adjust_loop x adjustments = Poller.adjust_items x (concat adjustments).
Proof.
  revert x. induction adjustments as [|a adjustments IH]; intros x; simpl.
  - reflexivity.
  - rewrite adjust_items_app.
    destruct (Poller.adjust_items x a) as [[x'|label]|e]; simpl;
      [apply IH | reflexivity | reflexivity].
Qed.

Lemma adjust_number (v : pyval) (x : float) (adjustments : list adjustment) :
  is_number v = true -> py_float v = Return x ->
  Poller._adjust v adjustments =
    Poller.adjust_items (Real x) (concat adjustments) ≫= fun r =>
      match r with
      | inl x' => Return (PyStr (format_num x'))
      | inr label => Return (PyStr label)
      end.
Proof.
  intros Hv Hx. unfold Poller._adjust.
  destruct v; try discriminate; rewrite Hx; simpl; by rewrite adjust_loop_concat.
Qed.

Lemma zero_not_infinity (x : float) : is_zero x = true -> is_infinity x = false.
Proof.
  unfold is_zero, is_infinity.
  rewrite !FloatAxioms.eqb_spec, FloatAxioms.abs_spec.
  change (Prim2SF 0) with (S754_zero false).
  change (Prim2SF infinity) with (S754_infinity false).
  by destruct (Prim2SF x) as [[]|[]| |[] m e].
Qed.

(** A float that is not finite is shown without digits. *)
Lemma format_2f_not_finite (x : float) :
  is_finite x = false -> format_2f x ∈ ["inf"; "-inf"; "nan"]%string.
Proof.
  unfold is_finite, format_2f, Prim2SF.
  destruct (is_nan x); simpl.
  { intros _. do 2 apply list_elem_of_further. apply list_elem_of_here. }
  destruct (is_zero x) eqn:Hz.
  { by rewrite (zero_not_infinity x Hz). }
  destruct (is_infinity x); [intros _|discriminate].
  destruct (get_sign x).
  - apply list_elem_of_further, list_elem_of_here.
  - apply list_elem_of_here.
Qed.

(** An arithmetic operator is no lookup key, and the step of the code is
    the operation of the specification. *)
Lemma adjust_step_arith (operator operand : string) (v : float) :
  operator ∈ arithmetic ->
  Poller.adjust_step (Real v) operator operand
    = a ← py_float (PyStr operand); inl <$> arith operator v a.
Proof.
  intros Hop. unfold arithmetic in Hop.
  repeat (apply elem_of_cons in Hop as [->|Hop]);
    [..|by apply elem_of_nil in Hop];
    unfold Poller.adjust_step, arith; simpl;
    by destruct (float_of_str operand).
Qed.

Lemma reverse_step_arith (operator operand : string) (v : float) :
  operator ∈ arithmetic ->
  Poller.reverse_step (Real v) operator operand
    = spec_reverse_step v operator operand.
Proof.
  intros Hop. unfold arithmetic in Hop.
  repeat (apply elem_of_cons in Hop as [->|Hop]);
    [..|by apply elem_of_nil in Hop];
    unfold Poller.reverse_step, spec_reverse_step, arith; simpl;
    by destruct (float_of_str operand) as [a|].
Qed.

(** C6 (amended): for a decoded number and adjustments on which no step
    raises, the pipeline walks the steps in order.  A lookup step, whose
    key passes [isdigit], reads its key with [int], which may raise, and
    returns its label at once when the running value equals the key, and
    leaves the running value as it is otherwise.  An arithmetic step
    replaces a running float by the binary64 sum, difference, product or
    quotient, or by the power, which may be complex; a running complex goes
    through complex arithmetic.  When no lookup returns, the result is the
    running value formatted with [.2f]: exactly two decimal digits for a
    finite float, "inf", "-inf" or "nan" for another float, and the two
    parts, each formatted so, with a final j for a complex.  So 10 with
    [+ 5] and [* 2] gives "30.00", and 1 and 0 with the lookups 0: No,
    1: Yes give "Yes" and "No". *)
Theorem C6_forward_walk :
  (forall (v : pyval) (x : float) (r : numeric) (adjustments : list adjustment)
          (before after : adjustment) (key label : string) (n : Z),
      is_number v = true -> py_float v = Return x ->
      concat adjustments = before ++ (key, label) :: after ->
      Poller.adjust_items (Real x) before = Return (inl r) ->
      isdigit key = true -> int_of_str key = Return n -> num_eq_int r n = true ->
      Poller._adjust v adjustments = Return (PyStr label)) /\
  (forall (r : numeric) (key label : string),
      isdigit key = true ->
      Poller.adjust_step r key label
        = n ← int_of_str key;
          Return (if num_eq_int r n then inr label else inl r)) /\
  (forall (r y : float) (operand : string),
      py_float (PyStr operand) = Return y ->
      Poller.adjust_step (Real r) "+" operand = Return (inl (Real (r + y)%float)) /\
      Poller.adjust_step (Real r) "-" operand = Return (inl (Real (r - y)%float)) /\
      Poller.adjust_step (Real r) "*" operand = Return (inl (Real (r * y)%float)) /\
      Poller.adjust_step (Real r) "/" operand = inl ∘ Real <$> float_div r y /\
      Poller.adjust_step (Real r) "^" operand = inl <$> float_pow r y) /\
  (forall (re im y : float) (operand : string),
      py_float (PyStr operand) = Return y ->
      Poller.adjust_step (Complex re im) "+" operand
        = inl <$> Poller.complex_result (complex_arith "+" (re, im) y) /\
      Poller.adjust_step (Complex re im) "-" operand
        = inl <$> Poller.complex_result (complex_arith "-" (re, im) y) /\
      Poller.adjust_step (Complex re im) "*" operand
        = inl <$> Poller.complex_result (complex_arith "*" (re, im) y) /\
      Poller.adjust_step (Complex re im) "/" operand
        = inl <$> Poller.complex_result (complex_arith "/" (re, im) y) /\
      Poller.adjust_step (Complex re im) "^" operand
        = inl <$> Poller.complex_result (complex_arith "**" (re, im) y)) /\
  (forall (v : pyval) (x : float) (r : numeric) (adjustments : list adjustment),
      is_number v = true -> py_float v = Return x ->
      Poller.adjust_items (Real x) (concat adjustments) = Return (inl r) ->
      Poller._adjust v adjustments = Return (PyStr (format_num r)) /\
      match r with
      | Real f =>
          format_num r = format_2f f /\
          (is_finite f = true -> two_decimal_digits (format_2f f)) /\
          (is_finite f = false -> format_2f f ∈ ["inf"; "-inf"; "nan"]%string)
      | Complex re im =>
          format_num r = text (chars (format_2f re) ++ signed_2f im ++ ["j"%char])
      end) /\
  Poller._adjust (PyInt 10) [[("+", "5")]; [("*", "2")]]%string = Return (PyStr "30.00") /\
  Poller._adjust (PyInt 1) [[("0", "No")]; [("1", "Yes")]]%string = Return (PyStr "Yes") /\
  Poller._adjust (PyInt 0) [[("0", "No")]; [("1", "Yes")]]%string = Return (PyStr "No").
Proof.
  split; [|split; [|split; [|split; [|split; [|repeat split]]]]].
  - intros v x r adjustments before after key label n Hv Hx Hcat Hwalk Hkey Hn Heq.
    rewrite (adjust_number v x) by assumption.
    rewrite Hcat, adjust_items_app, Hwalk. simpl.
    unfold Poller.adjust_step. by rewrite Hkey, Hn; simpl; rewrite Heq.
  - intros r key label Hkey. unfold Poller.adjust_step. rewrite Hkey.
    destruct (int_of_str key) as [n|e]; simpl; [|reflexivity].
    by destruct (num_eq_int r n).
  - intros r y operand Hy. unfold Poller.adjust_step.
    simpl in Hy |- *. rewrite Hy. simpl. repeat split.
    by destruct (float_div r y).
  - intros re im y operand Hy. unfold Poller.adjust_step.
    simpl in Hy |- *. rewrite Hy. simpl. repeat split.
  - intros v x r adjustments Hv Hx Hwalk.
    rewrite (adjust_number v x) by assumption. rewrite Hwalk. simpl.
    split; [reflexivity|]. destruct r as [f|re im]; [|reflexivity].
    split; [reflexivity|].
    split; [apply format_2f_two_decimals | apply format_2f_not_finite].
Qed.

(** ** The reverse pipeline *)

Lemma adjust_reverse_cons (y : float) (adjustments : list adjustment)
    (a : adjustment) :
  Poller._adjust_reverse y (a :: adjustments) =
    Poller._adjust_reverse y adjustments ≫= fun y' => Poller.reverse_items y' a.
Proof.
  unfold Poller._adjust_reverse. simpl. rewrite foldM_app. simpl.
  destruct (foldM _ _ _) as [y'|e]; simpl; [|reflexivity].
  by destruct (Poller.reverse_items y' a).
Qed.

Lemma undone_reverse (items : list (string * string)) (x : float) :
  undone x items ->
  exists y : float,
    Poller.adjust_loop (Real x) (steps items) = Return (inl (Real y)) /\
    Poller._adjust_reverse y (steps items) = Return (Real x).
Proof.
  revert x. induction items as [|[operator operand] items IH]; intros x; simpl.
  - intros _. by exists x.
  - intros (Hop & a & x1 & Ha & Hfwd & Hback & Hrest).
    destruct (IH x1 Hrest) as (y & Hloop & Hrev).
    exists y. rewrite (adjust_step_arith _ _ _ Hop). simpl.
    rewrite Ha. simpl. rewrite Hfwd. simpl. split; [exact Hloop|].
    rewrite adjust_reverse_cons, Hrev. simpl.
    unfold Poller.reverse_items. simpl.
    by rewrite (reverse_step_arith _ _ _ Hop), Hback.
Qed.

(** C5 (amended): the forward step of an arithmetic operator is the
    floating-point operation, and its reverse step is the inverse operation:
    [-] for [+], [+] for [-], [/] for [*], [*] for [/] and, for [^], the
    power with the reciprocal of the exponent.  When, walking forward from
    x through steps of one operator each, every step gives a float from
    which the inverse operation gives back exactly the float the step
    started from (no rounding loss, no exception), the reverse pipeline
    applied to the number the forward pipeline reached returns x; through
    the two-decimal string that the forward pipeline returns, the same
    holds when that string reads back as the number it renders. *)
Theorem C5_reverse_undoes (items : list (string * string)) (x : float) :
  undone x items ->
  (forall (operator operand : string) (v : float),
      operator ∈ arithmetic ->
      Poller.adjust_step (Real v) operator operand
        = (a ← py_float (PyStr operand); inl <$> arith operator v a) /\
      Poller.reverse_step (Real v) operator operand
        = (a ← py_float (PyStr operand);
           if (operator =? "^")%string
           then b ← float_div 1 a; arith "^" v b
           else arith (inverse_operator operator) v a)) /\
  exists y : float,
    Poller.adjust_loop (Real x) (steps items) = Return (inl (Real y)) /\
    Poller._adjust_reverse y (steps items) = Return (Real x) /\
    invert_number x (steps items) = Return (Real x) /\
    (float_of_str (format_2f y) = Some y ->
     invert_apply x (steps items) = Return (Real x)).
Proof.
  intros Hx. split.
  { intros operator operand v Hop.
    split; [by apply adjust_step_arith | by apply reverse_step_arith]. }
  destruct (undone_reverse items x Hx) as (y & Hloop & Hrev).
  exists y. split; [exact Hloop|]. split; [exact Hrev|]. split.
  - unfold invert_number. rewrite Hloop. exact Hrev.
  - intros Hread. unfold invert_apply, Poller._adjust. simpl.
    rewrite Hloop. simpl. rewrite Hread. simpl. exact Hrev.
Qed.
End Forward.

(** C5, witness: 10 with the steps [+ 5] and [* 2]. *)
Lemma C5_reverse_undoes_witness :
  @undone no_pow 10 [("+", "5"); ("*", "2")]%string /\
  exists y : float,
    @Poller.adjust_loop no_pow (Real 10) (steps [("+", "5"); ("*", "2")]%string)
      = Return (inl (Real y)) /\
    @Poller._adjust_reverse no_pow y (steps [("+", "5"); ("*", "2")]%string)
      = Return (Real 10) /\
    @invert_number no_pow 10 (steps [("+", "5"); ("*", "2")]%string)
      = Return (Real 10) /\
    (float_of_str (format_2f y) = Some y ->
     @invert_apply no_pow 10 (steps [("+", "5"); ("*", "2")]%string)
       = Return (Real 10)).
Proof.
  assert (Hx : @undone no_pow 10 [("+", "5"); ("*", "2")]%string).
  { split; [apply list_elem_of_here|].
    exists 5%float, 15%float. do 3 (split; [reflexivity|]).
    split; [do 2 apply list_elem_of_further; apply list_elem_of_here|].
    exists 2%float, 30%float. do 3 (split; [reflexivity|]). exact I. }
  split; [exact Hx|].
  exact (proj2 (@C5_reverse_undoes no_pow [("+", "5"); ("*", "2")]%string 10%float Hx)).
Defined.

(** C5, counterexample: 1 with the step [* 0] goes forward to "0.00" and the
    reverse pipeline raises [ZeroDivisionError]; 1 with the step [/ 3] goes
    forward to "0.33", which comes back as a number different from 1; 0.1
    with the step [+ 0.2] comes back from the number reached, with no string
    in between, as a number different from 0.1; and 10 with the one step
    [+ 5, * 2], whose two operators the reverse pipeline takes in the same
    order, comes back as 12.5. *)
Lemma C5_counterexample :
  @Poller._adjust no_pow (PyInt 1) (steps [("*", "0")]%string) = Return (PyStr "0.00") /\
  @invert_apply no_pow 1 (steps [("*", "0")]%string) = Raise ZeroDivisionError /\
  @Poller._adjust no_pow (PyInt 1) (steps [("/", "3")]%string) = Return (PyStr "0.33") /\
  @invert_apply no_pow 1 (steps [("/", "3")]%string) = Return (Real (number "0.99")) /\
  PrimFloat.eqb (number "0.99") 1 = false /\
  (fun z => match z with Real z => PrimFloat.eqb z (number "0.1") | _ => false end)
    <$> @invert_number no_pow (number "0.1") (steps [("+", "0.2")]%string)
    = Return false /\
  @Poller._adjust no_pow (PyInt 10) [[("+", "5"); ("*", "2")]]%string
    = Return (PyStr "30.00") /\
  @invert_number no_pow 10 [[("+", "5"); ("*", "2")]]%string = Return (Real 12.5).
Proof. vm_compute. repeat split. Qed.

(** C6, witness: the lookup of the value 1, and 10 with [+ 5] and [* 2]. *)
Lemma C6_forward_walk_witness :
  @Poller._adjust no_pow (PyInt 1) [[("0", "No")]; [("1", "Yes")]]%string
    = Return (PyStr "Yes") /\
  @Poller.adjust_step no_pow (Real 10) "+" "5" = Return (inl (Real (10 + 5)%float)) /\
  @Poller._adjust no_pow (PyInt 10) [[("+", "5")]; [("*", "2")]]%string
    = Return (PyStr (format_2f 30)) /\
  two_decimal_digits (format_2f 30).
Proof.
  destruct (@C6_forward_walk no_pow) as (Hlookup & _ & Hstep & _ & Hformat & _).
  split.
  { apply (Hlookup (PyInt 1) 1%float (Real 1) _ [("0", "No")]%string []
             "1"%string "Yes"%string 1); reflexivity. }
  split.
  { apply (Hstep 10%float 5%float "5"%string). reflexivity. }
  destruct (Hformat (PyInt 10) 10%float (Real 30)
              [[("+", "5")]; [("*", "2")]]%string eq_refl eq_refl eq_refl)
    as (Hresult & _ & Hdigits & _).
  split; [exact Hresult | apply Hdigits; reflexivity].
Defined.

(** C6, counterexample: the Float AB CD registers 0x7F80 0x0000 decode to
    infinity, which the pipeline renders as "inf", with no decimal digit;
    the step [/ 0] raises [ZeroDivisionError], so that there is no result;
    the lookup key of the superscript two passes [isdigit] and makes [int]
    raise [ValueError]; and where -8 to the power 0.5 is the complex number
    that it is in Python, no step raises and the result is "0.00+2.83j". *)
Lemma C6_counterexample :
  @Poller.decode_value no_pow [32640; 0] "Float AB CD" [] = Return (PyStr "inf") /\
  @Poller._adjust no_pow (PyInt 1) [[("/", "0")]]%string = Raise ZeroDivisionError /\
  isdigit superscript_two = true /\
  @Poller._adjust no_pow (PyInt 2) [[(superscript_two, "two")]]%string
    = Raise (ValueError "int" "invalid literal") /\
  @Poller._adjust root_of_minus_eight (PyInt (-8)) [[("^", "0.5")]]%string
    = Return (PyStr "0.00+2.83j").
Proof. vm_compute. repeat split. Qed.

(** ** Bytes *)

Lemma byte_at_spec (v i : Z) : 0 <= i -> byte_at v i = (v / 2 ^ (8 * i)) mod 256.
Proof.
  intros Hi. unfold byte_at.
  change 255 with (Z.ones 8). rewrite Z.land_ones by lia.
  by rewrite Z.shiftr_div_pow2 by lia.
Qed.

Lemma byte_at_byte (v i : Z) : 0 <= i -> is_byte (byte_at v i).
Proof. intros Hi. rewrite byte_at_spec by assumption. apply Z.mod_pos_bound. lia. Qed.

Lemma be_bytes_bytes (n : nat) (v : Z) : Forall is_byte (be_bytes n v).
Proof.
  induction n as [|n IH]; simpl; constructor; [|assumption].
  apply byte_at_byte. lia.
Qed.

Lemma length_be_bytes (n : nat) (v : Z) : length (be_bytes n v) = n.
Proof. induction n as [|n IH]; simpl; congruence. Qed.

Lemma of_digits_shift (base : Z) (ds : list Z) (a : Z) :
  fold_left (fun acc d => acc * base + d) ds a
    = a * base ^ Z.of_nat (length ds) + of_digits base ds.
Proof.
  unfold of_digits. revert a. induction ds as [|d ds IH]; intros a.
  - simpl. lia.
  - cbn [fold_left length]. rewrite IH, (IH (0 * base + d)).
    rewrite Nat2Z.inj_succ, Z.pow_succ_r by lia. lia.
Qed.

Lemma of_digits_cons (base d : Z) (ds : list Z) :
  of_digits base (d :: ds) = d * base ^ Z.of_nat (length ds) + of_digits base ds.
Proof.
  unfold of_digits at 1. cbn [fold_left]. rewrite of_digits_shift. lia.
Qed.

(** The bytes of a number read back: the number modulo 256^n. *)
Lemma of_be_bytes_be_bytes (n : nat) (v : Z) :
  of_be_bytes (be_bytes n v) = v mod 2 ^ (8 * Z.of_nat n).
Proof.
  unfold of_be_bytes. induction n as [|n IH].
  - simpl. by rewrite Z.mod_1_r.
  - cbn [be_bytes]. rewrite of_digits_cons, IH, length_be_bytes.
    rewrite byte_at_spec by lia.
    replace (8 * Z.of_nat (S n)) with (8 * Z.of_nat n + 8) by lia.
    rewrite Z.pow_add_r by lia.
    replace (256 ^ Z.of_nat n) with (2 ^ (8 * Z.of_nat n))
      by (rewrite Z.pow_mul_r by lia; reflexivity).
    assert (0 < 2 ^ (8 * Z.of_nat n)) by (apply Z.pow_pos_nonneg; lia).
    rewrite (Z.rem_mul_r v (2 ^ (8 * Z.of_nat n)) (2 ^ 8)) by lia.
    change (2 ^ 8) with 256. lia.
Qed.

(** ** Words *)

Lemma be_bytes_word (a b : Z) :
  is_byte a -> is_byte b -> be_bytes 2 (a * 256 + b) = [a; b].
Proof.
  unfold is_byte. intros Ha Hb. cbn [be_bytes].
  rewrite !byte_at_spec by lia. simpl.
  change (2 ^ 8) with 256. rewrite Z.div_1_r.
  f_equal; [|f_equal].
  - rewrite Z.div_add_l by lia. rewrite (Z.div_small b) by lia.
    rewrite Z.add_0_r. apply Z.mod_small. lia.
  - rewrite Z.add_comm, Z.mod_add by lia. apply Z.mod_small. lia.
Qed.

Lemma pack_H_word (order : Endian) (a b : Z) :
  is_byte a -> is_byte b ->
  pack_H order (a * 256 + b) = Return (ordered order [a; b]).
Proof.
  intros Ha Hb. unfold pack_H. rewrite be_bytes_word by assumption.
  unfold is_byte in *.
  destruct ((0 <=? a * 256 + b) && (a * 256 + b <=? 65535)) eqn:Hr; [reflexivity|lia].
Qed.

Lemma of_be_bytes_pair (a b : Z) : of_be_bytes [a; b] = a * 256 + b.
Proof. unfold of_be_bytes, of_digits; simpl; lia. Qed.

#[local] Arguments pack_H : simpl never.
#[local] Arguments of_be_bytes : simpl never.

Ltac words :=
  repeat first
    [ rewrite of_be_bytes_pair
    | rewrite pack_H_word by assumption
    | progress simpl ].

(** A packed value of two words comes back through the registers, whatever
    the byte and word order. *)
Lemma two_words_round_trip (byteorder wordorder : Endian) (b0 b1 b2 b3 : Z) :
  is_byte b0 -> is_byte b1 -> is_byte b2 -> is_byte b3 ->
  exists registers : list Z,
    BinaryPayloadBuilder._pack_words byteorder wordorder 2 [b0; b1; b2; b3]
      ≫= BinaryPayloadBuilder.to_registers = Return registers /\
    BinaryPayloadDecoder.fromRegisters registers
      ≫= (fun p => BinaryPayloadDecoder._unpack_words byteorder wordorder 2 (take 4 p))
      = Return [b0; b1; b2; b3].
Proof.
  intros H0 H1 H2 H3.
  unfold BinaryPayloadBuilder._pack_words, BinaryPayloadBuilder.to_registers,
    BinaryPayloadDecoder.fromRegisters, BinaryPayloadDecoder._unpack_words.
  destruct byteorder, wordorder; eexists; (split; [words; reflexivity|]); words;
    reflexivity.
Qed.

Lemma four_words_round_trip (byteorder wordorder : Endian)
    (b0 b1 b2 b3 b4 b5 b6 b7 : Z) :
  is_byte b0 -> is_byte b1 -> is_byte b2 -> is_byte b3 ->
  is_byte b4 -> is_byte b5 -> is_byte b6 -> is_byte b7 ->
  exists registers : list Z,
    BinaryPayloadBuilder._pack_words byteorder wordorder 4
        [b0; b1; b2; b3; b4; b5; b6; b7]
      ≫= BinaryPayloadBuilder.to_registers = Return registers /\
    BinaryPayloadDecoder.fromRegisters registers
      ≫= (fun p => BinaryPayloadDecoder._unpack_words byteorder wordorder 4 (take 8 p))
      = Return [b0; b1; b2; b3; b4; b5; b6; b7].
Proof.
  intros H0 H1 H2 H3 H4 H5 H6 H7.
  unfold BinaryPayloadBuilder._pack_words, BinaryPayloadBuilder.to_registers,
    BinaryPayloadDecoder.fromRegisters, BinaryPayloadDecoder._unpack_words.
  destruct byteorder, wordorder; eexists; (split; [words; reflexivity|]); words;
    reflexivity.
Qed.

(** ** The integer formats *)

Lemma to_registers_word (n : Z) :
  BinaryPayloadBuilder.to_registers (be_bytes 2 n) = Return [n mod 65536].
Proof.
  unfold BinaryPayloadBuilder.to_registers. cbn [be_bytes pairs mapM].
  unfold unpack_H. cbn [ordered].
  change [byte_at n (Z.of_nat 1); byte_at n (Z.of_nat 0)] with (be_bytes 2 n).
  rewrite of_be_bytes_be_bytes. reflexivity.
Qed.

Lemma signed_word (n : Z) :
  -32768 <= n <= 32767 ->
  (if n mod 65536 >? 32767 then n mod 65536 - 65536 else n mod 65536) = n.
Proof.
  intros Hn. destruct (decide (0 <= n)) as [Hpos|Hneg].
  - rewrite Z.mod_small by lia. destruct (n >? 32767) eqn:E; lia.
  - replace (n mod 65536) with (n + 65536).
    + destruct (n + 65536 >? 32767) eqn:E; lia.
    + symmetry. rewrite <- (Z.mod_add _ 1) by lia. apply Z.mod_small. lia.
Qed.

Lemma signed_round_trip (n : Z) :
  -32768 <= n <= 32767 -> codec_round_trip "Signed" (PyInt n) = Return (Some (PyInt n)).
Proof.
  intros Hn. unfold codec_round_trip.
  assert (Hin : (-32768 <=? n) && (n <=? 32767) = true) by lia.
  change (item Poller.encoders "Signed") with (Return Encoder.signed).
  change (item Poller.decoders "Signed") with (Return Decoder.signed).
  cbn [mbind outcome_bind]. unfold Encoder.signed, in_range.
  rewrite Hin. cbn [mbind outcome_bind].
  unfold Encoder._16bit_int, BinaryPayloadBuilder.add_16bit_int, pack_h, py_int.
  cbn [mbind outcome_bind]. rewrite Hin.
  cbn [mbind outcome_bind ordered]. rewrite to_registers_word.
  cbn [fmap outcome_fmap]. unfold Decoder.signed, Decoder.item0.
  cbn [mbind outcome_bind]. by rewrite signed_word.
Qed.

Lemma unsigned_round_trip (n : Z) :
  0 <= n <= 65535 -> codec_round_trip "Unsigned" (PyInt n) = Return (Some (PyInt n)).
Proof.
  intros Hn. unfold codec_round_trip.
  assert (Hin : (0 <=? n) && (n <=? 65535) = true) by lia.
  change (item Poller.encoders "Unsigned") with (Return Encoder.unsigned).
  change (item Poller.decoders "Unsigned") with (Return Decoder.unsigned).
  cbn [mbind outcome_bind]. unfold Encoder.unsigned, in_range.
  rewrite Hin. cbn [mbind outcome_bind].
  unfold Encoder._16bit_uint, BinaryPayloadBuilder.add_16bit_uint, pack_H, py_int.
  cbn [mbind outcome_bind]. rewrite Hin.
  cbn [mbind outcome_bind ordered]. rewrite to_registers_word.
  cbn [fmap outcome_fmap]. unfold Decoder.unsigned, Decoder.item0.
  cbn [mbind outcome_bind]. by rewrite Z.mod_small by lia.
Qed.

Lemma unpack_i_be_bytes (n : Z) :
  -2147483648 <= n <= 2147483647 -> unpack_i (be_bytes 4 n) = Return n.
Proof.
  intros Hn. unfold unpack_i. cbn [be_bytes].
  change [byte_at n (Z.of_nat 3); byte_at n (Z.of_nat 2);
          byte_at n (Z.of_nat 1); byte_at n (Z.of_nat 0)] with (be_bytes 4 n).
  rewrite of_be_bytes_be_bytes. change (2 ^ (8 * Z.of_nat 4)) with 4294967296.
  f_equal. destruct (decide (0 <= n)) as [Hpos|Hneg].
  - rewrite Z.mod_small by lia. destruct (n <? 2147483648) eqn:E; lia.
  - replace (n mod 4294967296) with (n + 4294967296).
    + destruct (n + 4294967296 <? 2147483648) eqn:E; lia.
    + symmetry. rewrite <- (Z.mod_add _ 1) by lia. apply Z.mod_small. lia.
Qed.

(** A value of [wc] words that is packed to bytes comes back as what
    [unpack] reads from those bytes. *)
Lemma long_round_trip (byteorder wordorder : Endian) (n : Z) :
  -2147483648 <= n <= 2147483647 ->
  Encoder.long byteorder wordorder (PyInt n)
    ≫= (fun registers =>
          match registers with
          | Some rs => Some <$> Decoder.long byteorder wordorder rs
          | None => Return None
          end)
    = Return (Some (PyInt n)).
Proof.
  intros Hn.
  assert (Hin : (-2147483648 <=? n) && (n <=? 2147483647) = true) by lia.
  unfold Encoder.long, Encoder._32bit_int, BinaryPayloadBuilder.add_32bit_int,
    pack_i, py_int.
  cbn [mbind outcome_bind]. rewrite Hin. cbn [mbind outcome_bind].
  pose proof (be_bytes_bytes 4 n) as Hbytes.
  pose proof (unpack_i_be_bytes n Hn) as Hback. revert Hbytes Hback.
  cbn [be_bytes]. generalize (byte_at n (Z.of_nat 3)) as b0.
  generalize (byte_at n (Z.of_nat 2)) as b1.
  generalize (byte_at n (Z.of_nat 1)) as b2.
  generalize (byte_at n (Z.of_nat 0)) as b3.
  intros b3 b2 b1 b0 Hbytes Hback.
  inversion Hbytes as [|? ? H0 Hb1]; subst. inversion Hb1 as [|? ? H1 Hb2]; subst.
  inversion Hb2 as [|? ? H2 Hb3]; subst. inversion Hb3 as [|? ? H3 _]; subst.
  destruct (two_words_round_trip byteorder wordorder b0 b1 b2 b3 H0 H1 H2 H3)
    as (registers & Henc & Hdec).
  destruct (BinaryPayloadBuilder._pack_words _ _ _ _) as [p|e]; [|discriminate].
  cbn [mbind outcome_bind] in Henc |- *. rewrite Henc.
  cbn [fmap outcome_fmap mbind outcome_bind].
  unfold Decoder.long, BinaryPayloadDecoder.decode_32bit_int.
  destruct (BinaryPayloadDecoder.fromRegisters registers) as [q|e]; [|discriminate].
  cbn [mbind outcome_bind] in Hdec |- *. rewrite Hdec.
  cbn [mbind outcome_bind]. rewrite Hback. reflexivity.
Qed.

(** ** The string formats *)

Lemma span_spec (p : ascii -> bool) (cs a b : list ascii) :
  span p cs = (a, b) -> cs = a ++ b /\ Forall (fun c => p c = true) a.
Proof.
  revert a b. induction cs as [|c cs IH]; intros a b; simpl.
  - intros [= <- <-]. by split.
  - destruct (p c) eqn:Hc.
    + destruct (span p cs) as [a' b'] eqn:Hs. intros [= <- <-].
      destruct (IH a' b' eq_refl) as [-> Ha]. split; [reflexivity|by constructor].
    + intros [= <- <-]. by split.
Qed.

Lemma hex_val_range (c : ascii) (v : Z) : hex_val c = Some v -> 0 <= v < 16.
Proof.
  unfold hex_val.
  repeat match goal with |- context [if ?b then _ else _] => destruct b eqn:? end;
    intros [= <-]; lia.
Qed.

Lemma omap_hex_val_range (cs : list ascii) :
  Forall (fun v => 0 <= v < 16) (omap hex_val cs).
Proof.
  induction cs as [|c cs IH]; simpl; [constructor|].
  destruct (hex_val c) as [v|] eqn:Hv; [|assumption].
  constructor; [eapply hex_val_range; eassumption | assumption].
Qed.

Lemma length_omap_hex (cs : list ascii) :
  Forall (fun c => is_hex c = true) cs -> length (omap hex_val cs) = length cs.
Proof.
  induction 1 as [|c cs Hc Hcs IH]; simpl; [reflexivity|].
  unfold is_hex in Hc. destruct (hex_val c); [|discriminate].
  cbn [length]. f_equal. exact IH.
Qed.

Lemma of_digits_range (base : Z) (ds : list Z) :
  1 < base -> Forall (fun d => 0 <= d < base) ds ->
  0 <= of_digits base ds < base ^ Z.of_nat (length ds).
Proof.
  intros Hbase. induction 1 as [|d ds Hd Hds IH].
  - unfold of_digits; simpl. lia.
  - rewrite of_digits_cons. cbn [length]. rewrite Nat2Z.inj_succ, Z.pow_succ_r by lia.
    assert (0 < base ^ Z.of_nat (length ds)) by (apply Z.pow_pos_nonneg; lia).
    nia.
Qed.

Lemma at_end_no_digit (rest : list ascii) : at_end rest = true -> omap hex_val rest = [].
Proof.
  destruct rest as [|c [|c' rest]]; simpl; try discriminate; [reflexivity|].
  intros Hc. apply Z.eqb_eq in Hc. unfold hex_val. rewrite Hc. reflexivity.
Qed.

(** A string that matches the Hex - ASCII pattern denotes a 16-bit word. *)
Lemma hex_pattern_word (s : string) :
  _hex_ascii_pattern s = true -> 0 <= int_base 16 (drop 2 (chars s)) <= 65535.
Proof.
  unfold _hex_ascii_pattern, int_base.
  destruct (chars s) as [|z [|x cs]]; try discriminate. cbn [drop].
  destruct (span is_hex cs) as [ds rest] eqn:Hspan.
  destruct (span_spec _ _ _ _ Hspan) as [-> Hds].
  intros Hm. repeat (apply andb_prop in Hm as [Hm ?]).
  rewrite drop_0, omap_app, (at_end_no_digit rest), app_nil_r by assumption.
  apply Nat.leb_le in H0, H1.
  pose proof (of_digits_range 16 (omap hex_val ds) ltac:(lia)
                (omap_hex_val_range ds)) as Hr.
  rewrite length_omap_hex in Hr by assumption.
  assert (16 ^ Z.of_nat (length ds) <= 16 ^ 4)
    by (apply Z.pow_le_mono_r; lia).
  change (16 ^ 4) with 65536 in *. lia.
Qed.

Lemma hex_round_trip (s : string) :
  _hex_ascii_pattern s = true ->
  codec_round_trip "Hex - ASCII" (PyStr s)
    = Return (Some (PyStr (hex (int_base 16 (drop 2 (chars s)))))).
Proof.
  intros Hs. pose proof (hex_pattern_word s Hs) as Hn. unfold codec_round_trip.
  assert (Hin : (0 <=? int_base 16 (drop 2 (chars s)))
                && (int_base 16 (drop 2 (chars s)) <=? 65535) = true) by lia.
  change (item Poller.encoders "Hex - ASCII") with (Return Encoder.hex_ascii).
  change (item Poller.decoders "Hex - ASCII") with (Return Decoder.hex_ascii).
  cbn [mbind outcome_bind]. unfold Encoder.hex_ascii. rewrite Hs.
  unfold Encoder._16bit_uint, BinaryPayloadBuilder.add_16bit_uint, pack_H, py_int.
  cbn [mbind outcome_bind]. rewrite Hin.
  cbn [mbind outcome_bind ordered]. rewrite to_registers_word.
  cbn [fmap outcome_fmap mbind outcome_bind].
  unfold Decoder.hex_ascii, Decoder.item0. cbn [mbind outcome_bind fmap outcome_fmap].
  by rewrite Z.mod_small by lia.
Qed.

(** *** Numerals *)

Lemma of_digits_snoc (base d : Z) (ds : list Z) :
  of_digits base (ds ++ [d]) = of_digits base ds * base + d.
Proof. unfold of_digits. by rewrite fold_left_app. Qed.

Lemma digits_fuel_acc (fuel : nat) (base n : Z) (acc : list Z) :
  digits_fuel fuel base n acc = digits_fuel fuel base n [] ++ acc.
Proof.
  revert n acc. induction fuel as [|fuel IH]; intros n acc; simpl; [reflexivity|].
  destruct (n <? base); [reflexivity|].
  rewrite IH, (IH _ [n mod base]), <- app_assoc. reflexivity.
Qed.

(** With enough fuel the digits denote the number. *)
Lemma of_digits_digits_fuel (fuel : nat) (base n : Z) :
  1 < base -> 0 <= n -> n < base ^ Z.of_nat fuel ->
  of_digits base (digits_fuel fuel base n []) = n.
Proof.
  intros Hbase. revert n. induction fuel as [|fuel IH]; intros n Hn Hlt.
  - simpl in *. unfold of_digits; simpl. lia.
  - cbn [digits_fuel]. destruct (n <? base) eqn:Hsmall.
    + unfold of_digits; simpl. lia.
    + rewrite digits_fuel_acc, of_digits_snoc, IH.
      * pose proof (Z.div_mod n base ltac:(lia)). lia.
      * apply Z.div_pos; lia.
      * rewrite Nat2Z.inj_succ, Z.pow_succ_r in Hlt by lia.
        apply Z.div_lt_upper_bound; lia.
Qed.

Lemma enough_fuel (base n : Z) :
  1 < base -> 0 <= n -> n < base ^ Z.of_nat (S (Z.to_nat (Z.log2 n))).
Proof.
  intros Hbase Hn. rewrite Nat2Z.inj_succ, Z2Nat.id by apply Z.log2_nonneg.
  destruct (decide (n = 0)) as [->|Hpos].
  - simpl. lia.
  - pose proof (Z.log2_spec n ltac:(lia)) as [_ Hlog].
    eapply Z.lt_le_trans; [exact Hlog|].
    apply Z.pow_le_mono_l. lia.
Qed.

Lemma of_digits_digits (base n : Z) :
  1 < base -> 0 <= n -> of_digits base (digits base n) = n.
Proof.
  intros Hbase Hn. unfold digits.
  apply of_digits_digits_fuel; [assumption | assumption | by apply enough_fuel].
Qed.

Lemma digits_fuel_S (fuel : nat) (base n : Z) (acc : list Z) :
  digits_fuel (S fuel) base n acc =
    if n <? base then n :: acc
    else digits_fuel fuel base (n / base) (n mod base :: acc).
Proof. reflexivity. Qed.

Lemma length_digits_fuel (fuel : nat) (base n : Z) (k : nat) :
  1 < base -> 0 <= n -> n < base ^ Z.of_nat (S k) ->
  (1 <= length (digits_fuel (S fuel) base n []) <= S k)%nat.
Proof.
  intros Hbase. revert n k. induction fuel as [|fuel IH]; intros n k Hn Hlt;
    rewrite digits_fuel_S; destruct (n <? base) eqn:Hsmall; try (simpl; lia).
  rewrite digits_fuel_acc, length_app. cbn [length].
  destruct k as [|k].
  { rewrite Z.pow_1_r in Hlt. lia. }
  assert (Hdiv : n / base < base ^ Z.of_nat (S k)).
  { rewrite (Nat2Z.inj_succ (S k)), Z.pow_succ_r in Hlt by lia.
    apply Z.div_lt_upper_bound; lia. }
  specialize (IH (n / base) k ltac:(apply Z.div_pos; lia) Hdiv). lia.
Qed.

Lemma length_digits (base n : Z) (k : nat) :
  1 < base -> 0 <= n -> n < base ^ Z.of_nat (S k) ->
  (1 <= length (digits base n) <= S k)%nat.
Proof. intros. unfold digits. by apply length_digits_fuel. Qed.

Lemma digits_range (base n : Z) :
  1 < base -> 0 <= n -> Forall (fun d => 0 <= d < base) (digits base n).
Proof. intros. unfold digits. apply digits_fuel_range; [assumption..|constructor]. Qed.

Lemma of_digits_zeros (base : Z) (k : nat) (ds : list Z) :
  of_digits base (repeat 0 k ++ ds) = of_digits base ds.
Proof.
  induction k as [|k IH]; simpl; [reflexivity|].
  rewrite of_digits_cons, IH. lia.
Qed.

(** Two numerals of the same length that denote the same number are equal. *)
Lemma of_digits_inj (base : Z) (ds ds' : list Z) :
  1 < base -> length ds = length ds' ->
  Forall (fun d => 0 <= d < base) ds -> Forall (fun d => 0 <= d < base) ds' ->
  of_digits base ds = of_digits base ds' -> ds = ds'.
Proof.
  intros Hbase. revert ds'. induction ds as [|d ds IH]; intros [|d' ds'] Hlen Hds Hds' Heq;
    try discriminate; [reflexivity|].
  injection Hlen as Hlen.
  inversion Hds as [|? ? Hd Hrest]; inversion Hds' as [|? ? Hd' Hrest']; subst.
  rewrite !of_digits_cons, <- Hlen in Heq.
  pose proof (of_digits_range base ds Hbase Hrest) as Hr.
  pose proof (of_digits_range base ds' Hbase Hrest') as Hr'.
  rewrite <- Hlen in Hr'.
  assert (0 < base ^ Z.of_nat (length ds)) by (apply Z.pow_pos_nonneg; lia).
  assert (d = d') by nia. subst d'.
  f_equal. apply IH; try assumption. lia.
Qed.

Lemma chars_text (cs : list ascii) : chars (text cs) = cs.
Proof. apply list_ascii_of_string_of_list_ascii. Qed.

Lemma span_all (p : ascii -> bool) (cs : list ascii) :
  Forall (fun c => p c = true) cs -> span p cs = (cs, []).
Proof.
  induction 1 as [|c cs Hc Hcs IH]; simpl; [reflexivity|]. by rewrite Hc, IH.
Qed.

Lemma hex_val_digit_char (d : Z) : 0 <= d < 16 -> hex_val (digit_char d) = Some d.
Proof.
  intros Hd.
  assert (d = 0 \/ d = 1 \/ d = 2 \/ d = 3 \/ d = 4 \/ d = 5 \/ d = 6 \/ d = 7
          \/ d = 8 \/ d = 9 \/ d = 10 \/ d = 11 \/ d = 12 \/ d = 13 \/ d = 14
          \/ d = 15) as Hcases by lia.
  repeat (destruct Hcases as [->|Hcases]; [reflexivity|]). by subst.
Qed.

Lemma omap_hex_val_numeral (ds : list Z) :
  Forall (fun d => 0 <= d < 16) ds -> omap hex_val (map digit_char ds) = ds.
Proof.
  induction 1 as [|d ds Hd Hds IH]; [reflexivity|].
  cbn [map]. change (omap hex_val (digit_char d :: map digit_char ds))
    with (match hex_val (digit_char d) with
          | Some v => v :: omap hex_val (map digit_char ds)
          | None => omap hex_val (map digit_char ds)
          end).
  by rewrite hex_val_digit_char, IH.
Qed.

Lemma numeral_hex (ds : list Z) :
  Forall (fun d => 0 <= d < 16) ds ->
  Forall (fun c => is_hex c = true) (map digit_char ds).
Proof.
  intros Hds. apply Forall_fmap. eapply Forall_impl; [exact Hds|].
  simpl. intros d Hd. unfold is_hex. by rewrite hex_val_digit_char.
Qed.

(** The text that [hex] gives for a word matches the pattern and denotes
    the word. *)
Lemma hex_word (w : Z) :
  0 <= w <= 65535 ->
  _hex_ascii_pattern (hex w) = true /\ int_base 16 (drop 2 (chars (hex w))) = w.
Proof.
  intros Hw. unfold hex. replace (w <? 0) with false by lia.
  rewrite chars_text. cbn [chars list_ascii_of_string app drop].
  pose proof (digits_range 16 w ltac:(lia) ltac:(lia)) as Hr.
  pose proof (length_digits 16 w 3 ltac:(lia) ltac:(lia) ltac:(simpl; lia)) as Hl.
  unfold _hex_ascii_pattern, int_base, numeral in *.
  rewrite chars_text. cbn [app].
  rewrite (span_all is_hex) by (by apply numeral_hex).
  rewrite length_map. split.
  - cbn [at_end]. repeat (apply andb_true_intro; split); try reflexivity;
      apply Nat.leb_le; lia.
  - rewrite drop_0, omap_hex_val_numeral by assumption.
    apply of_digits_digits; lia.
Qed.

Lemma hex_canonical_round_trip (w : Z) :
  0 <= w <= 65535 ->
  codec_round_trip "Hex - ASCII" (PyStr (hex w)) = Return (Some (PyStr (hex w))).
Proof.
  intros Hw. destruct (hex_word w Hw) as [Hpattern Hvalue].
  rewrite hex_round_trip by assumption. by rewrite Hvalue.
Qed.

(** *** Binary *)

Lemma format_016b_bits (vs : list Z) :
  length vs = 16%nat -> Forall (fun v => 0 <= v < 2) vs ->
  format_016b (of_digits 2 vs) = map digit_char vs.
Proof.
  intros Hlen Hvs.
  pose proof (of_digits_range 2 vs ltac:(lia) Hvs) as Hn. rewrite Hlen in Hn.
  set (n := of_digits 2 vs) in *.
  pose proof (length_digits 2 n 15 ltac:(lia) ltac:(lia) (proj2 Hn)) as Hl.
  unfold format_016b, numeral. replace (n <? 0) with false by lia.
  rewrite length_map.
  change "0"%char with (digit_char 0).
  rewrite <- map_repeat, <- map_app. f_equal.
  apply (of_digits_inj 2); [lia | | | assumption |].
  - rewrite length_app, repeat_length. lia.
  - apply Forall_app. split; [|apply digits_range; lia].
    apply Forall_forall. intros d Hd.
    apply list_elem_of_In, repeat_spec in Hd. lia.
  - rewrite of_digits_zeros. apply of_digits_digits; lia.
Qed.

Lemma is_bit_bit_char (b : bool) : is_bit (bit_char b) = true.
Proof. by destruct b. Qed.

Lemma digit_char_b2z (b : bool) : digit_char (Z.b2z b) = bit_char b.
Proof. by destruct b. Qed.

Lemma b2z_bit (b : bool) : 0 <= Z.b2z b < 2.
Proof. destruct b; simpl; lia. Qed.

Lemma binary_text_eq (b0 b1 b2 b3 b4 b5 b6 b7 b8 b9 b10 b11 b12 b13 b14 b15 : bool) :
  binary_text [b0; b1; b2; b3; b4; b5; b6; b7; b8; b9; b10; b11; b12; b13; b14; b15]
  = text [bit_char b0; bit_char b1; bit_char b2; bit_char b3; " "%char;
          bit_char b4; bit_char b5; bit_char b6; bit_char b7; " "%char;
          bit_char b8; bit_char b9; bit_char b10; bit_char b11; " "%char;
          bit_char b12; bit_char b13; bit_char b14; bit_char b15].
Proof. reflexivity. Qed.

(** What [Decoder.binary] makes of sixteen digits. *)
Lemma grouped_eq (c0 c1 c2 c3 c4 c5 c6 c7 c8 c9 c10 c11 c12 c13 c14 c15 : ascii) :
  join [" "%char]
    (map (fun x => slice [c0; c1; c2; c3; c4; c5; c6; c7; c8; c9; c10; c11; c12;
                          c13; c14; c15] (4 * x) (4 * (x + 1))) [0; 1; 2; 3])
  = [c0; c1; c2; c3; " "%char; c4; c5; c6; c7; " "%char;
     c8; c9; c10; c11; " "%char; c12; c13; c14; c15].
Proof. reflexivity. Qed.

Lemma omap_hex_bit (b : bool) (cs : list ascii) :
  omap hex_val (bit_char b :: cs) = Z.b2z b :: omap hex_val cs.
Proof. by destruct b. Qed.

Lemma omap_hex_space (cs : list ascii) :
  omap hex_val (" "%char :: cs) = omap hex_val cs.
Proof. reflexivity. Qed.

(** A string of the binary pattern goes through its 16-bit number. *)
Lemma binary_through_word (s : string) (n : Z) :
  _binary_pattern s = true -> int_base 2 (chars s) = n -> 0 <= n <= 65535 ->
  codec_round_trip "Binary" (PyStr s) = (Some <$> Decoder.binary [n]).
Proof.
  intros Hpattern Hvalue Hn.
  assert (Hin : (0 <=? n) && (n <=? 65535) = true) by lia.
  unfold codec_round_trip.
  change (item Poller.encoders "Binary") with (Return Encoder.binary).
  change (item Poller.decoders "Binary") with (Return Decoder.binary).
  cbn [mbind outcome_bind]. unfold Encoder.binary. rewrite Hpattern, Hvalue.
  unfold Encoder._16bit_uint, BinaryPayloadBuilder.add_16bit_uint, pack_H, py_int.
  cbn [mbind outcome_bind]. rewrite Hin.
  cbn [mbind outcome_bind ordered]. rewrite to_registers_word.
  cbn [fmap outcome_fmap mbind outcome_bind]. rewrite Z.mod_small by lia.
  reflexivity.
Qed.

Lemma binary_text_pattern (bits : list bool) :
  length bits = 16%nat -> _binary_pattern (binary_text bits) = true.
Proof.
  intros Hlen.
  destruct bits as [|b0 [|b1 [|b2 [|b3 [|b4 [|b5 [|b6 [|b7 [|b8 [|b9 [|b10 [|b11
    [|b12 [|b13 [|b14 [|b15 [|? ?]]]]]]]]]]]]]]]]]; try discriminate. clear Hlen.
  rewrite binary_text_eq. unfold _binary_pattern. rewrite chars_text.
  cbn [groups]. rewrite !is_bit_bit_char. reflexivity.
Qed.

Lemma binary_text_value (bits : list bool) :
  length bits = 16%nat ->
  int_base 2 (chars (binary_text bits)) = of_digits 2 (map Z.b2z bits).
Proof.
  intros Hlen.
  destruct bits as [|b0 [|b1 [|b2 [|b3 [|b4 [|b5 [|b6 [|b7 [|b8 [|b9 [|b10 [|b11
    [|b12 [|b13 [|b14 [|b15 [|? ?]]]]]]]]]]]]]]]]]; try discriminate. clear Hlen.
  rewrite binary_text_eq. unfold int_base. rewrite chars_text. f_equal.
  rewrite !omap_hex_bit, !omap_hex_space, !omap_hex_bit, !omap_hex_space,
    !omap_hex_bit, !omap_hex_space, !omap_hex_bit.
  reflexivity.
Qed.

Lemma binary_of_bits (bits : list bool) :
  length bits = 16%nat ->
  Decoder.binary [of_digits 2 (map Z.b2z bits)] = Return (PyStr (binary_text bits)).
Proof.
  intros Hlen.
  assert (Hvs : Forall (fun v => 0 <= v < 2) (map Z.b2z bits))
    by (apply Forall_fmap, Forall_forall; intros b _; apply b2z_bit).
  assert (Hformat := format_016b_bits (map Z.b2z bits)
                       ltac:(by rewrite length_map) Hvs).
  unfold Decoder.binary, Decoder.item0. cbn [mbind outcome_bind].
  rewrite Hformat, map_map, (map_ext _ bit_char digit_char_b2z).
  destruct bits as [|b0 [|b1 [|b2 [|b3 [|b4 [|b5 [|b6 [|b7 [|b8 [|b9 [|b10 [|b11
    [|b12 [|b13 [|b14 [|b15 [|? ?]]]]]]]]]]]]]]]]]; try discriminate.
  rewrite binary_text_eq.
  apply (f_equal (fun cs => Return (PyStr (text cs)))).
  exact (grouped_eq (bit_char b0) (bit_char b1) (bit_char b2) (bit_char b3)
           (bit_char b4) (bit_char b5) (bit_char b6) (bit_char b7)
           (bit_char b8) (bit_char b9) (bit_char b10) (bit_char b11)
           (bit_char b12) (bit_char b13) (bit_char b14) (bit_char b15)).
Qed.

(** The text of sixteen bits comes back as it is. *)
Lemma binary_text_round_trip (bits : list bool) :
  length bits = 16%nat ->
  codec_round_trip "Binary" (PyStr (binary_text bits))
    = Return (Some (PyStr (binary_text bits))).
Proof.
  intros Hlen.
  assert (Hvs : Forall (fun v => 0 <= v < 2) (map Z.b2z bits))
    by (apply Forall_fmap, Forall_forall; intros b _; apply b2z_bit).
  pose proof (of_digits_range 2 (map Z.b2z bits) ltac:(lia) Hvs) as Hn.
  rewrite length_map, Hlen in Hn. change (2 ^ Z.of_nat 16) with 65536 in Hn.
  rewrite (binary_through_word _ _ (binary_text_pattern bits Hlen)
             (binary_text_value bits Hlen)) by lia.
  by rewrite binary_of_bits.
Qed.

Lemma is_bit_cases (c : ascii) : is_bit c = true -> c = bit_char (ord c =? 49).
Proof.
  unfold is_bit, ord. intros Hc.
  rewrite <- (ascii_nat_embedding c) at 1.
  destruct (Z.of_nat (nat_of_ascii c) =? 49) eqn:H1.
  - apply Z.eqb_eq in H1. replace (nat_of_ascii c) with 49%nat by lia. reflexivity.
  - rewrite orb_false_r in Hc. apply Z.eqb_eq in Hc.
    replace (nat_of_ascii c) with 48%nat by lia. reflexivity.
Qed.

Lemma space_char (c : ascii) : (ord c =? 32) = true -> c = " "%char.
Proof.
  unfold ord. intros Hc. apply Z.eqb_eq in Hc.
  rewrite <- (ascii_nat_embedding c).
  replace (nat_of_ascii c) with 32%nat by lia. reflexivity.
Qed.

(** A string of nineteen characters that matches the Binary pattern is the
    text of sixteen bits. *)
Lemma binary_pattern_text (s : string) :
  _binary_pattern s = true -> length (chars s) = 19%nat ->
  exists bits : list bool, length bits = 16%nat /\ s = binary_text bits.
Proof.
  unfold _binary_pattern. intros Hs Hlen.
  rewrite <- (string_of_list_ascii_of_string s). fold (chars s).
  destruct (chars s) as [|c0 [|c1 [|c2 [|c3 [|s0 [|c4 [|c5 [|c6 [|c7 [|s1
    [|c8 [|c9 [|c10 [|c11 [|s2 [|c12 [|c13 [|c14 [|c15 [|? ?]]]]]]]]]]]]]]]]]]]];
    try discriminate.
  cbn [groups] in Hs.
  repeat match goal with
         | H : _ && _ = true |- _ =>
             let H' := fresh "Hb" in apply andb_prop in H as [H H']
         end.
  repeat match goal with
         | H : is_bit ?c = true |- _ => apply is_bit_cases in H
         | H : (ord ?c =? 32) = true |- _ => apply space_char in H
         end.
  exists [ord c0 =? 49; ord c1 =? 49; ord c2 =? 49; ord c3 =? 49;
          ord c4 =? 49; ord c5 =? 49; ord c6 =? 49; ord c7 =? 49;
          ord c8 =? 49; ord c9 =? 49; ord c10 =? 49; ord c11 =? 49;
          ord c12 =? 49; ord c13 =? 49; ord c14 =? 49; ord c15 =? 49].
  split; [reflexivity|].
  rewrite binary_text_eq. unfold text. congruence.
Qed.

Lemma binary_round_trip (s : string) :
  _binary_pattern s = true -> length (chars s) = 19%nat ->
  codec_round_trip "Binary" (PyStr s) = Return (Some (PyStr s)).
Proof.
  intros Hs Hlen. destruct (binary_pattern_text s Hs Hlen) as (bits & Hbits & ->).
  by apply binary_text_round_trip.
Qed.

(** ** The interchange encoding of floating-point numbers *)

Lemma digits2_pos_size (m : positive) : digits2_pos m = Pos.size m.
Proof. induction m as [m IH|m IH|]; simpl; congruence. Qed.

Lemma size_bounds (m : positive) :
  2 ^ (Z.pos (Pos.size m) - 1) <= Z.pos m < 2 ^ Z.pos (Pos.size m).
Proof.
  induction m as [m IH|m IH|]; [| |simpl; lia].
  all: cbn [Pos.size]; rewrite Pos2Z.inj_succ.
  all: replace (Z.succ (Z.pos (Pos.size m)) - 1)
         with (Z.succ (Z.pos (Pos.size m) - 1)) by lia.
  all: rewrite !Z.pow_succ_r by lia; lia.
Qed.

Section Interchange.
Variables mbits ebits : Z.
Hypothesis mbits_positive : 0 < mbits.
Hypothesis ebits_large : 1 < ebits.

Lemma fraction_positive : 0 < 2 ^ mbits.
Proof. apply Z.pow_pos_nonneg; lia. Qed.

Lemma exponent_double : 2 ^ ebits = 2 * 2 ^ (ebits - 1).
Proof. rewrite <- Z.pow_succ_r by lia. f_equal. lia. Qed.

Lemma half_large : 2 <= 2 ^ (ebits - 1).
Proof.
  change 2 with (2 ^ 1) at 1. apply Z.pow_le_mono_r; lia.
Qed.

(** The three fields of an encoding are read back from it. *)
Lemma field_parts (s : bool) (E frac : Z) :
  0 <= E < 2 ^ ebits -> 0 <= frac < 2 ^ mbits ->
  let b := (if s then 2 ^ (ebits + mbits) else 0) + E * 2 ^ mbits + frac in
  Z.testbit b (ebits + mbits) = s /\
  (b / 2 ^ mbits) mod 2 ^ ebits = E /\
  b mod 2 ^ mbits = frac /\
  0 <= b < 2 ^ (ebits + mbits + 1).
Proof.
  intros HE Hfrac b.
  pose proof fraction_positive as Hp.
  assert (Hq : 0 < 2 ^ ebits) by (apply Z.pow_pos_nonneg; lia).
  assert (Hpq : 2 ^ (ebits + mbits) = 2 ^ ebits * 2 ^ mbits)
    by (apply Z.pow_add_r; lia).
  assert (Hlow : 0 <= E * 2 ^ mbits + frac < 2 ^ (ebits + mbits)) by nia.
  assert (Hb : b = Z.b2z s * 2 ^ (ebits + mbits) + (E * 2 ^ mbits + frac))
    by (unfold b; destruct s; simpl; lia).
  repeat split.
  - apply Z.b2z_inj. rewrite Z.testbit_spec' by lia.
    rewrite Hb, Z.add_comm, Z.div_add by lia.
    rewrite (Z.div_small _ _ Hlow). destruct s; reflexivity.
  - replace b with (frac + (Z.b2z s * 2 ^ ebits + E) * 2 ^ mbits)
      by (rewrite Hb, Hpq; lia).
    rewrite Z.div_add by lia. rewrite (Z.div_small frac) by lia.
    rewrite Z.add_0_l, Z.add_comm, Z.mod_add by lia. apply Z.mod_small; lia.
  - replace b with (frac + (Z.b2z s * 2 ^ ebits + E) * 2 ^ mbits)
      by (rewrite Hb, Hpq; lia).
    rewrite Z.mod_add by lia. apply Z.mod_small; lia.
  - rewrite Hb. destruct s; simpl; lia.
  - replace (ebits + mbits + 1) with (Z.succ (ebits + mbits)) by lia.
    rewrite Z.pow_succ_r by lia. rewrite Hb. destruct s; simpl; lia.
Qed.

(** What [bounded] says about a mantissa and its exponent. *)
Lemma bounded_spec (m : positive) (e : Z) :
  bounded (mbits + 1) (2 ^ (ebits - 1)) m e = true ->
  Z.pos m < 2 ^ mbits /\ e = 2 - 2 ^ (ebits - 1) - mbits \/
  2 ^ mbits <= Z.pos m < 2 * 2 ^ mbits /\
  2 - 2 ^ (ebits - 1) - mbits <= e <= 2 ^ (ebits - 1) - mbits - 1.
Proof.
  unfold bounded, canonical_mantissa, fexp, emin.
  rewrite digits2_pos_size. intros H.
  apply andb_prop in H as [Hc He].
  apply Z.eqb_eq in Hc. apply Z.leb_le in He.
  pose proof (size_bounds m) as [Hlow Hhigh].
  pose proof fraction_positive as Hp.
  destruct (Z_lt_le_dec (Z.pos m) (2 ^ mbits)) as [Hsmall|Hbig].
  - left. split; [exact Hsmall|].
    assert (Z.pos (Pos.size m) - 1 < mbits).
    { apply (Z.pow_lt_mono_r_iff 2); lia. }
    lia.
  - right.
    assert (mbits < Z.pos (Pos.size m)).
    { apply (Z.pow_lt_mono_r_iff 2); lia. }
    assert (Hsize : Z.pos (Pos.size m) = mbits + 1) by lia.
    rewrite Hsize in Hhigh. rewrite Z.pow_add_r in Hhigh by lia.
    lia.
Qed.

Lemma ieee_value_bits (x : spec_float) :
  SpecFloat.valid_binary (mbits + 1) (2 ^ (ebits - 1)) x = true ->
  ieee_value mbits ebits (ieee_bits mbits ebits x) = x /\
  0 <= ieee_bits mbits ebits x < 2 ^ (ebits + mbits + 1).
Proof.
  intros Hvalid.
  pose proof fraction_positive as Hp.
  pose proof exponent_double as Hq.
  pose proof half_large as Hh.
  assert (Hhalf : 0 <= 2 ^ (mbits - 1) < 2 ^ mbits).
  { split; [apply Z.pow_nonneg; lia|]. apply Z.pow_lt_mono_r; lia. }
  assert (Hnz : 0 < 2 ^ (mbits - 1)) by (apply Z.pow_pos_nonneg; lia).
  destruct x as [s|s| |s m e]; unfold ieee_bits, ieee_value.
  - destruct (field_parts s 0 0) as (Hs & HE & Hf & Hb); [lia..|].
    rewrite Hs, HE, Hf. split; [reflexivity|exact Hb].
  - destruct (field_parts s (2 ^ ebits - 1) 0) as (Hs & HE & Hf & Hb); [lia..|].
    rewrite Hs, HE, Hf.
    destruct (Z.eqb_spec (2 ^ ebits - 1) 0) as [H0|_]; [lia|].
    rewrite Z.eqb_refl. split; [reflexivity|exact Hb].
  - destruct (field_parts false (2 ^ ebits - 1) (2 ^ (mbits - 1)))
      as (Hs & HE & Hf & Hb); [lia..|].
    rewrite HE, Hf.
    destruct (Z.eqb_spec (2 ^ ebits - 1) 0) as [H0|_]; [lia|].
    rewrite Z.eqb_refl.
    destruct (Z.eqb_spec (2 ^ (mbits - 1)) 0) as [H0|_]; [lia|].
    split; [reflexivity|exact Hb].
  - apply bounded_spec in Hvalid as [[Hm He]|[Hm He]].
    + destruct (Z.ltb_spec (Z.pos m) (2 ^ mbits)) as [_|]; [|lia].
      destruct (field_parts s 0 (Z.pos m)) as (Hs & HE & Hf & Hb); [lia..|].
      rewrite Hs, HE, Hf. cbn [Z.eqb]. split; [|exact Hb].
      f_equal. lia.
    + destruct (Z.ltb_spec (Z.pos m) (2 ^ mbits)) as [|_]; [lia|].
      set (E := e + (2 ^ (ebits - 1) - 1) + mbits).
      destruct (field_parts s E (Z.pos m - 2 ^ mbits)) as (Hs & HE & Hf & Hb);
        [unfold E; lia..|].
      rewrite Hs, HE, Hf.
      destruct (Z.eqb_spec E 0) as [H0|_]; [unfold E in H0; lia|].
      destruct (Z.eqb_spec E (2 ^ ebits - 1)) as [H0|_]; [unfold E in H0; lia|].
      replace (Z.pos m - 2 ^ mbits + 2 ^ mbits) with (Z.pos m) by lia.
      split; [|exact Hb]. f_equal. unfold E. lia.
Qed.
End Interchange.

(** ** The 64-bit formats *)

Lemma unpack_d_pack_d (x : float) : unpack_d (pack_d x) = Return x.
Proof.
  destruct (ieee_value_bits 52 11 ltac:(lia) ltac:(lia) (Prim2SF x) (Prim2SF_valid x))
    as [Hback Hrange].
  unfold unpack_d, pack_d. cbn [be_bytes].
  change [byte_at ?v (Z.of_nat 7); byte_at ?v (Z.of_nat 6); byte_at ?v (Z.of_nat 5);
          byte_at ?v (Z.of_nat 4); byte_at ?v (Z.of_nat 3); byte_at ?v (Z.of_nat 2);
          byte_at ?v (Z.of_nat 1); byte_at ?v (Z.of_nat 0)] with (be_bytes 8 v).
  rewrite of_be_bytes_be_bytes, Z.mod_small by exact Hrange.
  by rewrite Hback, SF2Prim_Prim2SF.
Qed.

Lemma double_round_trip (byteorder wordorder : Endian) (x : float) :
  Encoder.double byteorder wordorder (PyFloat x)
    ≫= (fun registers =>
          match registers with
          | Some rs => Some <$> Decoder.double byteorder wordorder rs
          | None => Return None
          end)
    = Return (Some (PyFloat x)).
Proof.
  unfold Encoder.double, Encoder._64bit_float, BinaryPayloadBuilder.add_64bit_float,
    py_float.
  cbn [mbind outcome_bind].
  pose proof (unpack_d_pack_d x) as Hback. unfold pack_d in Hback |- *.
  pose proof (be_bytes_bytes 8 (ieee_bits 52 11 (Prim2SF x))) as Hbytes.
  revert Hbytes Hback. generalize (ieee_bits 52 11 (Prim2SF x)) as v. intros v.
  cbn [be_bytes]. intros Hbytes Hback.
  repeat match goal with
         | H : Forall is_byte (_ :: _) |- _ =>
             let Hb := fresh "Hb" in
             apply Forall_cons in H as [Hb H]
         end.
  destruct (four_words_round_trip byteorder wordorder _ _ _ _ _ _ _ _
              Hb Hb0 Hb1 Hb2 Hb3 Hb4 Hb5 Hb6) as (registers & Henc & Hdec).
  destruct (BinaryPayloadBuilder._pack_words _ _ _ _) as [p|e]; [|discriminate].
  cbn [mbind outcome_bind] in Henc |- *. rewrite Henc.
  cbn [fmap outcome_fmap mbind outcome_bind].
  unfold Decoder.double, BinaryPayloadDecoder.decode_64bit_float.
  destruct (BinaryPayloadDecoder.fromRegisters registers) as [q|e]; [|discriminate].
  cbn [mbind outcome_bind] in Hdec |- *. rewrite Hdec.
  cbn [mbind outcome_bind]. rewrite Hback. reflexivity.
Qed.

(** ** The 32-bit formats *)

(** [unpack("!f", pack("!f", x))[0]]: [x] as a binary32 number. *)
Lemma pack_f_bytes (x : float) (p : list Z) :
  pack_f x = Return p -> exists v : Z, p = be_bytes 4 v.
Proof.
  unfold pack_f. intros H.
  destruct (Prim2SF x) as [s|s| |s m e]; try (injection H as <-; by eexists).
  destruct (binary_round 24 128 s m e); try (injection H as <-; by eexists).
  discriminate.
Qed.

Lemma float_round_trip (byteorder wordorder : Endian) (x : float) :
  Encoder.float32 byteorder wordorder (PyFloat x)
    ≫= (fun registers =>
          match registers with
          | Some rs => Some <$> Decoder.float32 byteorder wordorder rs
          | None => Return None
          end)
    = (p ← pack_f x; y ← unpack_f p; Return (Some (PyFloat y))).
Proof.
  unfold Encoder.float32, Encoder._32bit_float, BinaryPayloadBuilder.add_32bit_float,
    py_float.
  cbn [mbind outcome_bind].
  destruct (pack_f x) as [p|e] eqn:Hpack; [|reflexivity].
  apply pack_f_bytes in Hpack as [v ->].
  cbn [mbind outcome_bind].
  pose proof (be_bytes_bytes 4 v) as Hbytes. revert Hbytes.
  cbn [be_bytes]. intros Hbytes.
  repeat match goal with
         | H : Forall is_byte (_ :: _) |- _ =>
             let Hb := fresh "Hb" in
             apply Forall_cons in H as [Hb H]
         end.
  destruct (two_words_round_trip byteorder wordorder _ _ _ _ Hb Hb0 Hb1 Hb2)
    as (registers & Henc & Hdec).
  destruct (BinaryPayloadBuilder._pack_words _ _ _ _) as [p|e]; [|discriminate].
  cbn [mbind outcome_bind] in Henc |- *. rewrite Henc.
  cbn [fmap outcome_fmap mbind outcome_bind].
  unfold Decoder.float32, BinaryPayloadDecoder.decode_32bit_float.
  destruct (BinaryPayloadDecoder.fromRegisters registers) as [q|e]; [|discriminate].
  cbn [mbind outcome_bind] in Hdec |- *. rewrite Hdec.
  cbn [mbind outcome_bind]. unfold unpack_f.
  cbn [fmap outcome_fmap mbind outcome_bind]. reflexivity.
Qed.

(** ** Rounding a number that needs no rounding *)

Lemma iter_pos_nat {A : Type} (f : A -> A) (p : positive) (x : A) :
  SpecFloat.iter_pos f p x = Nat.iter (Pos.to_nat p) f x.
Proof.
  revert x. induction p as [p IH|p IH|]; intros x; cbn [SpecFloat.iter_pos].
  - rewrite !IH, Pos2Nat.inj_xI, <- Nat.iter_add, <- Nat.iter_succ_r.
    f_equal. lia.
  - rewrite !IH, Pos2Nat.inj_xO, <- Nat.iter_add. f_equal. lia.
  - reflexivity.
Qed.

Lemma shr_1_doubled (n : nat) (m : positive) :
  Nat.iter n shr_1 {| shr_m := Z.pos (Nat.iter n xO m); shr_r := false; shr_s := false |}
  = {| shr_m := Z.pos m; shr_r := false; shr_s := false |}.
Proof.
  induction n as [|n IH]; [reflexivity|].
  rewrite Nat.iter_succ_r. cbn [Nat.iter nat_rect shr_1 orb]. exact IH.
Qed.

Lemma shr_shifted (k m : positive) :
  SpecFloat.iter_pos shr_1 k
    {| shr_m := Z.pos (Pos.iter xO m k); shr_r := false; shr_s := false |}
  = {| shr_m := Z.pos m; shr_r := false; shr_s := false |}.
Proof. rewrite iter_pos_nat, Pos2Nat.inj_iter. apply shr_1_doubled. Qed.

Lemma size_doubled (n : nat) (m : positive) :
  Z.pos (Pos.size (Nat.iter n xO m)) = Z.pos (Pos.size m) + Z.of_nat n.
Proof.
  induction n as [|n IH]; [simpl; lia|].
  rewrite Nat.iter_succ. cbn [Pos.size]. rewrite Pos2Z.inj_succ, IH. lia.
Qed.

Lemma size_shifted (k m : positive) :
  Z.pos (Pos.size (Pos.iter xO m k)) = Z.pos (Pos.size m) + Z.pos k.
Proof.
  rewrite Pos2Nat.inj_iter, <- (positive_nat_Z k). apply size_doubled.
Qed.

Section Rounding.
Variables prec emax : Z.

(** A mantissa that is canonical already is left as it is. *)
Lemma binary_round_aux_canonical (s : bool) (m : positive) (e : Z) :
  canonical_mantissa prec emax m e = true -> e <= emax - prec ->
  binary_round_aux prec emax s (Z.pos m) e loc_Exact = S754_finite s m e.
Proof.
  unfold canonical_mantissa. intros Hc He. apply Z.eqb_eq in Hc.
  unfold binary_round_aux, shr_fexp. cbn [Zdigits2 shr_record_of_loc].
  rewrite Hc, Z.sub_diag. cbn [shr shr_m loc_of_shr_record round_nearest_even
                                 Zdigits2 shr_record_of_loc].
  rewrite Hc, Z.sub_diag. cbn [shr shr_m].
  destruct (Z.leb_spec e (emax - prec)); [reflexivity|lia].
Qed.

Lemma binary_round_canonical (s : bool) (m : positive) (e : Z) :
  canonical_mantissa prec emax m e = true -> e <= emax - prec ->
  binary_round prec emax s m e = S754_finite s m e.
Proof.
  intros Hc He. unfold binary_round, shl_align.
  pose proof Hc as Hfexp. unfold canonical_mantissa in Hfexp.
  apply Z.eqb_eq in Hfexp. rewrite Hfexp, Z.sub_diag.
  by apply binary_round_aux_canonical.
Qed.

(** A mantissa that is too short is shifted to the left. *)
Lemma binary_round_short (s : bool) (m k : positive) (e : Z) :
  fexp prec emax (Z.pos (digits2_pos m) + e) = e - Z.pos k ->
  e - Z.pos k <= emax - prec ->
  binary_round prec emax s m e = S754_finite s (Pos.iter xO m k) (e - Z.pos k).
Proof.
  intros Hfexp He. unfold binary_round, shl_align. rewrite Hfexp.
  replace (e - Z.pos k - e) with (Z.neg k) by lia.
  apply binary_round_aux_canonical; [|exact He].
  unfold canonical_mantissa. apply Z.eqb_eq.
  rewrite digits2_pos_size, size_shifted, <- digits2_pos_size.
  rewrite <- Hfexp at 2. f_equal. lia.
Qed.

(** A mantissa that is too long by zeros only is shifted to the right. *)
Lemma binary_round_long (s : bool) (m k : positive) (e : Z) :
  canonical_mantissa prec emax m e = true -> e <= emax - prec ->
  binary_round prec emax s (Pos.iter xO m k) (e - Z.pos k) = S754_finite s m e.
Proof.
  intros Hc He. pose proof Hc as Hfexp. unfold canonical_mantissa in Hfexp.
  apply Z.eqb_eq in Hfexp.
  assert (Hlong : fexp prec emax (Z.pos (digits2_pos (Pos.iter xO m k)) + (e - Z.pos k)) = e).
  { rewrite digits2_pos_size, size_shifted, <- digits2_pos_size.
    rewrite <- Hfexp at 2. f_equal. lia. }
  unfold binary_round, shl_align. rewrite Hlong.
  replace (e - (e - Z.pos k)) with (Z.pos k) by lia.
  unfold binary_round_aux, shr_fexp at 1. cbn [Zdigits2 shr_record_of_loc].
  rewrite Hlong. replace (e - (e - Z.pos k)) with (Z.pos k) by lia.
  cbn [shr]. rewrite shr_shifted.
  replace (e - Z.pos k + Z.pos k) with e by lia.
  cbn [shr_m loc_of_shr_record round_nearest_even].
  unfold shr_fexp. cbn [Zdigits2 shr_record_of_loc].
  rewrite Hfexp, Z.sub_diag. cbn [shr shr_m].
  destruct (Z.leb_spec e (emax - prec)); [reflexivity|lia].
Qed.
End Rounding.

(** ** Binary32 numbers as binary64 numbers *)

Lemma ldexp_of_positive (m : positive) (e : Z) :
  Z.pos m < 2 ^ 63 -> -2099 <= e <= 2098 ->
  Prim2SF (Z.ldexp (of_uint63 (Uint63.of_Z (Z.pos m))) e)
  = SFldexp prec emax (binary_round prec emax false m 0) e.
Proof.
  intros Hm He. unfold Z.ldexp.
  rewrite ldshiftexp_spec, of_uint63_spec, !Uint63.of_Z_spec.
  change Uint63.wB with (2 ^ 63). change (emax - emin) with 2098.
  change (emin - emax - 1) with (-2099). change FloatOps.shift with 2101.
  rewrite !Z.mod_small by lia.
  replace (Z.max (Z.min e 2098) (-2099) + 2101 - 2101) with e by lia.
  reflexivity.
Qed.

(** The binary64 number of a binary32 mantissa and exponent is the one of
    the mantissa shifted to 53 bits. *)
Lemma SF2Prim_shifted (s : bool) (m k : positive) (e : Z) :
  valid_binary (S754_finite s (Pos.iter xO m k) e) = true ->
  bounded 24 128 m (e + Z.pos k) = true ->
  SF2Prim (S754_finite s m (e + Z.pos k)) = SF2Prim (S754_finite s (Pos.iter xO m k) e).
Proof.
  intros Hvalid Hm. cbn [SpecFloat.valid_binary] in Hvalid.
  pose proof Hvalid as Hbounded. unfold bounded in Hbounded.
  apply andb_prop in Hbounded as [Hc He]. apply Z.leb_le in He.
  pose proof Hc as Hfexp. unfold canonical_mantissa, fexp, SpecFloat.emin in Hfexp.
  apply Z.eqb_eq in Hfexp. rewrite digits2_pos_size, size_shifted in Hfexp.
  apply (bounded_spec 23 8 ltac:(lia) ltac:(lia)) in Hm.
  change (2 ^ 23) with 8388608 in Hm. change (2 ^ (8 - 1)) with 128 in Hm.
  pose proof (size_bounds m) as [Hlow Hhigh].
  assert (Hd : Z.pos (Pos.size m) <= 24).
  { destruct (Z_le_gt_dec (Z.pos (Pos.size m)) 24) as [|Hgt]; [assumption|].
    assert (2 ^ 24 <= 2 ^ (Z.pos (Pos.size m) - 1)) by (apply Z.pow_le_mono_r; lia).
    change (2 ^ 24) with 16777216 in *. lia. }
  change prec with 53 in *. change emax with 1024 in *.
  assert (Hk : Z.pos k = 53 - Z.pos (Pos.size m)) by lia.
  assert (Hsmall : Z.pos m < 2 ^ 63) by (change (2 ^ 63) with 9223372036854775808; lia).
  assert (Hbig : Z.pos (Pos.iter xO m k) < 2 ^ 63).
  { pose proof (size_bounds (Pos.iter xO m k)) as [_ Hsize].
    rewrite size_shifted in Hsize.
    assert (2 ^ (Z.pos (Pos.size m) + Z.pos k) <= 2 ^ 63)
      by (apply Z.pow_le_mono_r; lia).
    lia. }
  assert (Hone : Prim2SF (Z.ldexp (of_uint63 (Uint63.of_Z (Z.pos m))) (e + Z.pos k))
                 = S754_finite false (Pos.iter xO m k) e).
  { rewrite ldexp_of_positive by lia.
    rewrite (binary_round_short prec emax false m k 0).
    - cbn [SFldexp]. replace (0 - Z.pos k + (e + Z.pos k)) with e by lia.
      apply binary_round_canonical; [exact Hc | exact He].
    - unfold fexp, SpecFloat.emin. rewrite digits2_pos_size.
      change prec with 53. change emax with 1024. lia.
    - change prec with 53. change emax with 1024. lia. }
  assert (Htwo : Prim2SF (Z.ldexp (of_uint63 (Uint63.of_Z (Z.pos (Pos.iter xO m k)))) e)
                 = S754_finite false (Pos.iter xO m k) e).
  { rewrite ldexp_of_positive by lia.
    rewrite (binary_round_canonical prec emax false (Pos.iter xO m k) 0).
    - cbn [SFldexp]. rewrite Z.add_0_l.
      apply binary_round_canonical; [exact Hc | exact He].
    - unfold canonical_mantissa, fexp, SpecFloat.emin. apply Z.eqb_eq.
      rewrite digits2_pos_size, size_shifted.
      change prec with 53. change emax with 1024. lia.
    - change prec with 53. change emax with 1024. lia. }
  unfold SF2Prim. rewrite (Prim2SF_inj _ _ (eq_trans Hone (eq_sym Htwo))).
  reflexivity.
Qed.

Lemma unpack_f_bits (x : spec_float) :
  SpecFloat.valid_binary 24 128 x = true ->
  unpack_f (be_bytes 4 (ieee_bits 23 8 x)) = Return (SF2Prim x).
Proof.
  intros Hvalid.
  destruct (ieee_value_bits 23 8 ltac:(lia) ltac:(lia) x Hvalid) as [Hback Hrange].
  unfold unpack_f. cbn [be_bytes].
  change [byte_at ?v (Z.of_nat 3); byte_at ?v (Z.of_nat 2);
          byte_at ?v (Z.of_nat 1); byte_at ?v (Z.of_nat 0)] with (be_bytes 4 v).
  rewrite of_be_bytes_be_bytes, Z.mod_small by exact Hrange.
  by rewrite Hback.
Qed.

(** A binary32 number goes through [pack] and [unpack] unchanged. *)
Lemma binary32_exact (x : float) : is_binary32 x -> binary32 x = Return x.
Proof.
  unfold is_binary32, binary32, pack_f.
  pose proof (Prim2SF_valid x) as Hvalid. pose proof (SF2Prim_Prim2SF x) as Hx.
  destruct (Prim2SF x) as [s|s| |s m e].
  - intros _. cbn [mbind outcome_bind]. by rewrite unpack_f_bits, Hx.
  - intros _. cbn [mbind outcome_bind]. by rewrite unpack_f_bits, Hx.
  - intros _. cbn [mbind outcome_bind]. by rewrite unpack_f_bits, Hx.
  - intros (m' & k & -> & Hm).
    pose proof Hm as Hbounded. unfold bounded in Hbounded.
    apply andb_prop in Hbounded as [Hc He]. apply Z.leb_le in He.
    replace e with (e + Z.pos k - Z.pos k) at 1 by lia.
    rewrite (binary_round_long 24 128 s m' k (e + Z.pos k) Hc He).
    cbn [mbind outcome_bind]. rewrite unpack_f_bits by exact Hm.
    by rewrite (SF2Prim_shifted s m' k e Hvalid Hm), Hx.
Qed.

(** ** Encoding, then decoding *)




(** ** The planner: where the entries are *)

Lemma spec_add_register_filed (requests requests' : list Request) (register : Register) :
  Forall (fun r => Forall filed (req_map r)) requests ->
  spec_add_register requests register = Return requests' ->
  Forall (fun r => Forall filed (req_map r)) requests'.
Proof.
  intros Hf. unfold spec_add_register.
  destruct (item reg_len (reg_format register)) as [len|err] eqn:Hlen;
    simpl; [|discriminate].
  assert (Hnew : filed (0, Poller.entry len register)) by (by repeat split).
  destruct (last requests) as [current|] eqn:Hl.
  - apply last_Some in Hl as [l' ->].
    apply Forall_app in Hf as [Hinit Hcur]. inversion Hcur as [|? ? Hc _]; subst.
    destruct (_ =? _); intros [= <-].
    + rewrite removelast_last. apply Forall_app. split; [assumption|].
      repeat constructor. simpl. apply Forall_app. split; [assumption|].
      by repeat constructor.
    + rewrite <- app_assoc. apply Forall_app. split; [assumption|].
      repeat constructor; [assumption|]. simpl. by repeat constructor.
  - intros [= <-]. by repeat constructor.
Qed.

Lemma spec_plan_filed (acc requests : list Request) (registers : list Register) :
  Forall (fun r => Forall filed (req_map r)) acc ->
  foldM spec_add_register acc registers = Return requests ->
  Forall (fun r => Forall filed (req_map r)) requests.
Proof.
  revert acc. induction registers as [|register registers IH]; intros acc Hf; simpl.
  - by intros [= <-].
  - destruct (spec_add_register acc register) as [acc'|err] eqn:Hstep;
      simpl; [|discriminate].
    apply IH. by eapply spec_add_register_filed.
Qed.

(** X1: every entry of every planned batch is placed. *)
Theorem planner_places_entries (registers : list Register) :
  Forall known registers ->
  exists requests : list Request,
    Poller.plan registers = Return requests /\
    Forall (fun r => Forall (placed r) (req_map r)) requests.
Proof.
  intros Hk.
  destruct (spec_plan_from [] registers) as (requests & Hrun & Hwf & _);
    [constructor | assumption |].
  exists requests. rewrite plan_spec_plan. split; [exact Hrun|].
  pose proof (spec_plan_filed [] requests registers ltac:(constructor) Hrun) as Hf.
  rewrite Forall_forall in Hwf, Hf |- *. intros r Hr.
  specialize (Hwf r Hr). specialize (Hf r Hr).
  apply chained_within in Hwf.
  rewrite Forall_forall in Hwf, Hf |- *. intros kv Hkv.
  destruct (Hwf kv Hkv) as (Haddr & Hpos & Hend).
  destruct (Hf kv Hkv) as (Hlen & Hid & Hcontent).
  unfold placed. repeat split; try assumption. lia.
Qed.

(** Extending the last batch by registers that follow it without a gap. *)
Lemma spec_plan_adjacent (registers : list Register) (acc : list Request)
    (current : Request) :
  adjacent (req_address current + req_quantity current) registers ->
  exists m : list (Z * MapEntry),
    foldM spec_add_register (acc ++ [current]) registers
      = Return (acc ++ [{| req_address := req_address current;
                           req_quantity := req_quantity current + width registers;
                           req_map := req_map current ++ m |}]) /\
    map (fun kv => entry_content kv.2) m = registers.
Proof.
  revert current. induction registers as [|r rs IH]; intros current Hadj.
  - exists []. simpl. rewrite Z.add_0_r, app_nil_r. by destruct current.
  - destruct Hadj as (Haddr & len & Hlen & Hrest).
    cbn [foldM]. unfold spec_add_register at 2. unfold item. rewrite Hlen.
    cbn [mbind outcome_bind]. rewrite last_snoc.
    rewrite Haddr, Z.eqb_refl, removelast_last. cbn [mbind outcome_bind].
    destruct (IH {| req_address := req_address current;
                    req_quantity := req_quantity current + len;
                    req_map := req_map current
                               ++ [(req_quantity current, Poller.entry len r)] |})
      as (m & Hrun & Hm); [simpl; by rewrite Z.add_assoc|].
    exists ((req_quantity current, Poller.entry len r) :: m).
    cbn [req_address req_quantity req_map] in Hrun. rewrite Hrun.
    split; [|simpl; by rewrite Hm].
    cbn [width foldr]. rewrite Hlen. cbn [default].
    fold (width rs). rewrite <- app_assoc. unfold id.
    by rewrite <- Z.add_assoc.
Qed.

(** X2: registers that follow one another without a gap are read by one
    batch, however many they are. *)
Theorem planner_one_batch (address : Z) (r : Register) (rs : list Register) :
  adjacent address (r :: rs) ->
  exists m : list (Z * MapEntry),
    Poller.plan (r :: rs)
      = Return [{| req_address := address; req_quantity := width (r :: rs);
                   req_map := m |}] /\
    map (fun kv => entry_content kv.2) m = r :: rs.
Proof.
  intros (Haddr & len & Hlen & Hrest). rewrite plan_spec_plan.
  unfold spec_plan. cbn [foldM]. unfold spec_add_register at 2. unfold item.
  rewrite Hlen. cbn [mbind outcome_bind last].
  destruct (spec_plan_adjacent rs []
              {| req_address := reg_address r; req_quantity := len;
                 req_map := [(0, Poller.entry len r)] |})
    as (m & Hrun & Hm); [by rewrite Haddr|].
  exists ((0, Poller.entry len r) :: m).
  cbn [app req_address req_quantity req_map] in Hrun. rewrite Hrun.
  split; [|simpl; by rewrite Hm].
  cbn [width foldr]. rewrite Hlen. cbn [default]. fold (width rs). unfold id.
  by rewrite Haddr.
Qed.

(** X3: a register of a format that [reg_len] does not know stops the
    planner with [KeyError], after the registers before it. *)
Theorem planner_unknown_format (before after : list Register) (r : Register) :
  Forall known before -> dict_get reg_len (reg_format r) = None ->
  Poller.plan (before ++ r :: after) = Raise (KeyError (reg_format r)).
Proof.
  intros Hk Hr. rewrite plan_spec_plan. unfold spec_plan.
  rewrite foldM_app.
  destruct (spec_plan_from [] before) as (requests & Hrun & _ & _);
    [constructor | assumption |].
  rewrite Hrun. cbn [mbind outcome_bind foldM].
  unfold spec_add_register, item. rewrite Hr. reflexivity.
Qed.

(** ** Assignment and lookup *)

Lemma dict_get_set {K V : Type} `{EqDecision K} (d : list (K * V)) (k : K) (v : V) :
  dict_get (dict_set d k v) k = Some v.
Proof.
  induction d as [|[k' v'] d IH]; simpl.
  - by rewrite decide_True.
  - destruct (decide (k' = k)) as [->|Hne]; simpl.
    + by rewrite decide_True.
    + by rewrite decide_False.
Qed.

Lemma dict_get_set_other {K V : Type} `{EqDecision K} (d : list (K * V))
    (k k' : K) (v : V) :
  k <> k' -> dict_get (dict_set d k v) k' = dict_get d k'.
Proof.
  intros Hne. induction d as [|[k0 v0] d IH]; simpl.
  - by rewrite decide_False.
  - destruct (decide (k0 = k)) as [->|Hk0]; simpl.
    + by rewrite !decide_False.
    + destruct (decide (k0 = k')); [reflexivity | exact IH].
Qed.

Lemma setter_loop_known (data : list (Z * list Register)) (self : Poller) :
  NoDup (dict_keys data) ->
  Forall (fun kv => Forall known kv.2) data ->
  exists self' : Poller,
    Poller.registers_setter_loop self data = (self', Return tt) /\
    _settings self' = _settings self /\
    _connection self' = _connection self /\
    (forall fn : Z, fn ∉ dict_keys data ->
       dict_get (_requests self') fn = dict_get (_requests self) fn) /\
    (forall (fn : Z) (registers : list Register), (fn, registers) ∈ data ->
       exists requests : list Request,
         Poller.plan registers = Return requests /\
         dict_get (_requests self') fn = Some requests).
Proof.
  revert self. induction data as [|[fn registers] data IH]; intros self Hnd Hk.
  - exists self. simpl. split; [reflexivity|]. split; [reflexivity|].
    split; [reflexivity|]. split; [reflexivity|].
    intros ? ? Hin. by apply elem_of_nil in Hin.
  - apply NoDup_cons in Hnd as [Hfresh Hnd].
    apply Forall_cons in Hk as [Hregs Hk].
    destruct (spec_plan_from [] registers) as (requests & Hrun & _ & _);
      [constructor | assumption |].
    rewrite <- plan_spec_plan in Hrun. fold (Poller.plan registers) in Hrun.
    cbn [Poller.registers_setter_loop]. rewrite Hrun.
    destruct (IH {| _settings := _settings self; _connection := _connection self;
                    _requests := dict_set (_requests self) fn requests |} Hnd Hk)
      as (self' & Hset & Hs & Hc & Hother & Hin).
    exists self'. split; [exact Hset|]. split; [exact Hs|]. split; [exact Hc|].
    split.
    + intros fn' Hfn'. apply not_elem_of_cons in Hfn' as [Hne Hfn'].
      rewrite (Hother fn' Hfn'). simpl. by apply dict_get_set_other.
    + intros fn' registers' Hmem. apply elem_of_cons in Hmem as [[= -> ->]|Hmem].
      * exists requests. split; [exact Hrun|].
        rewrite (Hother fn Hfresh). simpl. apply dict_get_set.
      * by apply Hin.
Qed.

(** X4: the setter plans every function code of [data] from scratch and
    leaves the batches of every other function code, the settings and the
    connection as they were. *)
Theorem setter_replaces_by_function (data : list (Z * list Register)) (self : Poller) :
  NoDup (dict_keys data) ->
  Forall (fun kv => Forall known kv.2) data ->
  exists self' : Poller,
    Poller.registers_setter self data = Return self' /\
    _settings self' = _settings self /\
    _connection self' = _connection self /\
    (forall fn : Z, fn ∉ dict_keys data ->
       dict_get (_requests self') fn = dict_get (_requests self) fn) /\
    (forall (fn : Z) (registers : list Register), (fn, registers) ∈ data ->
       exists requests : list Request,
         Poller.plan registers = Return requests /\
         dict_get (_requests self') fn = Some requests).
Proof.
  intros Hnd Hk.
  destruct (setter_loop_known data self Hnd Hk) as (self' & Hset & Hrest).
  exists self'. split; [|exact Hrest].
  unfold Poller.registers_setter. by rewrite Hset.
Qed.

(** X1, witness: a Signed register and a Long register behind it. *)
Lemma planner_places_entries_witness :
  exists requests : list Request,
    Poller.plan [register_at 0 "Signed" []; register_at 1 "Long AB CD" []]
      = Return requests /\
    Forall (fun r => Forall (placed r) (req_map r)) requests.
Proof.
  apply (planner_places_entries
           [register_at 0 "Signed" []; register_at 1 "Long AB CD" []]).
  repeat constructor; eexists; reflexivity.
Defined.

(** X2, witness: a Signed, a Long and a Double register from address 0 on:
    one batch of seven words. *)
Lemma planner_one_batch_witness :
  exists m : list (Z * MapEntry),
    Poller.plan [register_at 0 "Signed" []; register_at 1 "Long AB CD" [];
                 register_at 3 "Double AB CD EF GH" []]
      = Return [{| req_address := 0; req_quantity := 7; req_map := m |}] /\
    map (fun kv => entry_content kv.2) m
      = [register_at 0 "Signed" []; register_at 1 "Long AB CD" [];
         register_at 3 "Double AB CD EF GH" []].
Proof.
  apply (planner_one_batch 0 (register_at 0 "Signed" [])
           [register_at 1 "Long AB CD" []; register_at 3 "Double AB CD EF GH" []]).
  simpl. split; [reflexivity|]. exists 1. split; [reflexivity|].
  split; [reflexivity|]. exists 2. split; [reflexivity|].
  split; [reflexivity|]. exists 4. split; [reflexivity|]. exact I.
Defined.

(** X3, witness: the format [Word] between two Signed registers. *)
Lemma planner_unknown_format_witness :
  Poller.plan [register_at 0 "Signed" []; register_at 1 "Word" [];
               register_at 2 "Signed" []] = Raise (KeyError "Word").
Proof.
  apply (planner_unknown_format [register_at 0 "Signed" []]
           [register_at 2 "Signed" []] (register_at 1 "Word" [])).
  - repeat constructor. eexists. reflexivity.
  - reflexivity.
Defined.

(** X4, witness: new holding registers for a Poller that has batches for the
    function codes 3 and 4. *)
Lemma setter_replaces_by_function_witness :
  exists self' : Poller,
    Poller.registers_setter (connected ((4, []) :: one_batch))
        [(3, [register_at 7 "Unsigned" []])] = Return self' /\
    _settings self' = 1%positive /\
    _connection self' = Some (ModbusTcpClient (PyStr "192.168.1.1")) /\
    dict_get (_requests self') 4 = Some [] /\
    exists requests : list Request,
      Poller.plan [register_at 7 "Unsigned" []] = Return requests /\
      dict_get (_requests self') 3 = Some requests.
Proof.
  destruct (setter_replaces_by_function [(3, [register_at 7 "Unsigned" []])]
              (connected ((4, []) :: one_batch)))
    as (self' & Hset & Hs & Hc & Hother & Hin).
  - repeat constructor. intros Hin. by apply elem_of_nil in Hin.
  - repeat constructor. eexists. reflexivity.
  - exists self'. split; [exact Hset|]. split; [exact Hs|]. split; [exact Hc|].
    split.
    + rewrite (Hother 4); [reflexivity|].
      intros Hin4. apply elem_of_cons in Hin4 as [Hin4|Hin4];
        [discriminate | by apply elem_of_nil in Hin4].
    + apply Hin. by left.
Defined.

(** ** The cycle on the wire *)

Lemma wired_refl (w : world) : wired [] w w.
Proof. split; [reflexivity | by rewrite app_nil_r]. Qed.

Lemma wired_trans (ops ops' : list wire_op) (w1 w2 w3 : world) :
  wired ops w1 w2 -> wired ops' w2 w3 -> wired (ops ++ ops') w1 w3.
Proof.
  intros [Hd Ht] [Hd' Ht']. split; [congruence|].
  by rewrite Ht', Ht, app_assoc.
Qed.

Lemma wire_ops_snoc (t : list event) (e : event) :
  wire_ops (t ++ [e]) = wire_ops t ++ match e with Wire op => [op] | _ => [] end.
Proof. unfold wire_ops. rewrite omap_app. simpl. by destruct e. Qed.

Lemma transact_wired (op : wire_op) (w w' : world) (r : reply) :
  transact op w = (w', Return r) -> wired [op] w w'.
Proof.
  unfold transact. destruct (incoming w) as [|[r0 delay] rest]; intros [= <- _];
    (split; [reflexivity|]); simpl; by rewrite wire_ops_snoc.
Qed.

Lemma concat_singletons {A B : Type} (f : A -> B) (l : list A) :
  concat (map (fun x => [f x]) l) = map f l.
Proof. induction l as [|x l IH]; simpl; congruence. Qed.

Section CycleTrace.
Context `{LibM}.

Lemma slave_id_spec (self : Poller) (w : world) :
  Poller.slave_id self w = (w, (Poller.slave_id self w).2).
Proof. reflexivity. Qed.

Lemma slave_id_dicts (self : Poller) (w w' : world) :
  dicts w' = dicts w -> (Poller.slave_id self w').2 = (Poller.slave_id self w).2.
Proof.
  intros Hd. unfold Poller.slave_id, Poller._get, store_get, ask, mbind, io_bind.
  simpl. by rewrite Hd.
Qed.

(** A read that returns has gone over the wire once, for a function code 1
    to 4, and not at all for another. *)
Lemma poll_wired (self : Poller) (fn address quantity : Z) (w w' : world)
    (slave : pyval) (response : option (list Z)) :
  (Poller.slave_id self w).2 = Return slave ->
  Poller._poll self fn address quantity w = (w', Return response) ->
  wired (if bool_decide (fn ∈ [1; 2; 3; 4])
         then [Read fn address quantity slave] else []) w w'.
Proof.
  intros Hslave. unfold Poller._poll, mbind, io_bind.
  rewrite slave_id_spec, Hslave.
  destruct (bool_decide (fn ∈ [1; 2; 3; 4])); [|intros [= <- _]; apply wired_refl].
  destruct (_connection self); [|discriminate].
  destruct (transact _ w) as [w1 [r|e]] eqn:Hwire; [|discriminate].
  apply transact_wired in Hwire.
  destruct r as [data| |e]; [| |destruct e]; try discriminate.
  - destruct (bool_decide (fn ∈ [1; 2])); by intros [= <- _].
  - by intros [= <- _].
  - by intros [= <- _].
Qed.

Lemma read_entry_world (fn : Z) (response : option (list Z))
    (st : Poller.cycle_state) (kv : Z * MapEntry) (w w' : world)
    (st' : Poller.cycle_state) :
  Poller.read_entry fn response st kv w = (w', Return st') -> w' = w.
Proof.
  unfold Poller.read_entry. destruct st as [[result br] bc], kv as [pos register].
  unfold mbind, io_bind, lift, now, ask; simpl.
  destruct (item reg_len _) as [len|e]; simpl; [|discriminate].
  destruct (Poller.decode_value _ _ _) as [v|e]; simpl; [|discriminate].
  by intros [= <- _].
Qed.

Lemma each_world {A B : Type} (f : A -> B -> io A) (l : list B) :
  (forall a b w w' a', f a b w = (w', Return a') -> w' = w) ->
  forall a w w' a', Poller.each f a l w = (w', Return a') -> w' = w.
Proof.
  intros Hf. induction l as [|b l IH]; intros a w w' a'; simpl.
  - by intros [= <- _].
  - unfold mbind, io_bind. destruct (f a b w) as [w1 [a1|e]] eqn:Hstep;
      [|discriminate].
    intros Hrest. rewrite (IH _ _ _ _ Hrest). by eapply Hf.
Qed.

Lemma each_wired {A B : Type} (f : A -> B -> io A) (ops : B -> list wire_op)
    (D : gmap loc (gmap string pyval)) (l : list B) :
  (forall a b w w' a', dicts w = D -> f a b w = (w', Return a') ->
                       wired (ops b) w w') ->
  forall a w w' a', dicts w = D -> Poller.each f a l w = (w', Return a') ->
                    wired (concat (map ops l)) w w'.
Proof.
  intros Hf. induction l as [|b l IH]; intros a w w' a' HD; simpl.
  - intros [= <- _]. apply wired_refl.
  - unfold mbind, io_bind. destruct (f a b w) as [w1 [a1|e]] eqn:Hstep;
      [|discriminate].
    intros Hrest. pose proof (Hf _ _ _ _ _ HD Hstep) as Hone.
    eapply wired_trans; [exact Hone|].
    eapply IH; [|exact Hrest]. destruct Hone as [Hd _]. congruence.
Qed.

Lemma read_request_wired (self : Poller) (fn : Z) (st st' : Poller.cycle_state)
    (request : Request) (w w' : world) (slave : pyval) :
  (Poller.slave_id self w).2 = Return slave ->
  Poller.read_request self fn st request w = (w', Return st') ->
  wired (if bool_decide (fn ∈ [1; 2; 3; 4])
         then [Read fn (req_address request) (req_quantity request) slave]
         else []) w w'.
Proof.
  intros Hslave. unfold Poller.read_request. destruct st as [[result br] bc].
  unfold mbind, io_bind.
  destruct (Poller._poll _ _ _ _ w) as [w1 [response|e]] eqn:Hpoll; [|discriminate].
  intros Hmap. apply (poll_wired _ _ _ _ _ _ slave) in Hpoll; [|exact Hslave].
  by rewrite (each_world _ _ (read_entry_world fn response) _ _ _ _ Hmap).
Qed.

Lemma read_function_wired (self : Poller) (st st' : Poller.cycle_state)
    (kv : Z * list Request) (w w' : world) (slave : pyval) :
  (Poller.slave_id self w).2 = Return slave ->
  Poller.read_function self st kv w = (w', Return st') ->
  wired (function_reads slave kv) w w'.
Proof.
  intros Hslave. unfold Poller.read_function, function_reads.
  destruct kv as [fn requests]. simpl. intros Hloop.
  pose proof (each_wired (Poller.read_request self fn)
                (fun r => if bool_decide (fn ∈ [1; 2; 3; 4])
                          then [Read fn (req_address r) (req_quantity r) slave]
                          else []) (dicts w) requests) as Heach.
  specialize (Heach
    (fun a b w0 w0' a' HD Hstep =>
       read_request_wired self fn a a' b w0 w0' slave
         (eq_trans (slave_id_dicts self w w0 HD) Hslave) Hstep)
    st w w' st' eq_refl Hloop).
  destruct (bool_decide (fn ∈ [1; 2; 3; 4])).
  - replace (map _ requests)
      with (map (fun r => [Read fn (req_address r) (req_quantity r) slave]) requests)
      in Heach by reflexivity.
    by rewrite concat_singletons in Heach.
  - replace (concat (map _ requests)) with (@nil wire_op) in Heach; [exact Heach|].
    clear. induction requests; simpl; congruence.
Qed.

(** X5: a cycle that returns has read every batch of the function codes 1 to
    4 once, in order, with the batch's address and quantity. *)
Theorem cycle_reads_each_batch_once (self : Poller) (w w' : world) (slave : pyval)
    (result : list Row) :
  (Poller.slave_id self w).2 = Return slave ->
  Poller.registers self w = (w', Return (Some result)) ->
  wire_ops (trace w') = wire_ops (trace w) ++ cycle_reads slave self.
Proof.
  intros Hslave Hrun.
  unfold Poller.registers in Hrun.
  destruct (Poller.registers_body self w) as [w1 [rs|e]] eqn:Hbody.
  - injection Hrun as <- _. unfold Poller.registers_body, mbind, io_bind in Hbody.
    destruct (Poller.each _ _ _ w) as [w2 [[[rs' br] bc]|e]] eqn:Hloop;
      [|discriminate].
    assert (w1 = w2) as ->.
    { revert Hbody. destruct br, bc; simpl; try discriminate. by intros [= <- _]. }
    pose proof (each_wired (Poller.read_function self) (function_reads slave)
                  (dicts w) (_requests self)) as Heach.
    specialize (Heach
      (fun a b w0 w0' a' HD Hstep =>
         read_function_wired self a a' b w0 w0' slave
           (eq_trans (slave_id_dicts self w w0 HD) Hslave) Hstep)
      _ w w2 _ eq_refl Hloop).
    exact (proj2 Heach).
  - by destruct e.
Qed.

(** *** The rows of a cycle *)

Lemma each_headings {B : Type} (f : Poller.cycle_state -> B -> io Poller.cycle_state)
    (hs : B -> list heading) (l : list B) :
  (forall st b w w' st', f st b w = (w', Return st') ->
     map row_heading (rows st') = map row_heading (rows st) ++ hs b /\
     (Forall (fun r => Poller.truthy (row_response r) = true) (rows st) ->
      Forall (fun r => Poller.truthy (row_response r) = true) (rows st'))) ->
  forall st w w' st',
    Poller.each f st l w = (w', Return st') ->
    map row_heading (rows st') = map row_heading (rows st) ++ concat (map hs l) /\
    (Forall (fun r => Poller.truthy (row_response r) = true) (rows st) ->
     Forall (fun r => Poller.truthy (row_response r) = true) (rows st')).
Proof.
  intros Hf. induction l as [|b l IH]; intros st w w' st'; simpl.
  - intros [= <- <-]. by rewrite app_nil_r.
  - unfold mbind, io_bind. destruct (f st b w) as [w1 [st1|e]] eqn:Hstep;
      [|discriminate].
    intros Hrest. destruct (Hf _ _ _ _ _ Hstep) as [Hone Hkeep].
    destruct (IH _ _ _ _ Hrest) as [Hall Hkeeps].
    split; [by rewrite Hall, Hone, app_assoc | auto].
Qed.

Lemma read_entry_heading (fn : Z) (response : option (list Z))
    (st : Poller.cycle_state) (kv : Z * MapEntry) (w w' : world)
    (st' : Poller.cycle_state) :
  Poller.read_entry fn response st kv w = (w', Return st') ->
  map row_heading (rows st')
    = map row_heading (rows st) ++ [register_heading fn (entry_content kv.2)] /\
  (Forall (fun r => Poller.truthy (row_response r) = true) (rows st) ->
   Forall (fun r => Poller.truthy (row_response r) = true) (rows st')).
Proof.
  unfold Poller.read_entry. destruct st as [[result br] bc], kv as [pos register].
  unfold mbind, io_bind, lift, now, ask; simpl.
  destruct (item reg_len _) as [len|e]; simpl; [|discriminate].
  destruct (Poller.truthy response) eqn:Htruthy.
  - destruct (Poller.decode_value _ _ _) as [v|e]; simpl; [|discriminate].
    intros [= <- <-]. unfold rows; simpl. rewrite map_app. split; [reflexivity|].
    intros Hrows. apply Forall_app. split; [assumption|]. by repeat constructor.
  - discriminate.
Qed.

Lemma read_request_heading (self : Poller) (fn : Z) (st : Poller.cycle_state)
    (request : Request) (w w' : world) (st' : Poller.cycle_state) :
  Poller.read_request self fn st request w = (w', Return st') ->
  map row_heading (rows st')
    = map row_heading (rows st) ++ request_headings fn request /\
  (Forall (fun r => Poller.truthy (row_response r) = true) (rows st) ->
   Forall (fun r => Poller.truthy (row_response r) = true) (rows st')).
Proof.
  unfold Poller.read_request. destruct st as [[result br] bc].
  unfold mbind, io_bind.
  destruct (Poller._poll _ _ _ _ w) as [w1 [response|e]]; [|discriminate].
  intros Hmap.
  destruct (each_headings _ (fun kv => [register_heading fn (entry_content kv.2)])
              _ (read_entry_heading fn response) _ _ _ _ Hmap) as [Hall Hkeep].
  unfold request_headings. by rewrite concat_singletons in Hall.
Qed.

Lemma read_function_heading (self : Poller) (st : Poller.cycle_state)
    (kv : Z * list Request) (w w' : world) (st' : Poller.cycle_state) :
  Poller.read_function self st kv w = (w', Return st') ->
  map row_heading (rows st')
    = map row_heading (rows st) ++ concat (map (request_headings kv.1) kv.2) /\
  (Forall (fun r => Poller.truthy (row_response r) = true) (rows st) ->
   Forall (fun r => Poller.truthy (row_response r) = true) (rows st')).
Proof.
  unfold Poller.read_function. destruct kv as [fn requests]. simpl.
  apply each_headings. apply read_request_heading.
Qed.

(** X6: the rows that a cycle returns are the rows of the configured
    registers, in the order of the batches, and each of them carries a
    response that is not empty. *)
Theorem cycle_rows_follow_configuration (self : Poller) (w w' : world)
    (result : list Row) :
  Poller.registers self w = (w', Return (Some result)) ->
  map row_heading result = headings self /\
  Forall (fun r => Poller.truthy (row_response r) = true) result.
Proof.
  unfold Poller.registers, Poller.registers_body, mbind, io_bind.
  destruct (Poller.each _ _ _ w) as [w1 [[[rs br] bc]|e]] eqn:Hloop; simpl.
  - destruct (each_headings _ _ _ (read_function_heading self) _ _ _ _ Hloop)
      as [Hall Hkeep].
    unfold rows in Hall, Hkeep; simpl in Hall, Hkeep.
    destruct br, bc; simpl; try discriminate. intros [= <- <-].
    split; [exact Hall | apply Hkeep; constructor].
  - by destruct e.
Qed.

(** X7: a Poller with no batch to read raises [UnboundLocalError] when its
    registers are read, and the wire is not used. *)
Theorem cycle_without_batches_raises (self : Poller) (w : world) :
  Forall (fun kv => kv.2 = []) (_requests self) ->
  Poller.registers self w = (w, Raise UnboundLocalError).
Proof.
  intros Hempty. unfold Poller.registers, Poller.registers_body, mbind, io_bind.
  assert (Hloop : Poller.each (Poller.read_function self) ([], false, false)
                    (_requests self) w = (w, Return ([], false, false))).
  { induction Hempty as [|[fn requests] l Hnil _ IH]; [reflexivity|].
    simpl in Hnil. subst requests. simpl. unfold mbind, io_bind. simpl. exact IH. }
  by rewrite Hloop.
Qed.
End CycleTrace.

(** X5, witness: two batches of one Signed register each, both answered. *)
Lemma cycle_reads_each_batch_once_witness :
  wire_ops (trace (@Poller.registers no_pow (connected two_batches)
                     (world_with [(Response [7], 20); (Response [9], 30)])).1)
    = wire_ops (trace (world_with [(Response [7], 20); (Response [9], 30)]))
      ++ [Read 3 0 1 (PyInt 1); Read 3 5 1 (PyInt 1)].
Proof.
  apply (@cycle_reads_each_batch_once no_pow (connected two_batches)
           (world_with [(Response [7], 20); (Response [9], 30)])
           (@Poller.registers no_pow (connected two_batches)
              (world_with [(Response [7], 20); (Response [9], 30)])).1
           (PyInt 1)
           [{| row_device := "device 1"; row_id := "20f9f032";
               row_address := 0; row_name := "Name 1"; row_code := "Code1";
               row_format := "Signed"; row_value := PyStr "7.00";
               row_response := Some [7]; row_timestamp := 20;
               row_changed := true; row_fn := 3; row_guid := "d3d8ab61" |};
            {| row_device := "device 1"; row_id := "20f9f032";
               row_address := 5; row_name := "Name 1"; row_code := "Code1";
               row_format := "Signed"; row_value := PyStr "9.00";
               row_response := Some [9]; row_timestamp := 50;
               row_changed := true; row_fn := 3; row_guid := "d3d8ab61" |}]);
    [reflexivity | vm_compute; reflexivity].
Defined.

(** X6, witness: one batch of one Signed register, answered with 7. *)
Lemma cycle_rows_follow_configuration_witness :
  map row_heading
      [{| row_device := "device 1"; row_id := "20f9f032";
          row_address := 0; row_name := "Name 1"; row_code := "Code1";
          row_format := "Signed"; row_value := PyStr "7.00";
          row_response := Some [7]; row_timestamp := 200;
          row_changed := true; row_fn := 3; row_guid := "d3d8ab61" |}]
    = headings (connected one_batch) /\
  Forall (fun r => Poller.truthy (row_response r) = true)
      [{| row_device := "device 1"; row_id := "20f9f032";
          row_address := 0; row_name := "Name 1"; row_code := "Code1";
          row_format := "Signed"; row_value := PyStr "7.00";
          row_response := Some [7]; row_timestamp := 200;
          row_changed := true; row_fn := 3; row_guid := "d3d8ab61" |}].
Proof.
  apply (@cycle_rows_follow_configuration no_pow (connected one_batch)
           (world_with [(Response [7], 200)])
           (@Poller.registers no_pow (connected one_batch)
              (world_with [(Response [7], 200)])).1).
  vm_compute. reflexivity.
Defined.

(** X7, witness: a Poller whose only function code has no register. *)
Lemma cycle_without_batches_raises_witness :
  @Poller.registers no_pow (connected [(3, [])]) (world_with [(Response [7], 20)])
    = (world_with [(Response [7], 20)], Raise UnboundLocalError).
Proof.
  apply (@cycle_without_batches_raises no_pow (connected [(3, [])])).
  by repeat constructor.
Defined.

(** ** The worker from start to stop *)

Section WorkerRun.
Context `{LibM}.

Lemma get_spec (self : Poller) (name : string) (w : world) :
  Poller._get self name w
  = (w, Return (default PyNone (settings_at (_settings self) w !! name))).
Proof. reflexivity. Qed.

(** X8: settings that name no protocol, or TCP without an address, give no
    connection: [connect] raises [AttributeError], and so does the worker's
    [run], before anything is polled or emitted. *)
Theorem connect_needs_settings (self : Worker) (p : Poller) (w : world) (fuel : nat) :
  _poller self = Some p ->
  settings_at (_settings p) w !! "protocol"%string = None \/
  (settings_at (_settings p) w !! "protocol"%string = Some (PyStr "TCP") /\
   (settings_at (_settings p) w !! "ip"%string = None \/
    settings_at (_settings p) w !! "ip"%string = Some (PyStr ""))) ->
  Poller.connect p w = (w, Raise AttributeError) /\
  PollingWorker.run fuel self w = (w, Raise AttributeError).
Proof.
  intros Hp Hsettings.
  assert (Hconnect : Poller.connect p w = (w, Raise AttributeError)).
  { unfold Poller.connect, Poller._get_connection, mbind, io_bind.
    rewrite get_spec.
    destruct Hsettings as [-> | [-> [Hip|Hip]]]; cbn [default id];
      [reflexivity | rewrite get_spec, Hip; reflexivity..]. }
  split; [exact Hconnect|].
  unfold PollingWorker.run, PollingWorker.poller, mbind, io_bind.
  rewrite Hp. simpl. by rewrite Hconnect.
Qed.

(** X9: the loop looks at the stop flag only after the sleep: a worker that
    is told to stop from the start still polls once, emits the result,
    sleeps, and only then disconnects and emits [finished]. *)
Theorem worker_stops_after_a_cycle (self : Worker) (p p1 : Poller) (w w1 w2 : world)
    (registers : option (list Row)) (fuel : nat) :
  _poller self = Some p -> 0 <= sleep self ->
  (forall w' : world, polling self w' = false) ->
  Poller.connect p w = (w1, Return p1) ->
  Poller.registers p1 w1 = (w2, Return registers) ->
  exists w3 : world,
    PollingWorker.run (S fuel) self w = (w3, Return true) /\
    trace w3 = trace w2 ++
      [EmitResult (guid self) registers;
       Msleep (sleep_for (sleep self) (clock w2 - clock w1));
       EmitFinished (guid self)].
Proof.
  intros Hp HT Hstop Hconnect Hregs.
  assert (Hsleep : 0 <= sleep (with_exec_time (with_poller self p1)
                                 (clock w2 - clock w1))) by exact HT.
  eexists. split.
  - unfold PollingWorker.run, PollingWorker.poller at 1, mbind at 1 2, io_bind at 1 2.
    rewrite Hp. cbn [mret io_ret]. rewrite Hconnect.
    cbn [PollingWorker.loop]. unfold mbind at 1 2, io_bind at 1 2.
    unfold PollingWorker.cycle, PollingWorker.poller. cbn [with_poller _poller guid].
    unfold mbind, io_bind, now, ask, emit. cbn [with_poller _poller guid mret io_ret].
    rewrite Hregs. cbn [log clock].
    rewrite (Worker_run_spec _ _ Hsleep).
    cbn [with_exec_time with_poller sleep _exec_time polling guid trace clock].
    rewrite Hstop. unfold Poller.disconnect. cbn [mret io_ret log trace].
    reflexivity.
  - cbn [trace log guid with_exec_time with_poller]. by rewrite <- !app_assoc.
Qed.
End WorkerRun.

(** X8, witness: TCP settings with an empty address. *)
Lemma connect_needs_settings_witness :
  Poller.connect (connected one_batch)
      {| dicts := {[ 1%positive := {[ "protocol" := PyStr "TCP"; "ip" := PyStr "" ]} ]};
         clock := 0; incoming := []; trace := [] |}
    = ({| dicts := {[ 1%positive := {[ "protocol" := PyStr "TCP"; "ip" := PyStr "" ]} ]};
          clock := 0; incoming := []; trace := [] |}, Raise AttributeError) /\
  @PollingWorker.run no_pow 3 (worker_of (connected one_batch) 1000 0)
      {| dicts := {[ 1%positive := {[ "protocol" := PyStr "TCP"; "ip" := PyStr "" ]} ]};
         clock := 0; incoming := []; trace := [] |}
    = ({| dicts := {[ 1%positive := {[ "protocol" := PyStr "TCP"; "ip" := PyStr "" ]} ]};
          clock := 0; incoming := []; trace := [] |}, Raise AttributeError).
Proof.
  apply (@connect_needs_settings no_pow (worker_of (connected one_batch) 1000 0)
           (connected one_batch)); [reflexivity|].
  right. split; [reflexivity|]. right. reflexivity.
Defined.

(** X9, witness: a worker that is told to stop, an interval of 1000 ms and
    a poll that takes 200 ms. *)
Lemma worker_stops_after_a_cycle_witness :
  exists w3 : world,
    @PollingWorker.run no_pow 1
        {| sleep := 1000; guid := "d3d8ab61"; _poller := Some (connected one_batch);
           _exec_time := 0; polling := fun _ => false |}
        (world_with [(Response [7], 200)]) = (w3, Return true) /\
    trace w3 =
      trace (@Poller.registers no_pow (connected one_batch)
               (world_with [(Response [7], 200)])).1 ++
      [EmitResult "d3d8ab61"
         (Some [{| row_device := "device 1"; row_id := "20f9f032";
                   row_address := 0; row_name := "Name 1"; row_code := "Code1";
                   row_format := "Signed"; row_value := PyStr "7.00";
                   row_response := Some [7]; row_timestamp := 200;
                   row_changed := true; row_fn := 3; row_guid := "d3d8ab61" |}]);
       Msleep (sleep_for 1000 (200 - 0));
       EmitFinished "d3d8ab61"].
Proof.
  apply (@worker_stops_after_a_cycle no_pow
           {| sleep := 1000; guid := "d3d8ab61"; _poller := Some (connected one_batch);
              _exec_time := 0; polling := fun _ => false |}
           (connected one_batch) (connected one_batch)
           (world_with [(Response [7], 200)]) (world_with [(Response [7], 200)])
           (@Poller.registers no_pow (connected one_batch)
              (world_with [(Response [7], 200)])).1
           (Some [{| row_device := "device 1"; row_id := "20f9f032";
                     row_address := 0; row_name := "Name 1"; row_code := "Code1";
                     row_format := "Signed"; row_value := PyStr "7.00";
                     row_response := Some [7]; row_timestamp := 200;
                     row_changed := true; row_fn := 3; row_guid := "d3d8ab61" |}]) 0);
    [reflexivity | simpl; lia | reflexivity | vm_compute; reflexivity
    | vm_compute; reflexivity].
Defined.

(** ** Decoding, then encoding *)

Lemma uint16_registers (n : Z) :
  0 <= n <= 65535 -> Encoder._16bit_uint (PyInt n) Big = Return [n].
Proof.
  intros Hn. assert (Hin : (0 <=? n) && (n <=? 65535) = true) by lia.
  unfold Encoder._16bit_uint, BinaryPayloadBuilder.add_16bit_uint, pack_H, py_int.
  cbn [mbind outcome_bind]. rewrite Hin. cbn [mbind outcome_bind ordered].
  by rewrite to_registers_word, Z.mod_small by lia.
Qed.

Lemma int16_registers (n : Z) :
  -32768 <= n <= 32767 -> Encoder._16bit_int (PyInt n) Big = Return [n mod 65536].
Proof.
  intros Hn. assert (Hin : (-32768 <=? n) && (n <=? 32767) = true) by lia.
  unfold Encoder._16bit_int, BinaryPayloadBuilder.add_16bit_int, pack_h, py_int.
  cbn [mbind outcome_bind]. rewrite Hin. cbn [mbind outcome_bind ordered].
  by rewrite to_registers_word.
Qed.

Lemma b2z_of_bit (v : Z) : 0 <= v < 2 -> Z.b2z (v =? 1) = v.
Proof. intros Hv. assert (v = 0 \/ v = 1) as [-> | ->] by lia; reflexivity. Qed.

(** A word is the number of sixteen bits. *)
Lemma word_bits (w : Z) :
  0 <= w <= 65535 ->
  exists bits : list bool, length bits = 16%nat /\ of_digits 2 (map Z.b2z bits) = w.
Proof.
  intros Hw.
  pose proof (length_digits 2 w 15 ltac:(lia) ltac:(lia) ltac:(simpl; lia)) as Hlen.
  pose proof (digits_range 2 w ltac:(lia) ltac:(lia)) as Hds.
  set (ds := digits 2 w) in *.
  exists (map (fun v => v =? 1) (repeat 0 (16 - length ds) ++ ds)). split.
  - rewrite length_map, length_app, repeat_length. lia.
  - rewrite map_map.
    assert (Hbits : Forall (fun v => 0 <= v < 2) (repeat 0 (16 - length ds) ++ ds)).
    { apply Forall_app. split; [|exact Hds].
      apply Forall_forall. intros v Hv. apply list_elem_of_In, repeat_spec in Hv. lia. }
    replace (map (fun v => Z.b2z (v =? 1)) (repeat 0 (16 - length ds) ++ ds))
      with (repeat 0 (16 - length ds) ++ ds).
    + rewrite of_digits_zeros. apply of_digits_digits; lia.
    + induction Hbits as [|v vs Hv _ IH]; [reflexivity|].
      simpl. by rewrite (b2z_of_bit v Hv), <- IH.
Qed.

Lemma word_bytes (w : Z) :
  0 <= w <= 65535 -> exists a b : Z, is_byte a /\ is_byte b /\ w = a * 256 + b.
Proof.
  intros Hw. exists (w / 256), (w mod 256). unfold is_byte.
  pose proof (Z.mod_pos_bound w 256 ltac:(lia)).
  pose proof (Z.div_mod w 256 ltac:(lia)).
  assert (0 <= w / 256) by (apply Z.div_pos; lia).
  assert (w / 256 < 256) by (apply Z.div_lt_upper_bound; lia).
  lia.
Qed.

Lemma unsigned_back (w : Z) :
  0 <= w <= 65535 -> Decoder.unsigned [w] ≫= Encoder.unsigned = Return (Some [w]).
Proof.
  intros Hw. assert (Hin : (0 <=? w) && (w <=? 65535) = true) by lia.
  unfold Decoder.unsigned, Decoder.item0. cbn [mbind outcome_bind].
  unfold Encoder.unsigned, in_range. rewrite Hin. cbn [mbind outcome_bind].
  by rewrite uint16_registers.
Qed.

Lemma signed_back (w : Z) :
  0 <= w <= 65535 -> Decoder.signed [w] ≫= Encoder.signed = Return (Some [w]).
Proof.
  intros Hw. unfold Decoder.signed, Decoder.item0. cbn [mbind outcome_bind].
  set (n := if w >? 32767 then w - 65536 else w).
  assert (Hn : -32768 <= n <= 32767) by (unfold n; destruct (w >? 32767) eqn:E; lia).
  assert (Hmod : n mod 65536 = w).
  { unfold n. destruct (w >? 32767) eqn:E.
    - rewrite <- (Z.mod_add _ 1) by lia.
      replace (w - 65536 + 1 * 65536) with w by lia. apply Z.mod_small. lia.
    - apply Z.mod_small. lia. }
  assert (Hin : (-32768 <=? n) && (n <=? 32767) = true) by lia.
  unfold Encoder.signed, in_range. rewrite Hin. cbn [mbind outcome_bind].
  by rewrite int16_registers, Hmod.
Qed.

Lemma hex_back (w : Z) :
  0 <= w <= 65535 -> Decoder.hex_ascii [w] ≫= Encoder.hex_ascii = Return (Some [w]).
Proof.
  intros Hw. destruct (hex_word w Hw) as [Hpattern Hvalue].
  unfold Decoder.hex_ascii, Decoder.item0. cbn [mbind outcome_bind].
  unfold Encoder.hex_ascii. rewrite Hpattern, Hvalue.
  by rewrite uint16_registers.
Qed.

Lemma binary_back (w : Z) :
  0 <= w <= 65535 -> Decoder.binary [w] ≫= Encoder.binary = Return (Some [w]).
Proof.
  intros Hw. destruct (word_bits w Hw) as (bits & Hlen & <-).
  rewrite binary_of_bits by assumption. cbn [mbind outcome_bind].
  unfold Encoder.binary.
  rewrite binary_text_pattern, binary_text_value by assumption.
  by rewrite uint16_registers.
Qed.

Lemma byte_of (v hi lo i y : Z) :
  0 <= i -> 0 <= lo < 2 ^ (8 * i) -> is_byte y ->
  v = (hi * 256 + y) * 2 ^ (8 * i) + lo -> byte_at v i = y.
Proof.
  unfold is_byte. intros Hi Hlo Hy ->. rewrite byte_at_spec by lia.
  rewrite Z.div_add_l by lia. rewrite (Z.div_small lo) by lia.
  rewrite Z.add_0_r, Z.add_comm, Z.mod_add by lia. apply Z.mod_small. lia.
Qed.

(** Four bytes are the bytes of their number, also when it is read as
    signed. *)
Lemma be_bytes_quad (a b c d k : Z) :
  is_byte a -> is_byte b -> is_byte c -> is_byte d ->
  be_bytes 4 (of_be_bytes [a; b; c; d] + k * 4294967296) = [a; b; c; d].
Proof.
  unfold is_byte. intros Ha Hb Hc Hd.
  replace (of_be_bytes [a; b; c; d]) with (((a * 256 + b) * 256 + c) * 256 + d)
    by (unfold of_be_bytes, of_digits; simpl; lia).
  cbn [be_bytes]. repeat f_equal.
  - apply (byte_of _ k ((b * 256 + c) * 256 + d)); unfold is_byte; simpl; lia.
  - apply (byte_of _ (k * 256 + a) (c * 256 + d)); unfold is_byte; simpl; lia.
  - apply (byte_of _ (k * 65536 + a * 256 + b) d); unfold is_byte; simpl; lia.
  - apply (byte_of _ (k * 16777216 + a * 65536 + b * 256 + c) 0);
      unfold is_byte; simpl; lia.
Qed.

Lemma signed_quad (a b c d : Z) :
  is_byte a -> is_byte b -> is_byte c -> is_byte d ->
  exists n : Z, unpack_i [a; b; c; d] = Return n /\ pack_i n = Return [a; b; c; d].
Proof.
  intros Ha Hb Hc Hd.
  assert (Hr : 0 <= of_be_bytes [a; b; c; d] < 4294967296).
  { apply (of_digits_range 256 [a; b; c; d]); [lia|]. by repeat apply Forall_cons_2. }
  unfold unpack_i. set (u := of_be_bytes [a; b; c; d]) in *.
  eexists. split; [reflexivity|]. unfold pack_i.
  destruct (u <? 2147483648) eqn:E.
  - replace ((-2147483648 <=? u) && (u <=? 2147483647)) with true by lia.
    f_equal. replace u with (u + 0 * 4294967296) by lia. by apply be_bytes_quad.
  - replace ((-2147483648 <=? u - 4294967296) && (u - 4294967296 <=? 2147483647))
      with true by lia.
    f_equal. replace (u - 4294967296) with (u + -1 * 4294967296) by lia.
    by apply be_bytes_quad.
Qed.

(** Two registers come back through the bytes of their value, whatever the
    byte and word order. *)
Lemma two_registers_round_trip (byteorder wordorder : Endian) (w1 w2 : Z) :
  0 <= w1 <= 65535 -> 0 <= w2 <= 65535 ->
  exists b0 b1 b2 b3 : Z,
    is_byte b0 /\ is_byte b1 /\ is_byte b2 /\ is_byte b3 /\
    BinaryPayloadDecoder.fromRegisters [w1; w2]
      ≫= (fun p => BinaryPayloadDecoder._unpack_words byteorder wordorder 2 (take 4 p))
      = Return [b0; b1; b2; b3] /\
    BinaryPayloadBuilder._pack_words byteorder wordorder 2 [b0; b1; b2; b3]
      ≫= BinaryPayloadBuilder.to_registers = Return [w1; w2].
Proof.
  intros H1 H2.
  destruct (word_bytes w1 H1) as (a1 & c1 & Ha1 & Hc1 & ->).
  destruct (word_bytes w2 H2) as (a2 & c2 & Ha2 & Hc2 & ->).
  unfold BinaryPayloadBuilder._pack_words, BinaryPayloadBuilder.to_registers,
    BinaryPayloadDecoder.fromRegisters, BinaryPayloadDecoder._unpack_words.
  destruct byteorder, wordorder; words; do 4 eexists;
    (split_and!; cycle 4; [reflexivity|words; reflexivity|assumption..]).
Qed.

Lemma long_back (byteorder wordorder : Endian) (w1 w2 : Z) :
  0 <= w1 <= 65535 -> 0 <= w2 <= 65535 ->
  Decoder.long byteorder wordorder [w1; w2] ≫= Encoder.long byteorder wordorder
    = Return (Some [w1; w2]).
Proof.
  intros H1 H2.
  destruct (two_registers_round_trip byteorder wordorder w1 w2 H1 H2)
    as (b0 & b1 & b2 & b3 & Hb0 & Hb1 & Hb2 & Hb3 & Hdec & Henc).
  destruct (signed_quad b0 b1 b2 b3 Hb0 Hb1 Hb2 Hb3) as (n & Hn & Hpack).
  unfold Decoder.long, BinaryPayloadDecoder.decode_32bit_int.
  destruct (BinaryPayloadDecoder.fromRegisters [w1; w2]) as [p|e]; [|discriminate].
  cbn [mbind outcome_bind] in Hdec |- *. rewrite Hdec.
  cbn [mbind outcome_bind]. rewrite Hn. cbn [mbind outcome_bind].
  unfold Encoder.long, Encoder._32bit_int, BinaryPayloadBuilder.add_32bit_int, py_int.
  cbn [mbind outcome_bind]. rewrite Hpack. cbn [mbind outcome_bind].
  destruct (BinaryPayloadBuilder._pack_words _ _ _ _) as [q|e]; [|discriminate].
  cbn [mbind outcome_bind] in Henc |- *. by rewrite Henc.
Qed.

Lemma length_one {A : Type} (l : list A) :
  Some 1 = Some (Z.of_nat (length l)) -> exists a : A, l = [a].
Proof.
  intros [= Hl]. destruct l as [|a [|b l]]; simpl in Hl; try lia. by exists a.
Qed.

Lemma length_two {A : Type} (l : list A) :
  Some 2 = Some (Z.of_nat (length l)) -> exists a b : A, l = [a; b].
Proof.
  intros [= Hl]. destruct l as [|a [|b [|c l]]]; simpl in Hl; try lia. by exists a, b.
Qed.

(** X10: for the eight integer formats, the encoder gives back the registers
    the decoder was given: as many 16-bit words as the format takes. *)
Theorem encoders_invert_decoders (data_format : string) (registers : list Z) :
  data_format ∈ integer_formats ->
  Forall is_word registers ->
  dict_get reg_len data_format = Some (Z.of_nat (length registers)) ->
  registers_round_trip data_format registers = Return (Some registers).
Proof.
  unfold integer_formats, is_word. intros Hformat Hwords Hlen.
  repeat (apply elem_of_cons in Hformat as [->|Hformat]);
    [..|by apply elem_of_nil in Hformat];
    first [ apply length_one in Hlen as [w1 ->]
          | apply length_two in Hlen as (w1 & w2 & ->) ];
    repeat match goal with
           | H : Forall _ (_ :: _) |- _ => apply Forall_cons in H as [? H]
           end.
  - by apply signed_back.
  - by apply unsigned_back.
  - by apply hex_back.
  - by apply binary_back.
  - by apply (long_back Big Big).
  - by apply (long_back Big Little).
  - by apply (long_back Little Big).
  - by apply (long_back Little Little).
Qed.

Section Display.
Context `{LibM}.

(** X11: the text the poller shows for a register of the Hex - ASCII or
    Binary format is written back as that register, whatever the
    adjustments of the register are. *)
Theorem shown_text_writes_back (data_format : string) (w : Z)
    (adjustments adjustments' : list adjustment) :
  data_format ∈ ["Hex - ASCII"; "Binary"]%string -> 0 <= w <= 65535 ->
  exists s : string,
    Poller.decode_value [w] data_format adjustments = Return (PyStr s) /\
    Poller.encode_value (PyStr s) data_format adjustments' = Return (Some [w]).
Proof.
  intros Hformat Hw.
  apply elem_of_cons in Hformat as [->|Hformat];
    [|apply elem_of_cons in Hformat as [->|Hformat];
      [|by apply elem_of_nil in Hformat]].
  - pose proof (hex_back w Hw) as Hback. eexists. split; [reflexivity|].
    exact Hback.
  - pose proof (binary_back w Hw) as Hback.
    destruct (word_bits w Hw) as (bits & Hlen & <-).
    rewrite binary_of_bits in Hback by assumption.
    exists (binary_text bits). split; [|exact Hback].
    change (Poller.decode_value [of_digits 2 (map Z.b2z bits)] "Binary" adjustments)
      with (Decoder.binary [of_digits 2 (map Z.b2z bits)] ≫= fun v => Poller._adjust v adjustments).
    by rewrite binary_of_bits.
Qed.
End Display.

(** X10, witness: the two registers 0x1234 and 0x5678 of a Long CD AB. *)
Lemma encoders_invert_decoders_witness :
  registers_round_trip "Long CD AB" [4660; 22136] = Return (Some [4660; 22136]).
Proof.
  apply (encoders_invert_decoders "Long CD AB" [4660; 22136]).
  - unfold integer_formats. repeat constructor.
  - repeat constructor; lia.
  - reflexivity.
Defined.

(** X11, witness: the register 5 of a Binary register that has an
    adjustment. *)
Lemma shown_text_writes_back_witness :
  exists s : string,
    @Poller.decode_value no_pow [5] "Binary" [[("*", "10")]] = Return (PyStr s) /\
    @Poller.encode_value no_pow (PyStr s) "Binary" [] = Return (Some [5]).
Proof.
  apply (@shown_text_writes_back no_pow "Binary" 5 [[("*", "10")]] []).
  - repeat constructor.
  - lia.
Defined.

(** ** Integers as binary64 numbers *)

Lemma iter_xO_nat (n : nat) (p : positive) :
  Z.pos (Nat.iter n xO p) = Z.pos p * 2 ^ Z.of_nat n.
Proof.
  induction n as [|n IH]; [simpl; lia|].
  rewrite Nat.iter_succ, Pos2Z.inj_xO, IH, Nat2Z.inj_succ, Z.pow_succ_r by lia. lia.
Qed.

Lemma iter_xO (k p : positive) : Z.pos (Pos.iter xO p k) = Z.pos p * 2 ^ Z.pos k.
Proof. by rewrite Pos2Nat.inj_iter, <- (positive_nat_Z k), <- iter_xO_nat. Qed.

Lemma size_below (p : positive) (n : Z) :
  0 <= n -> Z.pos p < 2 ^ n -> Z.pos (Pos.size p) <= n.
Proof.
  intros Hn Hp. pose proof (size_bounds p) as [Hlow _].
  destruct (Z_le_gt_dec (Z.pos (Pos.size p)) n) as [|Hgt]; [assumption|].
  assert (2 ^ n <= 2 ^ (Z.pos (Pos.size p) - 1)) by (apply Z.pow_le_mono_r; lia).
  lia.
Qed.

(** An integer below 2^52 is a binary64 number. *)
Lemma binary_round_integer (s : bool) (p : positive) :
  Z.pos p < 2 ^ 52 ->
  exists k : positive,
    Z.pos k = 53 - Z.pos (Pos.size p) /\
    binary_round prec emax s p 0 = S754_finite s (Pos.iter xO p k) (Z.neg k) /\
    valid_binary (S754_finite s (Pos.iter xO p k) (Z.neg k)) = true.
Proof.
  intros Hp. pose proof (size_below p 52 ltac:(lia) Hp) as Hsize.
  destruct (53 - Z.pos (Pos.size p)) as [|k|] eqn:Hk; try lia.
  exists k. split; [reflexivity|].
  assert (Hfexp : fexp prec emax (Z.pos (Pos.size p)) = Z.neg k).
  { unfold fexp, SpecFloat.emin. change prec with 53. change emax with 1024. lia. }
  split.
  - rewrite (binary_round_short prec emax s p k 0).
    + reflexivity.
    + rewrite digits2_pos_size, Z.add_0_r. exact Hfexp.
    + change prec with 53. change emax with 1024. lia.
  - cbn [SpecFloat.valid_binary]. unfold bounded, canonical_mantissa.
    rewrite digits2_pos_size, size_shifted.
    replace (Z.pos (Pos.size p) + Z.pos k + Z.neg k) with (Z.pos (Pos.size p)) by lia.
    rewrite Hfexp, Z.eqb_refl. change prec with 53. change emax with 1024.
    cbn [andb]. apply Z.leb_le. lia.
Qed.

Lemma finite_not_infinity (x : float) (s : bool) (m : positive) (e : Z) :
  Prim2SF x = S754_finite s m e -> is_infinity x = false.
Proof.
  intros Hx. unfold is_infinity.
  rewrite FloatAxioms.eqb_spec, FloatAxioms.abs_spec, Hx. reflexivity.
Qed.

(** [float(n)] for an integer below 2^52 in magnitude. *)
Lemma float_of_int_integer (n : Z) :
  Z.abs n < 2 ^ 52 ->
  exists x : float, float_of_int n = Return x /\ is_integer n (Prim2SF x).
Proof.
  intros Hn. unfold float_of_int. destruct n as [|p|p].
  - exists zero. by split.
  - destruct (binary_round_integer false p ltac:(lia)) as (k & Hk & Hround & Hvalid).
    pose proof (Prim2SF_SF2Prim _ Hvalid) as Hback.
    exists (SF2Prim (S754_finite false (Pos.iter xO p k) (Z.neg k))).
    cbn [binary_normalize]. rewrite Hround, (finite_not_infinity _ _ _ _ Hback).
    split; [reflexivity|]. exists k. by split.
  - destruct (binary_round_integer true p ltac:(lia)) as (k & Hk & Hround & Hvalid).
    pose proof (Prim2SF_SF2Prim _ Hvalid) as Hback.
    exists (SF2Prim (S754_finite true (Pos.iter xO p k) (Z.neg k))).
    cbn [binary_normalize]. rewrite Hround, (finite_not_infinity _ _ _ _ Hback).
    split; [reflexivity|]. exists k. by split.
Qed.

Lemma round_half_even_exact (a : Z) (k : positive) :
  round_half_even (a * 2 ^ Z.pos k) (Z.neg k) = a.
Proof.
  unfold round_half_even.
  change (0 <=? Z.neg k) with false. change (- Z.neg k) with (Z.pos k).
  assert (0 < 2 ^ Z.pos k) by (apply Z.pow_pos_nonneg; lia).
  rewrite Z.mod_mul, Z.div_mul by lia. change (2 * 0) with 0.
  destruct (0 ?= 2 ^ Z.pos k) eqn:Hc; try reflexivity.
  - apply Z.compare_eq in Hc. lia.
  - apply Z.compare_gt_iff in Hc. lia.
Qed.

Lemma two_decimals_hundreds (n : Z) : two_decimals (n * 100) = chars "00".
Proof.
  unfold two_decimals. rewrite Z.mod_mul by lia.
  replace (n * 100) with (n * 10 * 10) by lia. rewrite Z.mod_mul by lia.
  reflexivity.
Qed.

(** The text of a number that is an integer. *)
Lemma format_2f_integer (x : float) (n : Z) :
  is_integer n (Prim2SF x) -> format_2f x = with_two_zeros n.
Proof.
  unfold format_2f, is_integer.
  destruct n as [|p|p]; [by intros ->|intros (k & _ & ->)..]; rewrite iter_xO;
    replace (Z.pos p * 2 ^ Z.pos k * 100) with (Z.pos p * 100 * 2 ^ Z.pos k) by lia;
    rewrite round_half_even_exact; unfold fixed_2, with_two_zeros, str_int;
    by rewrite two_decimals_hundreds, Z.div_mul by lia.
Qed.

(** [int(x)] for a number that is an integer. *)
Lemma int_of_float_integer (x : float) (n : Z) :
  is_integer n (Prim2SF x) -> int_of_float x = Return n.
Proof.
  unfold int_of_float, is_integer.
  destruct n as [|p|p]; [by intros ->|intros (k & _ & ->)..];
    change (0 <=? Z.neg k) with false; change (- Z.neg k) with (Z.pos k);
    (assert (0 < 2 ^ Z.pos k) by (apply Z.pow_pos_nonneg; lia));
    by rewrite iter_xO, Z.div_mul by lia.
Qed.

(** Two integers compare as their binary64 numbers do. *)
Lemma compare_shifted (p q kp kq : positive) :
  Z.pos kp = 53 - Z.pos (Pos.size p) -> Z.pos kq = 53 - Z.pos (Pos.size q) ->
  match Z.neg kp ?= Z.neg kq with
  | Lt => Lt
  | Gt => Gt
  | Eq => Pos.compare_cont Eq (Pos.iter xO p kp) (Pos.iter xO q kq)
  end = (p ?= q)%positive.
Proof.
  intros Hp Hq. pose proof (size_bounds p) as [Hp1 Hp2].
  pose proof (size_bounds q) as [Hq1 Hq2].
  destruct (Z.neg kp ?= Z.neg kq) eqn:Hc.
  - apply Z.compare_eq in Hc. assert (kp = kq) as -> by lia.
    change (Pos.compare_cont Eq ?a ?b) with (a ?= b)%positive.
    rewrite !Pos2Z.inj_compare, !iter_xO.
    assert (0 < 2 ^ Z.pos kq) by (apply Z.pow_pos_nonneg; lia).
    destruct (Z.compare_spec (Z.pos p) (Z.pos q));
      [apply Z.compare_eq_iff | apply Z.compare_lt_iff | apply Z.compare_gt_iff]; nia.
  - change (Z.neg kp < Z.neg kq) in Hc. symmetry. apply Pos.compare_lt_iff.
    assert (2 ^ Z.pos (Pos.size p) <= 2 ^ (Z.pos (Pos.size q) - 1))
      by (apply Z.pow_le_mono_r; lia).
    lia.
  - change (Z.neg kp > Z.neg kq) in Hc. symmetry. apply Pos.compare_gt_iff.
    assert (2 ^ Z.pos (Pos.size q) <= 2 ^ (Z.pos (Pos.size p) - 1))
      by (apply Z.pow_le_mono_r; lia).
    lia.
Qed.

Lemma compare_integers (a b : Z) (x y : spec_float) :
  is_integer a x -> is_integer b y -> SFcompare x y = Some (a ?= b).
Proof.
  unfold is_integer.
  destruct a as [|p|p], b as [|q|q];
    repeat match goal with
           | |- (exists _, _) -> _ => intros (? & ? & ->)
           | |- _ = _ -> _ => intros ->
           end; try reflexivity.
  - change (Z.pos p <? 0) with false. change (Z.pos q <? 0) with false.
    cbn [SFcompare]. f_equal. by apply compare_shifted.
  - change (Z.neg p <? 0) with true. change (Z.neg q <? 0) with true.
    cbn [SFcompare]. f_equal.
    change (Z.neg p ?= Z.neg q) with (CompOpp (p ?= q)%positive).
    rewrite <- (compare_shifted p q x0 x) by assumption.
    by destruct (Z.neg x0 ?= Z.neg x).
Qed.

Lemma leb_integers (a b : Z) (x y : float) :
  is_integer a (Prim2SF x) -> is_integer b (Prim2SF y) ->
  (x <=? y)%float = (a <=? b).
Proof.
  intros Ha Hb. rewrite leb_spec. unfold SFleb, Z.leb.
  rewrite (compare_integers a b _ _ Ha Hb). by destruct (a ?= b).
Qed.

Section Shown.
Context `{LibM}.

(** An integer that is not adjusted is shown with two zero decimals. *)
Lemma adjust_integer (n : Z) :
  Z.abs n < 2 ^ 52 ->
  Poller._adjust (PyInt n) [] = Return (PyStr (with_two_zeros n)).
Proof.
  intros Hn. destruct (float_of_int_integer n Hn) as (x & Hx & Hsf).
  unfold Poller._adjust, py_float. rewrite Hx.
  cbn [mbind outcome_bind Poller.adjust_loop format_num].
  by rewrite (format_2f_integer x n Hsf).
Qed.
End Shown.

(** ** Dividing a hundredfold by 100 *)

Section Exact.
Variables prec emax : Z.

(** A mantissa that is too long by zeros only is shifted to the right, also
    after a division that left no remainder. *)
Lemma binary_round_aux_long (s : bool) (m k : positive) (e : Z) :
  canonical_mantissa prec emax m e = true -> e <= emax - prec ->
  binary_round_aux prec emax s (Z.pos (Pos.iter xO m k)) (e - Z.pos k) loc_Exact
  = S754_finite s m e.
Proof.
  intros Hc He. pose proof Hc as Hfexp. unfold canonical_mantissa in Hfexp.
  apply Z.eqb_eq in Hfexp.
  assert (Hlong : fexp prec emax (Z.pos (digits2_pos (Pos.iter xO m k)) + (e - Z.pos k)) = e).
  { rewrite digits2_pos_size, size_shifted, <- digits2_pos_size.
    rewrite <- Hfexp at 2. f_equal. lia. }
  unfold binary_round_aux, shr_fexp at 1. cbn [Zdigits2 shr_record_of_loc].
  rewrite Hlong. replace (e - (e - Z.pos k)) with (Z.pos k) by lia.
  cbn [shr]. rewrite shr_shifted.
  replace (e - Z.pos k + Z.pos k) with e by lia.
  cbn [shr_m loc_of_shr_record round_nearest_even].
  unfold shr_fexp. cbn [Zdigits2 shr_record_of_loc].
  rewrite Hfexp, Z.sub_diag. cbn [shr shr_m].
  destruct (Z.leb_spec e (emax - prec)); [reflexivity|lia].
Qed.
End Exact.

Lemma div_eucl_div_mod (a b : Z) : Z.div_eucl a b = (a / b, a mod b).
Proof. unfold Z.div, Z.modulo. by destruct (Z.div_eucl a b). Qed.

Lemma size_hundredfold (p : positive) :
  Z.pos (Pos.size p) + 6 <= Z.pos (Pos.size (p * 100))
  /\ Z.pos (Pos.size (p * 100)) <= Z.pos (Pos.size p) + 7.
Proof.
  pose proof (size_bounds p) as [Hp1 Hp2].
  pose proof (size_bounds (p * 100)) as [Hq1 Hq2].
  rewrite Pos2Z.inj_mul in Hq1, Hq2.
  set (a := Z.pos (Pos.size p)) in *. set (b := Z.pos (Pos.size (p * 100))) in *.
  assert (Ha : 1 <= a) by (unfold a; lia).
  assert (Hb : 1 <= b) by (unfold b; lia).
  split.
  - destruct (Z_le_gt_dec (a + 6) b) as [|Hgt]; [assumption|].
    assert (2 ^ b <= 2 ^ (a + 5)) by (apply Z.pow_le_mono_r; lia).
    replace (a + 5) with (a - 1 + 6) in * by lia.
    rewrite Z.pow_add_r in * by lia. change (2 ^ 6) with 64 in *. lia.
  - destruct (Z_le_gt_dec b (a + 7)) as [|Hgt]; [assumption|].
    assert (2 ^ (a + 7) <= 2 ^ (b - 1)) by (apply Z.pow_le_mono_r; lia).
    rewrite Z.pow_add_r in * by lia. change (2 ^ 7) with 128 in *. lia.
Qed.

(** A hundredfold of an integer below 2^52, divided by 100, is the
    integer. *)
Lemma div_hundred (s : bool) (p : positive) :
  Z.pos p < 2 ^ 52 ->
  exists k : positive,
    Z.pos k = 53 - Z.pos (Pos.size p) /\
    SFdiv prec emax (S754_finite s (p * 100) 0) (S754_finite false 100 0)
    = S754_finite s (Pos.iter xO p k) (Z.neg k).
Proof.
  intros Hp.
  destruct (binary_round_integer s p Hp) as (k & Hk & _ & Hvalid).
  exists k. split; [exact Hk|].
  cbn [SpecFloat.valid_binary] in Hvalid. unfold bounded in Hvalid.
  apply andb_prop in Hvalid as [Hc He]. apply Z.leb_le in He.
  pose proof (size_hundredfold p) as [Hlow Hhigh].
  unfold SFdiv, SFdiv_core_binary. cbn [Zdigits2].
  change (Z.pos (digits2_pos 100)) with 7. rewrite digits2_pos_size.
  destruct (60 - Z.pos (Pos.size (p * 100))) as [|j|] eqn:Hj; try lia.
  assert (He' : Z.min (fexp prec emax (Z.pos (Pos.size (p * 100)) + 0 - (7 + 0))) (0 - 0)
                = Z.neg j).
  { unfold fexp, SpecFloat.emin. change prec with 53. change emax with 1024. lia. }
  rewrite He'. replace (0 - 0 - Z.neg j) with (Z.pos j) by lia.
  rewrite Z.shiftl_mul_pow2, div_eucl_div_mod by lia.
  assert (0 < 2 ^ Z.pos j) by (apply Z.pow_pos_nonneg; lia).
  replace (Z.pos (p * 100) * 2 ^ Z.pos j) with (Z.pos p * 2 ^ Z.pos j * 100)
    by (rewrite Pos2Z.inj_mul; lia).
  rewrite Z.div_mul, Z.mod_mul by lia. rewrite <- iter_xO.
  change (new_location (Z.pos 100) 0) with loc_Exact.
  rewrite xorb_false_r.
  destruct (decide (j = k)) as [->|Hne].
  - by apply binary_round_aux_canonical.
  - assert (j = (1 + k)%positive) as -> by lia.
    rewrite Pos.iter_add.
    replace (Z.neg (1 + k)) with (Z.neg k - Z.pos 1) by lia.
    by apply binary_round_aux_long.
Qed.

(** ** Reading a numeral *)

Lemma digit_plain (c : ascii) : is_digit c = true -> plain c.
Proof. unfold is_digit, plain, is_space, is_underscore. lia. Qed.

Lemma lstrip_plain (cs : list ascii) : Forall plain cs -> lstrip cs = cs.
Proof. intros [|c cs' [Hc _] _]; [reflexivity|]. simpl. by rewrite Hc. Qed.

Lemma strip_plain (cs : list ascii) : Forall plain cs -> strip cs = cs.
Proof.
  intros Hcs. unfold strip. rewrite (lstrip_plain cs Hcs).
  rewrite lstrip_plain by (by apply Forall_rev). apply rev_involutive.
Qed.

Lemma underscores_ok_plain (prev : bool) (cs : list ascii) :
  Forall plain cs -> underscores_ok prev cs = true.
Proof.
  intros Hcs. revert prev. induction Hcs as [|c cs [_ Hc] _ IH]; intros prev;
    [reflexivity|].
  simpl. rewrite Hc. apply IH.
Qed.

Lemma filter_plain (cs : list ascii) :
  Forall plain cs -> filter (fun c => negb (is_underscore c)) cs = cs.
Proof.
  induction 1 as [|c cs [_ Hc] _ IH]; [reflexivity|].
  rewrite filter_cons, IH. rewrite Hc. reflexivity.
Qed.

Lemma span_break (p : ascii -> bool) (a b : list ascii) (c : ascii) :
  Forall (fun x => p x = true) a -> p c = false -> span p (a ++ c :: b) = (a, c :: b).
Proof.
  intros Ha Hc. induction Ha as [|x a Hx _ IH]; simpl; [by rewrite Hc|].
  by rewrite Hx, IH.
Qed.

Lemma digit_val_digit_char (d : Z) : 0 <= d < 10 -> digit_val (digit_char d) = d.
Proof.
  intros Hd.
  assert (d = 0 \/ d = 1 \/ d = 2 \/ d = 3 \/ d = 4 \/ d = 5 \/ d = 6 \/ d = 7
          \/ d = 8 \/ d = 9) as Hcases by lia.
  repeat (destruct Hcases as [->|Hcases]; [reflexivity|]). by subst.
Qed.

Lemma digit_vals_numeral (P : Z) :
  0 <= P -> map digit_val (numeral 10 P) = digits 10 P.
Proof.
  intros HP. unfold numeral. rewrite map_map.
  pose proof (digits_range 10 P ltac:(lia) HP) as Hr.
  induction Hr as [|d ds Hd _ IH]; [reflexivity|].
  simpl. by rewrite digit_val_digit_char, IH.
Qed.

Lemma numeral_head (P : Z) :
  0 <= P ->
  exists (d : ascii) (ds : list ascii), numeral 10 P = d :: ds /\ is_digit d = true.
Proof.
  intros HP. pose proof (numeral_10_digits P HP) as Hds.
  assert (Hlen : (1 <= length (numeral 10 P))%nat).
  { unfold numeral. rewrite length_map. unfold digits.
    generalize (Z.to_nat (Z.log2 P)). intros fuel.
    cbn [digits_fuel]. destruct (P <? 10); [simpl; lia|].
    rewrite digits_fuel_acc, length_app. simpl. lia. }
  destruct (numeral 10 P) as [|d ds]; [simpl in Hlen; lia|].
  exists d, ds. split; [reflexivity|]. by inversion Hds.
Qed.

Lemma not_a_word (d : ascii) (cs : list ascii) (w : string) :
  is_digit d = true ->
  match w with String c _ => is_digit c = false | EmptyString => True end ->
  (text (map lower (d :: cs)) =? w)%string = false.
Proof.
  intros Hd Hw. destruct w as [|c w]; [reflexivity|].
  assert (Hlower : lower d = d).
  { unfold lower. unfold is_digit in Hd.
    destruct ((65 <=? ord d) && (ord d <=? 90)) eqn:Hupper; [lia|reflexivity]. }
  cbn [map text string_of_list_ascii String.eqb]. rewrite Hlower.
  destruct (Ascii.eqb_spec d c) as [->|Hne]; [congruence|reflexivity].
Qed.

Lemma take_sign_digit (d : ascii) (cs : list ascii) :
  is_digit d = true -> take_sign (d :: cs) = (false, d :: cs).
Proof.
  intros Hd. unfold take_sign. unfold is_digit in Hd.
  destruct (ord d =? 45) eqn:H1; [lia|]. destruct (ord d =? 43) eqn:H2; [lia|].
  reflexivity.
Qed.

(** [float] of a numeral with two zero decimals. *)
Lemma float_of_str_decimal (negative : bool) (P : Z) :
  0 <= P ->
  float_of_str (text ((if negative then ["-"%char] else []) ++ numeral 10 P
                      ++ chars ".00"))
  = Some (float_of_decimal negative (P * 100) (-2)).
Proof.
  intros HP. destruct (numeral_head P HP) as (d & ds & Hnum & Hd).
  pose proof (numeral_10_digits P HP) as Hdigits.
  pose proof (digit_vals_numeral P HP) as Hvals.
  pose proof (of_digits_digits 10 P ltac:(lia) HP) as Hvalue.
  assert (Hplain : Forall plain ((if negative then ["-"%char] else [])
                                 ++ numeral 10 P ++ chars ".00")).
  { apply Forall_app. split; [destruct negative; by repeat constructor|].
    apply Forall_app. split; [|by repeat constructor].
    eapply Forall_impl; [exact Hdigits|]. apply digit_plain. }
  unfold float_of_str. rewrite chars_text, (strip_plain _ Hplain).
  rewrite (underscores_ok_plain _ _ Hplain), (filter_plain _ Hplain).
  cbn [negb].
  assert (Hsign : take_sign ((if negative then ["-"%char] else [])
                             ++ numeral 10 P ++ chars ".00")
                  = (negative, numeral 10 P ++ chars ".00")).
  { destruct negative; [reflexivity|]. cbn [app]. rewrite Hnum.
    by apply take_sign_digit. }
  rewrite Hsign.
  assert (Hword : forall w : string,
            match w with String c _ => is_digit c = false | EmptyString => True end ->
            (text (map lower (numeral 10 P ++ chars ".00")) =? w)%string = false).
  { intros w Hw. rewrite Hnum. by apply not_a_word. }
  rewrite !Hword by reflexivity. cbn [orb].
  change (chars ".00") with ("."%char :: chars "00").
  rewrite (span_break is_digit _ _ _ Hdigits) by reflexivity.
  change (ord "." =? 46) with true. cbn iota.
  change (span is_digit (chars "00")) with (chars "00", @nil ascii).
  cbv beta iota zeta. rewrite Hnum at 1. cbn [app].
  change (exponent_part []) with (Some 0).
  f_equal. f_equal.
  change (d :: ds ++ chars "00") with ((d :: ds) ++ chars "00").
  rewrite <- Hnum, map_app, Hvals.
  unfold of_digits in *. rewrite fold_left_app, Hvalue.
  change (map digit_val (chars "00")) with [0; 0]. cbn [fold_left]. lia.
Qed.

(** [float] of the text of an integer with two zero decimals is the
    integer. *)
Lemma float_of_str_integer (n : Z) :
  Z.abs n < 2 ^ 52 ->
  exists x : float,
    float_of_str (with_two_zeros n) = Some x /\ is_integer n (Prim2SF x).
Proof.
  intros Hn. unfold with_two_zeros, str_int. destruct n as [|p|p].
  - exists zero. split; [|reflexivity].
    exact (float_of_str_decimal false 0 ltac:(lia)).
  - destruct (div_hundred false p ltac:(lia)) as (k & Hk & Hdiv).
    destruct (binary_round_integer false p ltac:(lia)) as (k' & Hk' & _ & Hvalid).
    assert (k' = k) as -> by lia.
    exists (SF2Prim (S754_finite false (Pos.iter xO p k) (Z.neg k))). split.
    + change (Z.pos p <? 0) with false. cbv iota.
      etransitivity; [exact (float_of_str_decimal false (Z.pos p) ltac:(lia))|].
      unfold float_of_decimal. change (Z.pos p * 100) with (Z.pos (p * 100)).
      change (0 <=? -2) with false. change (10 ^ (- -2)) with 100.
      cbv beta iota. by rewrite Hdiv.
    + rewrite (Prim2SF_SF2Prim _ Hvalid). exists k. by split.
  - destruct (div_hundred true p ltac:(lia)) as (k & Hk & Hdiv).
    destruct (binary_round_integer true p ltac:(lia)) as (k' & Hk' & _ & Hvalid).
    assert (k' = k) as -> by lia.
    exists (SF2Prim (S754_finite true (Pos.iter xO p k) (Z.neg k))). split.
    + change (Z.neg p <? 0) with true. change (- Z.neg p) with (Z.pos p). cbv iota.
      etransitivity; [exact (float_of_str_decimal true (Z.pos p) ltac:(lia))|].
      unfold float_of_decimal. change (Z.pos p * 100) with (Z.pos (p * 100)).
      change (0 <=? -2) with false. change (10 ^ (- -2)) with 100.
      cbv beta iota. by rewrite Hdiv.
    + rewrite (Prim2SF_SF2Prim _ Hvalid). exists k. by split.
Qed.

(** The range check of the encoders on a number that is an integer. *)
Lemma in_range_integer (lo hi n : Z) (x : float) :
  Z.abs lo < 2 ^ 52 -> Z.abs hi < 2 ^ 52 -> is_integer n (Prim2SF x) ->
  in_range lo hi (PyFloat x) = Return ((lo <=? n) && (n <=? hi)).
Proof.
  intros Hlo Hhi Hx. unfold in_range.
  destruct (float_of_int_integer lo Hlo) as (l & -> & Hl).
  destruct (float_of_int_integer hi Hhi) as (h & -> & Hh).
  cbn [mbind outcome_bind].
  by rewrite (leb_integers lo n l x Hl Hx), (leb_integers n hi x h Hx Hh).
Qed.

(** ** The numbers of the integer formats *)

Lemma long_decodes (byteorder wordorder : Endian) (w1 w2 : Z) :
  0 <= w1 <= 65535 -> 0 <= w2 <= 65535 ->
  exists n : Z,
    Decoder.long byteorder wordorder [w1; w2] = Return (PyInt n) /\
    -2147483648 <= n <= 2147483647.
Proof.
  intros H1 H2.
  destruct (two_registers_round_trip byteorder wordorder w1 w2 H1 H2)
    as (b0 & b1 & b2 & b3 & Hb0 & Hb1 & Hb2 & Hb3 & Hdec & _).
  assert (Hr : 0 <= of_be_bytes [b0; b1; b2; b3] < 4294967296).
  { apply (of_digits_range 256 [b0; b1; b2; b3]); [lia|].
    by repeat apply Forall_cons_2. }
  unfold Decoder.long, BinaryPayloadDecoder.decode_32bit_int.
  destruct (BinaryPayloadDecoder.fromRegisters [w1; w2]) as [p|e]; [|discriminate].
  cbn [mbind outcome_bind] in Hdec |- *. rewrite Hdec.
  cbn [mbind outcome_bind]. unfold unpack_i.
  set (u := of_be_bytes [b0; b1; b2; b3]) in *.
  eexists. split; [reflexivity|]. destruct (u <? 2147483648) eqn:E; lia.
Qed.

(** What the decoder and the encoder of a number format do with the
    registers of one value. *)
Lemma number_format_codec (data_format : string) (registers : list Z) :
  data_format ∈ number_formats ->
  Forall is_word registers ->
  dict_get reg_len data_format = Some (Z.of_nat (length registers)) ->
  exists (decoder : list Z -> outcome pyval)
         (encoder : pyval -> outcome (option (list Z))) (n : Z),
    dict_get Poller.decoders data_format = Some decoder /\
    dict_get Poller.encoders data_format = Some encoder /\
    bool_decide (data_format ∈ ["Hex - ASCII"; "Binary"]%string) = false /\
    registers <> [] /\
    decoder registers = Return (PyInt n) /\
    Z.abs n < 2 ^ 52 /\
    encoder (PyInt n) = Return (Some registers) /\
    forall x : float, is_integer n (Prim2SF x) -> encoder (PyFloat x) = encoder (PyInt n).
Proof.
  unfold number_formats, is_word. intros Hformat Hwords Hlen.
  assert (Hlong : forall (byteorder wordorder : Endian) (w1 w2 : Z),
            0 <= w1 <= 65535 -> 0 <= w2 <= 65535 ->
            exists n : Z,
              Decoder.long byteorder wordorder [w1; w2] = Return (PyInt n) /\
              Z.abs n < 2 ^ 52 /\
              Encoder.long byteorder wordorder (PyInt n) = Return (Some [w1; w2]) /\
              forall x : float, is_integer n (Prim2SF x) ->
                Encoder.long byteorder wordorder (PyFloat x)
                = Encoder.long byteorder wordorder (PyInt n)).
  { intros byteorder wordorder w1 w2 H1 H2.
    destruct (long_decodes byteorder wordorder w1 w2 H1 H2) as (n & Hdec & Hn).
    pose proof (long_back byteorder wordorder w1 w2 H1 H2) as Hback.
    rewrite Hdec in Hback. exists n. split; [exact Hdec|].
    split; [change (2 ^ 52) with 4503599627370496; lia|]. split; [exact Hback|].
    intros x Hx. unfold Encoder.long, Encoder._32bit_int, py_int.
    by rewrite (int_of_float_integer x n Hx). }
  repeat (apply elem_of_cons in Hformat as [->|Hformat]);
    [..|by apply elem_of_nil in Hformat];
    first [ apply length_one in Hlen as [w1 ->]
          | apply length_two in Hlen as (w1 & w2 & ->) ];
    repeat match goal with
           | H : Forall _ (_ :: _) |- _ => apply Forall_cons in H as [? H]
           end.
  - pose proof (signed_back w1 ltac:(assumption)) as Hback.
    eexists _, _, _. split; [reflexivity|]. split; [reflexivity|].
    split; [reflexivity|]. split; [discriminate|]. split; [reflexivity|].
    split; [destruct (w1 >? 32767); change (2 ^ 52) with 4503599627370496; lia|].
    split; [exact Hback|].
    intros x Hx. unfold Encoder.signed, Encoder._16bit_int, py_int.
    rewrite (in_range_integer (-32768) 32767 _ x ltac:(simpl; lia) ltac:(simpl; lia) Hx).
    by rewrite (int_of_float_integer x _ Hx).
  - pose proof (unsigned_back w1 ltac:(assumption)) as Hback.
    eexists _, _, _. split; [reflexivity|]. split; [reflexivity|].
    split; [reflexivity|]. split; [discriminate|]. split; [reflexivity|].
    split; [change (2 ^ 52) with 4503599627370496; lia|].
    split; [exact Hback|].
    intros x Hx. unfold Encoder.unsigned, Encoder._16bit_uint, py_int.
    rewrite (in_range_integer 0 65535 _ x ltac:(simpl; lia) ltac:(simpl; lia) Hx).
    by rewrite (int_of_float_integer x _ Hx).
  - destruct (Hlong Big Big w1 w2) as (n & ? & ? & ? & ?); [assumption..|].
    by exists Decoder.long_ab_cd, Encoder.long_ab_cd, n.
  - destruct (Hlong Big Little w1 w2) as (n & ? & ? & ? & ?); [assumption..|].
    by exists Decoder.long_cd_ab, Encoder.long_cd_ab, n.
  - destruct (Hlong Little Big w1 w2) as (n & ? & ? & ? & ?); [assumption..|].
    by exists Decoder.long_ba_dc, Encoder.long_ba_dc, n.
  - destruct (Hlong Little Little w1 w2) as (n & ? & ? & ? & ?); [assumption..|].
    by exists Decoder.long_dc_ba, Encoder.long_dc_ba, n.
Qed.

Section Numbers.
Context `{LibM}.

(** X12: the registers of a Signed, Unsigned or Long value that has no
    adjustments are shown as the decoded integer with two zero decimals. *)
Theorem registers_shown_as_integers (data_format : string) (registers : list Z) :
  data_format ∈ number_formats ->
  Forall is_word registers ->
  dict_get reg_len data_format = Some (Z.of_nat (length registers)) ->
  exists n : Z,
    (decoder ← item Poller.decoders data_format; decoder registers)
      = Return (PyInt n) /\
    Poller.decode_value registers data_format [] = Return (PyStr (with_two_zeros n)).
Proof.
  intros Hformat Hwords Hlen.
  destruct (number_format_codec data_format registers Hformat Hwords Hlen)
    as (decoder & encoder & n & Hdecoder & _ & _ & Hsome & Hdec & Hn & _).
  exists n. unfold item, Poller.decode_value. rewrite Hdecoder.
  cbn [mbind outcome_bind]. split; [exact Hdec|].
  destruct registers as [|w rs]; [done|]. rewrite Hdec.
  cbn [mbind outcome_bind]. by apply adjust_integer.
Qed.

(** X13: the text shown for the registers of a Signed, Unsigned or Long
    value that has no adjustments is written back as those registers. *)
Theorem shown_number_writes_back (data_format : string) (registers : list Z) :
  data_format ∈ number_formats ->
  Forall is_word registers ->
  dict_get reg_len data_format = Some (Z.of_nat (length registers)) ->
  exists s : string,
    Poller.decode_value registers data_format [] = Return (PyStr s) /\
    Poller.encode_value (PyStr s) data_format [] = Return (Some registers).
Proof.
  intros Hformat Hwords Hlen.
  destruct (number_format_codec data_format registers Hformat Hwords Hlen)
    as (decoder & encoder & n & Hdecoder & Hencoder & Htext & Hsome & Hdec & Hn
        & Henc & Hfloat).
  exists (with_two_zeros n). split.
  - unfold Poller.decode_value. rewrite Hdecoder.
    destruct registers as [|w rs]; [done|]. rewrite Hdec.
    cbn [mbind outcome_bind]. by apply adjust_integer.
  - destruct (float_of_str_integer n Hn) as (x & Hparse & Hx).
    unfold Poller.encode_value. rewrite Hencoder, Htext. cbn [negb].
    unfold Poller.isNumerical, py_float. rewrite Hparse.
    cbn [mbind outcome_bind]. unfold Poller._adjust_reverse. cbn [rev foldM].
    cbn [mbind outcome_bind num_value]. by rewrite (Hfloat x Hx).
Qed.
End Numbers.

(** X12, witness: the register 65535 of a Signed value is shown as -1.00. *)
Lemma registers_shown_as_integers_witness :
  exists n : Z,
    (decoder ← item Poller.decoders "Signed"; decoder [65535]) = Return (PyInt n) /\
    @Poller.decode_value no_pow [65535] "Signed" []
      = Return (PyStr (with_two_zeros n)).
Proof.
  apply (@registers_shown_as_integers no_pow "Signed" [65535]).
  - unfold number_formats. repeat constructor.
  - repeat constructor; lia.
  - reflexivity.
Defined.

(** X13, witness: the two registers 0xFFFF 0xFFFE of a Long AB CD. *)
Lemma shown_number_writes_back_witness :
  exists s : string,
    @Poller.decode_value no_pow [65535; 65534] "Long AB CD" [] = Return (PyStr s) /\
    @Poller.encode_value no_pow (PyStr s) "Long AB CD" []
      = Return (Some [65535; 65534]).
Proof.
  apply (@shown_number_writes_back no_pow "Long AB CD" [65535; 65534]).
  - unfold number_formats. repeat constructor.
  - repeat constructor; lia.
  - reflexivity.
Defined.

(** ** The write path on the wire *)

Section WritePath.
Context `{LibM}.

(** X14: a value that [encode_value] accepts is written by one
    [write_registers] call, with the encoded registers, the given address
    and the slave id of the settings, and nothing else is sent; the worker
    returns unless that call raises. *)
Theorem write_sends_encoded_registers (self : Worker) (p : Poller) (c : client)
    (address : Z) (data_format : string) (adj : list adjustment) (value : string)
    (registers : list Z) (slave : pyval) (w : world) :
  _poller self = Some p -> _connection p = Some c ->
  Poller.encode_value (PyStr value) data_format adj = Return (Some registers) ->
  (Poller.slave_id p w).2 = Return slave ->
  exists (w' : world) (answer : reply),
    transact (WriteRegisters address registers slave) w = (w', Return answer) /\
    PollingWorker.writeRegisters self address data_format adj value w
      = (w', match answer with Fails e => Raise e | _ => Return tt end) /\
    wire_ops (trace w')
      = wire_ops (trace w) ++ [WriteRegisters address registers slave] /\
    dicts w' = dicts w.
Proof.
  intros Hp Hc Henc Hslave.
  destruct (transact (WriteRegisters address registers slave) w)
    as [w' [answer|e]] eqn:Hwire;
    [|unfold transact in Hwire; destruct (incoming w) as [|[? ?] ?]; discriminate].
  exists w', answer. split; [reflexivity|].
  destruct (transact_wired _ _ _ _ Hwire) as [Hdicts Hops].
  split; [|by split].
  unfold PollingWorker.writeRegisters, PollingWorker.poller. rewrite Hp.
  unfold mbind at 1 2, io_bind at 1 2. cbn [mret io_ret]. unfold lift at 1.
  rewrite Henc. unfold Poller.writeRegisters.
  unfold mbind at 1 2, io_bind at 1 2. rewrite slave_id_spec, Hslave, Hc.
  unfold mbind, io_bind. rewrite Hwire. by destruct answer.
Qed.
End WritePath.

(** X14, witness: the text 0x00ff for a Hex - ASCII register at address 7. *)
Lemma write_sends_encoded_registers_witness :
  exists (w' : world) (answer : reply),
    transact (WriteRegisters 7 [255] (PyInt 1)) (world_with [(Response [], 20)])
      = (w', Return answer) /\
    @PollingWorker.writeRegisters no_pow (worker_of (connected one_batch) 1000 0) 7
        "Hex - ASCII" [] "0x00ff" (world_with [(Response [], 20)])
      = (w', match answer with Fails e => Raise e | _ => Return tt end) /\
    wire_ops (trace w')
      = wire_ops (trace (world_with [(Response [], 20)]))
        ++ [WriteRegisters 7 [255] (PyInt 1)] /\
    dicts w' = dicts (world_with [(Response [], 20)]).
Proof.
  apply (@write_sends_encoded_registers no_pow (worker_of (connected one_batch) 1000 0)
           (connected one_batch) (ModbusTcpClient (PyStr "192.168.1.1")));
    reflexivity.
Defined.

(** ** Texts on the write path *)

(** A string that matches the Binary pattern denotes a 16-bit word. *)
Lemma binary_pattern_word (s : string) :
  _binary_pattern s = true -> 0 <= int_base 2 (chars s) <= 65535.
Proof.
  unfold _binary_pattern, int_base. intros Hs.
  destruct (chars s) as [|c0 [|c1 [|c2 [|c3 [|s0 [|c4 [|c5 [|c6 [|c7 [|s1
    [|c8 [|c9 [|c10 [|c11 [|s2 [|c12 [|c13 [|c14 [|c15 rest]]]]]]]]]]]]]]]]]]];
    try (cbn [groups] in Hs; rewrite ?andb_false_r in Hs; discriminate).
  cbn [groups] in Hs.
  repeat match goal with
         | H : _ && _ = true |- _ =>
             let H' := fresh "Hb" in apply andb_prop in H as [H H']
         end.
  repeat match goal with
         | H : is_bit ?c = true |- _ => apply is_bit_cases in H; rewrite H
         | H : (ord ?c =? 32) = true |- _ => apply space_char in H; rewrite H
         end.
  rewrite !omap_hex_bit, !omap_hex_space, !omap_hex_bit, !omap_hex_space,
    !omap_hex_bit, !omap_hex_space, !omap_hex_bit.
  rewrite (at_end_no_digit rest) by assumption.
  match goal with
  | |- 0 <= of_digits 2 ?l <= _ =>
      pose proof (of_digits_range 2 l ltac:(lia)
                    ltac:(repeat apply Forall_cons_2; [apply b2z_bit..|constructor]))
        as Hr
  end.
  cbn [length] in Hr. change (2 ^ Z.of_nat 16) with 65536 in Hr. lia.
Qed.

Section Texts.
Context `{LibM}.

(** X15: for the Hex - ASCII and Binary formats [encode_value] raises
    nothing on a text.  A text that matches the pattern of the format is
    encoded as one register, the 16-bit word that its digits denote in base
    16 or 2, and a text that does not match gives [None]. *)
Theorem text_encoded_by_pattern (value : string) (adjustments : list adjustment) :
  (_hex_ascii_pattern value = true ->
   0 <= int_base 16 (drop 2 (chars value)) <= 65535 /\
   Poller.encode_value (PyStr value) "Hex - ASCII" adjustments
     = Return (Some [int_base 16 (drop 2 (chars value))])) /\
  (_hex_ascii_pattern value = false ->
   Poller.encode_value (PyStr value) "Hex - ASCII" adjustments = Return None) /\
  (_binary_pattern value = true ->
   0 <= int_base 2 (chars value) <= 65535 /\
   Poller.encode_value (PyStr value) "Binary" adjustments
     = Return (Some [int_base 2 (chars value)])) /\
  (_binary_pattern value = false ->
   Poller.encode_value (PyStr value) "Binary" adjustments = Return None).
Proof.
  change (Poller.encode_value (PyStr value) "Hex - ASCII" adjustments)
    with (Encoder.hex_ascii (PyStr value)).
  change (Poller.encode_value (PyStr value) "Binary" adjustments)
    with (Encoder.binary (PyStr value)).
  unfold Encoder.hex_ascii, Encoder.binary.
  split; [|split; [|split]]; intros Hs; rewrite Hs; try reflexivity.
  - pose proof (hex_pattern_word value Hs) as Hw.
    split; [exact Hw|]. by rewrite uint16_registers.
  - pose proof (binary_pattern_word value Hs) as Hw.
    split; [exact Hw|]. by rewrite uint16_registers.
Qed.
End Texts.

(** X15, witness: texts of two and of five hexadecimal digits, and sixteen
    bits in four groups and in one. *)
Lemma text_encoded_by_pattern_witness :
  @Poller.encode_value no_pow (PyStr "0x00ff") "Hex - ASCII" [] = Return (Some [255]) /\
  @Poller.encode_value no_pow (PyStr "0x12345") "Hex - ASCII" [] = Return None /\
  @Poller.encode_value no_pow (PyStr "0000 0001 0000 0010") "Binary" []
    = Return (Some [258]) /\
  @Poller.encode_value no_pow (PyStr "0000000100000010") "Binary" [] = Return None.
Proof.
  destruct (@text_encoded_by_pattern no_pow "0x00ff" []) as (Hhex & _).
  destruct (@text_encoded_by_pattern no_pow "0x12345" []) as (_ & Hlong & _).
  destruct (@text_encoded_by_pattern no_pow "0000 0001 0000 0010" [])
    as (_ & _ & Hbin & _).
  destruct (@text_encoded_by_pattern no_pow "0000000100000010" [])
    as (_ & _ & _ & Hone).
  split; [exact (proj2 (Hhex eq_refl))|].
  split; [exact (Hlong eq_refl)|].
  split; [exact (proj2 (Hbin eq_refl)) | exact (Hone eq_refl)].
Defined.
